(** * A shallow embedding of DynamoRIO's private library loader
      (core/win32/loader.c)

    The file follows the source top-down: a small state monad with the two
    abnormal outcomes a C program has (a memory fault, and running for
    ever), the redirected [Rtl*Heap] routines, and then the loader proper
    (registry, mapping, import binding, entry dispatch, unloading).

    Build configuration: the release build.  [ASSERT], [ASSERT_CURIOSITY],
    [ASSERT_NOT_REACHED], [DODEBUG] and [LOG] expand to nothing there, so
    they do not appear in the definitions below. *)

From Stdlib Require Import ZArith Lia Ascii String.
From stdpp Require Import base option list gmap strings.

Local Open Scope Z_scope.

(* set_solver clears hypotheses by name and warns when one is gone *)
#[local] Set Warnings "-clear-no-such-hyp".

(** ** Outcomes and state passing *)

Inductive outcome (St A : Type) : Type :=
| Done (a : A) (s : St)   (* the call returns [a] and leaves state [s] *)
| Crash                   (* access violation or undefined behaviour *)
| OutOfFuel.                (* the recursion budget of the model ran out *)
Arguments Done {St A} a s.
Arguments Crash {St A}.
Arguments OutOfFuel {St A}.

Definition run (St A : Type) : Type := St → outcome St A.

Definition ret {St A} (a : A) : run St A := λ s, Done a s.

Definition bind {St A B} (m : run St A) (k : A → run St B) : run St B :=
  λ s, match m s with
       | Done a s' => k a s'
       | Crash => Crash
       | OutOfFuel => OutOfFuel
       end.

Definition gets {St A} (f : St → A) : run St A := λ s, Done (f s) s.
Definition modify {St} (f : St → St) : run St unit := λ s, Done tt (f s).
Definition crash {St A} : run St A := λ _, Crash.
Definition out_of_fuel {St A} : run St A := λ _, OutOfFuel.

Notation "'let*' x ':=' m 'in' k" := (bind m (λ x, k))
  (at level 10, x pattern, m at level 100, k at level 200, only parsing).

(** What a caller can see of an outcome: the result, or how it ended. *)
Inductive observed (A : Type) : Type :=
| Returned (a : A)
| Crashed
| Looped.
Arguments Returned {A} a.
Arguments Crashed {A}.
Arguments Looped {A}.

Definition observe {St A} (o : outcome St A) : observed A :=
  match o with
  | Done a _ => Returned a
  | Crash => Crashed
  | OutOfFuel => Looped
  end.

Definition state_of {St A} (dflt : St) (o : outcome St A) : St :=
  match o with Done _ s => s | _ => dflt end.

(** [TEST(mask, var)] of the core's headers: some bit of [mask] is set. *)
Definition TEST (mask var : Z) : bool := negb (Z.land mask var =? 0).

(** ** Rtl*Heap redirection *)

Module Heap.

(** [sizeof(size_t)], by build flavour. *)
Definition sizeof_size_t (x64 : bool) : Z := if x64 then 8 else 4.

(** Arithmetic on [size_t] and on pointers wraps at the word size. *)
Definition wrap (x64 : bool) (v : Z) : Z := v mod 2 ^ (8 * sizeof_size_t x64).

Definition HEAP_ZERO_MEMORY : Z := 8.

(** Calls that fall through to the real ntdll. *)
Inductive native_call : Type :=
| NtAllocateHeap (heap flags size : Z)
| NtReAllocateHeap (heap flags ptr size : Z)
| NtFreeHeap (heap flags ptr : Z)
| NtSizeHeap (heap flags ptr : Z).

(** The collaborators of the redirection layer that live outside loader.c. *)
Record host : Type := {
  X64 : bool;
  (* get_peb(NT_CURRENT_PROCESS)->ProcessHeap *)
  ProcessHeap : Z;
  (* memory-ownership query of the host runtime *)
  is_dynamo_address : Z → bool;
  (* where the host allocator places a block of the given size, given the
     live blocks; 0 when it has no memory left *)
  heap_place : gmap Z Z → Z → Z;
  (* what the real ntdll routine returns *)
  ntdll : native_call → Z;
}.

Record heap_state : Type := {
  bytes : gmap Z Z;            (* committed memory: address ↦ byte *)
  blocks : gmap Z Z;           (* live host-heap blocks: start ↦ size *)
  native : list native_call;   (* native calls made so far, oldest first *)
}.

Definition set_bytes (f : gmap Z Z → gmap Z Z) (s : heap_state) : heap_state :=
  {| bytes := f (bytes s); blocks := blocks s; native := native s |}.
Definition set_blocks (f : gmap Z Z → gmap Z Z) (s : heap_state) : heap_state :=
  {| bytes := bytes s; blocks := f (blocks s); native := native s |}.

(** Commit the bytes of [[a, a+n)], keeping what is already there. *)
Definition commit (a n : Z) (m : gmap Z Z) : gmap Z Z :=
  foldr (λ x acc, <[x := default 0 (m !! x)]> acc) m (seqZ a n).

(** Modelled from the spec: the host's global heap, "allocate/free a typed
    record on the host's global heap", a separate allocator outside the OS
    process heap.  The placement policy is left to [heap_place]. *)
Definition global_heap_alloc (H : host) (size : Z) : run heap_state Z :=
  λ s, let a := heap_place H (blocks s) size in
       if a =? 0 then Done 0 s
       else Done a (set_blocks (<[a := size]>) (set_bytes (commit a size) s)).

Definition global_heap_free (p size : Z) : run heap_state unit :=
  modify (set_blocks (delete p)).

Definition load_byte (a : Z) : run heap_state Z :=
  λ s, match bytes s !! a with
       | Some b => Done b s
       | None => Crash
       end.

Definition store_byte (a b : Z) : run heap_state unit :=
  λ s, match bytes s !! a with
       | Some _ => Done tt (set_bytes (<[a := b]>) s)
       | None => Crash
       end.

(** Little-endian access to an [n]-byte unsigned integer. *)
Fixpoint load_le (n : nat) (a : Z) : run heap_state Z :=
  match n with
  | O => ret 0
  | S n' => let* b := load_byte a in
            let* hi := load_le n' (a + 1) in
            ret (b + 256 * hi)
  end.

Fixpoint store_le (n : nat) (a v : Z) : run heap_state unit :=
  match n with
  | O => ret tt
  | S n' => let* _ := store_byte a (v mod 256) in
            store_le n' (a + 1) (v / 256)
  end.

Definition load_size_t (H : host) (a : Z) : run heap_state Z :=
  load_le (Z.to_nat (sizeof_size_t (X64 H))) a.
Definition store_size_t (H : host) (a v : Z) : run heap_state unit :=
  store_le (Z.to_nat (sizeof_size_t (X64 H))) a v.

Fixpoint memset (dst c : Z) (n : nat) : run heap_state unit :=
  match n with
  | O => ret tt
  | S n' => let* _ := store_byte dst c in memset (dst + 1) c n'
  end.

Fixpoint memcpy (dst src : Z) (n : nat) : run heap_state unit :=
  match n with
  | O => ret tt
  | S n' => let* b := load_byte src in
            let* _ := store_byte dst b in
            memcpy (dst + 1) (src + 1) n'
  end.

Definition call_native (H : host) (c : native_call) : run heap_state Z :=
  λ s, Done (ntdll H c)
            {| bytes := bytes s; blocks := blocks s; native := native s ++ [c] |}.

Definition redirect_RtlAllocateHeap (H : host) (heap flags size : Z)
  : run heap_state Z :=
  let w := sizeof_size_t (X64 H) in
  if heap =? ProcessHeap H then
    let size := wrap (X64 H) (size + w) in
    let* mem := global_heap_alloc H size in
    if mem =? 0 then ret 0
    else
      let* _ := store_size_t H mem size in
      let* _ := if TEST HEAP_ZERO_MEMORY flags
                then memset (mem + w) 0 (Z.to_nat (wrap (X64 H) (size - w)))
                else ret tt in
      ret (mem + w)
  else call_native H (NtAllocateHeap heap flags size).

Definition redirect_RtlFreeHeap (H : host) (heap flags ptr : Z)
  : run heap_state bool :=
  let w := sizeof_size_t (X64 H) in
  if (heap =? ProcessHeap H) && is_dynamo_address H ptr then
    if negb (ptr =? 0) then
      let ptr := wrap (X64 H) (ptr - w) in
      let* total := load_size_t H ptr in
      let* _ := global_heap_free ptr total in
      ret true
    else ret false
  else
    let* r := call_native H (NtFreeHeap heap flags ptr) in
    ret (negb (r =? 0)).

Definition redirect_RtlReAllocateHeap (H : host) (heap flags ptr size : Z)
  : run heap_state Z :=
  let w := sizeof_size_t (X64 H) in
  if (heap =? ProcessHeap H) && (is_dynamo_address H ptr || (ptr =? 0)) then
    let* buf := redirect_RtlAllocateHeap H heap flags size in
    let* _ := if negb (buf =? 0) then
                let* old_size := load_size_t H (wrap (X64 H) (ptr - w)) in
                let min_size := Z.min old_size size in
                memcpy buf ptr (Z.to_nat min_size)
              else ret tt in
    let* _ := redirect_RtlFreeHeap H heap flags ptr in
    ret buf
  else call_native H (NtReAllocateHeap heap flags ptr size).

Definition redirect_RtlSizeHeap (H : host) (heap flags ptr : Z)
  : run heap_state Z :=
  let w := sizeof_size_t (X64 H) in
  if (heap =? ProcessHeap H) && is_dynamo_address H ptr then
    if negb (ptr =? 0) then load_size_t H (wrap (X64 H) (ptr - w))
    else ret 0
  else call_native H (NtSizeHeap heap flags ptr).

End Heap.

(** ** C strings and character buffers *)

Definition NUL : ascii := Ascii.zero.

Definition tolower (c : ascii) : ascii :=
  let n := N_of_ascii c in
  if ((65 <=? n) && (n <=? 90))%N then ascii_of_N (n + 32) else c.

Fixpoint lower (s : string) : string :=
  match s with
  | EmptyString => EmptyString
  | String c s' => String (tolower c) (lower s')
  end.

(** [strcasecmp]: only the comparison with 0 is ever used by the loader. *)
Definition strcasecmp (a b : string) : Z :=
  if decide (lower a = lower b) then 0 else 1.

(** [strchr(s, c) - s], when [c] occurs in [s]. *)
Fixpoint strchr (s : string) (c : ascii) : option nat :=
  match s with
  | EmptyString => None
  | String d s' => if decide (d = c) then Some O else S <$> strchr s' c
  end.

(** The string that starts [n] characters into [s]. *)
Fixpoint string_drop (n : nat) (s : string) : string :=
  match n, s with
  | O, _ => s
  | S n', String _ s' => string_drop n' s'
  | S _, EmptyString => EmptyString
  end.

Fixpoint string_take (n : nat) (s : string) : string :=
  match n, s with
  | S n', String c s' => String c (string_take n' s')
  | _, _ => EmptyString
  end.

(** The C string held by a character array: everything before the first
    NUL. *)
Fixpoint cstring (buf : list ascii) : string :=
  match buf with
  | [] => EmptyString
  | c :: buf' => if decide (c = NUL) then EmptyString else String c (cstring buf')
  end.

(** Store the characters [cs] at [buf[off]], [buf[off+1]], ...; a store past
    the end of the array is dropped (it would land in the neighbouring
    static data, which is not modelled). *)
Fixpoint poke (buf : list ascii) (off : nat) (cs : list ascii) : list ascii :=
  match cs with
  | [] => buf
  | c :: cs' => poke (<[off := c]> buf) (S off) cs'
  end.

(** [snprintf(buf + off, count, "%s", s)].  On Windows the core's [snprintf]
    is the C runtime's [_snprintf]: it stores at most [count] characters and
    appends the terminator only when the text is shorter than [count].  The
    [NULL_TERMINATE_BUFFER] that follows every full-size [snprintf] in
    loader.c exists for that reason. *)
Definition snprintf (buf : list ascii) (off count : nat) (s : string)
  : list ascii :=
  let cs := list_ascii_of_string s in
  if (length cs <? count)%nat then poke buf off (cs ++ [NUL])
  else poke buf off (take count cs).

Definition MAXIMUM_PATH : nat := 260.

(** [snprintf(buf, MAXIMUM_PATH, ...); NULL_TERMINATE_BUFFER(buf)] read back
    as a string, for a buffer that is only used within the statement. *)
Definition path_buffer (s : string) : string :=
  string_take (MAXIMUM_PATH - 1) s.

(** ** The private loader *)

Module Loader.

(** *** Images, as the PE helpers of the core see them *)

Record IMAGE_IMPORT_DESCRIPTOR : Type := {
  OriginalFirstThunk : Z;   (* RVA of the lookup table *)
  TimeDateStamp : Z;
  Name : Z;                 (* RVA of the library name *)
  FirstThunk : Z;           (* RVA of the import address table *)
}.

Inductive export_t : Type :=
| ExportFunction (rva : Z)
| ExportForwarder (target : string).

(** The parts of a PE image the loader reads, directly or through the
    helpers of module.c.  Arrays that the source walks up to a zero entry
    are lists here; the walk still stops at a zero entry inside the list. *)
Record pe_image : Type := {
  short_name : string;          (* get_dll_short_name *)
  image_size : Z;
  preferred_base : Z;           (* get_module_preferred_base *)
  relocatable : bool;           (* module_file_relocatable *)
  rebase_ok : bool;             (* what module_rebase returns *)
  entry_rva : Z;                (* AddressOfEntryPoint *)
  dll_main : Z → bool;          (* the entry routine, by reason code *)
  page_protections : list Z;    (* protection the kernel gives each page *)
  import_dir : Z * Z;           (* data directory: VirtualAddress, Size *)
  imports_readable : bool;      (* is_readable_without_exception on it *)
  descriptors : Z → list IMAGE_IMPORT_DESCRIPTOR;  (* array at an RVA *)
  thunks : Z → list Z;          (* IMAGE_THUNK_DATA array at an RVA *)
  cstr : Z → string;            (* NUL-terminated string at an RVA *)
  exports : list (string * export_t);
}.

(** *** The registry *)

Record privmod_t : Type := {
  base : Z;
  size : Z;
  name : string;
  ref_count : Z;                (* uint *)
  externally_loaded : bool;
}.

(** A [privmod_t *]: a record on the host heap, or a slot of the static
    array used before the heap exists. *)
Inductive privmod_ptr : Type :=
| HeapNode (a : nat)
| StaticNode (i : nat).

Global Instance privmod_ptr_eq_dec : EqDecision privmod_ptr.
Proof. solve_decision. Defined.

Definition PRIVMOD_STATIC_NUM : nat := 6.

(** Redirection targets inside the host. *)
Inductive redirect_fn : Type :=
| redirect_ignore_arg4 | redirect_ignore_arg8
| redirect_RtlAllocateHeap | redirect_RtlReAllocateHeap
| redirect_RtlFreeHeap | redirect_RtlSizeHeap
| redirect_RtlFreeUnicodeString | redirect_RtlFreeAnsiString
| redirect_RtlFreeOemString
| redirect_FlsAlloc | redirect_GetModuleHandleA | redirect_GetProcAddress.

(** Calls that leave the loader. *)
Inductive event : Type :=
| EvEntry (entry base reason : Z)     (* the entry routine is called *)
| EvRebase (map size delta : Z).      (* module_rebase *)

(** What does not change while the loader runs. *)
Record world : Type := {
  x64 : bool;
  files : string → option pe_image;            (* the file system *)
  kernel_base : gmap Z pe_image → pe_image → Z; (* where the kernel maps *)
  redirect_addr : redirect_fn → Z;              (* code addresses in the host *)
}.

(** The loader's globals together with the part of the process they act
    on.  [modlist] is the doubly-linked list from its head, each node with
    the address of its record: the list is the chain of the [next] fields.
    [node_prev] holds the [prev] field of each record that is not NULL, by
    the address of the record.  The two routines that write [prev]
    ([privload_insert] and [privload_unload]) only ever store NULL or the
    record in front; [privload_insert] leaves the [prev] of the old head as
    it is when it links a record in at the front. *)
Record state : Type := {
  modlist : list (nat * privmod_t);
  node_prev : gmap nat nat;            (* privmod->prev, absent when NULL *)
  next_node : nat;                     (* next record HEAP_TYPE_ALLOC returns *)
  privmod_static : list privmod_t;     (* privmod_static[PRIVMOD_STATIC_NUM] *)
  privmod_static_idx : nat;
  search_paths : list string;          (* search_paths[PRIVMOD_STATIC_NUM] *)
  systemroot : string;
  forwmodpath : list ascii;            (* forwmodpath[MAXIMUM_PATH] *)
  modlist_areas : list (Z * Z * nat);  (* [start, end) ↦ record *)
  dynamo_heap_initialized : bool;
  views : gmap Z pe_image;             (* mapped images, by base *)
  page_prot : gmap Z Z;                (* protection of each mapped page *)
  cells : gmap Z Z;                    (* pointer-sized cells written (IAT) *)
  trace : list event;                  (* oldest first *)
}.

Definition set_modlist (f : list (nat * privmod_t) → list (nat * privmod_t))
    (s : state) : state :=
  {| modlist := f (modlist s); node_prev := node_prev s;
     next_node := next_node s;
     privmod_static := privmod_static s;
     privmod_static_idx := privmod_static_idx s;
     search_paths := search_paths s; systemroot := systemroot s;
     forwmodpath := forwmodpath s; modlist_areas := modlist_areas s;
     dynamo_heap_initialized := dynamo_heap_initialized s;
     views := views s; page_prot := page_prot s; cells := cells s;
     trace := trace s |}.

Definition set_node_prev (f : gmap nat nat → gmap nat nat) (s : state)
  : state :=
  {| modlist := modlist s; node_prev := f (node_prev s);
     next_node := next_node s;
     privmod_static := privmod_static s;
     privmod_static_idx := privmod_static_idx s;
     search_paths := search_paths s; systemroot := systemroot s;
     forwmodpath := forwmodpath s; modlist_areas := modlist_areas s;
     dynamo_heap_initialized := dynamo_heap_initialized s;
     views := views s; page_prot := page_prot s; cells := cells s;
     trace := trace s |}.

Definition set_next_node (n : nat) (s : state) : state :=
  {| modlist := modlist s; node_prev := node_prev s;
     next_node := n;
     privmod_static := privmod_static s;
     privmod_static_idx := privmod_static_idx s;
     search_paths := search_paths s; systemroot := systemroot s;
     forwmodpath := forwmodpath s; modlist_areas := modlist_areas s;
     dynamo_heap_initialized := dynamo_heap_initialized s;
     views := views s; page_prot := page_prot s; cells := cells s;
     trace := trace s |}.

Definition set_static (l : list privmod_t) (idx : nat) (s : state) : state :=
  {| modlist := modlist s; node_prev := node_prev s;
     next_node := next_node s;
     privmod_static := l; privmod_static_idx := idx;
     search_paths := search_paths s; systemroot := systemroot s;
     forwmodpath := forwmodpath s; modlist_areas := modlist_areas s;
     dynamo_heap_initialized := dynamo_heap_initialized s;
     views := views s; page_prot := page_prot s; cells := cells s;
     trace := trace s |}.

Definition set_search_paths (l : list string) (s : state) : state :=
  {| modlist := modlist s; node_prev := node_prev s;
     next_node := next_node s;
     privmod_static := privmod_static s;
     privmod_static_idx := privmod_static_idx s;
     search_paths := l; systemroot := systemroot s;
     forwmodpath := forwmodpath s; modlist_areas := modlist_areas s;
     dynamo_heap_initialized := dynamo_heap_initialized s;
     views := views s; page_prot := page_prot s; cells := cells s;
     trace := trace s |}.

Definition set_forwmodpath (b : list ascii) (s : state) : state :=
  {| modlist := modlist s; node_prev := node_prev s;
     next_node := next_node s;
     privmod_static := privmod_static s;
     privmod_static_idx := privmod_static_idx s;
     search_paths := search_paths s; systemroot := systemroot s;
     forwmodpath := b; modlist_areas := modlist_areas s;
     dynamo_heap_initialized := dynamo_heap_initialized s;
     views := views s; page_prot := page_prot s; cells := cells s;
     trace := trace s |}.

Definition set_areas (f : list (Z * Z * nat) → list (Z * Z * nat))
    (s : state) : state :=
  {| modlist := modlist s; node_prev := node_prev s;
     next_node := next_node s;
     privmod_static := privmod_static s;
     privmod_static_idx := privmod_static_idx s;
     search_paths := search_paths s; systemroot := systemroot s;
     forwmodpath := forwmodpath s; modlist_areas := f (modlist_areas s);
     dynamo_heap_initialized := dynamo_heap_initialized s;
     views := views s; page_prot := page_prot s; cells := cells s;
     trace := trace s |}.

Definition set_views (f : gmap Z pe_image → gmap Z pe_image) (s : state)
  : state :=
  {| modlist := modlist s; node_prev := node_prev s;
     next_node := next_node s;
     privmod_static := privmod_static s;
     privmod_static_idx := privmod_static_idx s;
     search_paths := search_paths s; systemroot := systemroot s;
     forwmodpath := forwmodpath s; modlist_areas := modlist_areas s;
     dynamo_heap_initialized := dynamo_heap_initialized s;
     views := f (views s); page_prot := page_prot s; cells := cells s;
     trace := trace s |}.

Definition set_page_prot (f : gmap Z Z → gmap Z Z) (s : state) : state :=
  {| modlist := modlist s; node_prev := node_prev s;
     next_node := next_node s;
     privmod_static := privmod_static s;
     privmod_static_idx := privmod_static_idx s;
     search_paths := search_paths s; systemroot := systemroot s;
     forwmodpath := forwmodpath s; modlist_areas := modlist_areas s;
     dynamo_heap_initialized := dynamo_heap_initialized s;
     views := views s; page_prot := f (page_prot s); cells := cells s;
     trace := trace s |}.

Definition set_cells (f : gmap Z Z → gmap Z Z) (s : state) : state :=
  {| modlist := modlist s; node_prev := node_prev s;
     next_node := next_node s;
     privmod_static := privmod_static s;
     privmod_static_idx := privmod_static_idx s;
     search_paths := search_paths s; systemroot := systemroot s;
     forwmodpath := forwmodpath s; modlist_areas := modlist_areas s;
     dynamo_heap_initialized := dynamo_heap_initialized s;
     views := views s; page_prot := page_prot s; cells := f (cells s);
     trace := trace s |}.

Definition log_event (e : event) (s : state) : state :=
  {| modlist := modlist s; node_prev := node_prev s;
     next_node := next_node s;
     privmod_static := privmod_static s;
     privmod_static_idx := privmod_static_idx s;
     search_paths := search_paths s; systemroot := systemroot s;
     forwmodpath := forwmodpath s; modlist_areas := modlist_areas s;
     dynamo_heap_initialized := dynamo_heap_initialized s;
     views := views s; page_prot := page_prot s; cells := cells s;
     trace := trace s ++ [e] |}.

Abbreviation M := (run state).

(** *** Constants of the Windows headers *)

Definition IMAGE_ORDINAL_FLAG (W : world) : Z :=
  if x64 W then 2 ^ 63 else 2 ^ 31.
Definition sizeof_ptr (W : world) : Z := if x64 W then 8 else 4.
Definition PAGE_SIZE : Z := 4096.
Definition PAGE_START (a : Z) : Z := a - a mod PAGE_SIZE.
Definition PAGE_READWRITE : Z := 4.
Definition DLL_PROCESS_DETACH : Z := 0.
Definition DLL_PROCESS_ATTACH : Z := 1.
Definition DLL_THREAD_ATTACH : Z := 2.
Definition DLL_THREAD_DETACH : Z := 3.
Definition RVA_TO_VA (b rva : Z) : Z := b + rva.

(** [uint] arithmetic on the reference count. *)
Definition uint (v : Z) : Z := v mod 2 ^ 32.

(** *** Collaborators outside loader.c

    Modelled from the spec: the platform interface of section 6 (PE
    helpers, virtual memory, file I/O), each acting on the image that is
    mapped at the address it is given. *)

Definition get_module_preferred_base (s : state) (b : Z) : Z :=
  match views s !! b with Some img => preferred_base img | None => 0 end.

Definition module_file_relocatable (s : state) (b : Z) : bool :=
  match views s !! b with Some img => relocatable img | None => false end.

Definition module_rebase (b sz delta : Z) : M bool :=
  λ s, match views s !! b with
       | Some img => Done (rebase_ok img) (log_event (EvRebase b sz delta) s)
       | None => Done false s
       end.

(** "get_module_entry adds base => returns base instead of NULL". *)
Definition get_module_entry (s : state) (b : Z) : Z :=
  match views s !! b with Some img => b + entry_rva img | None => 0 end.

Definition get_dll_short_name (s : state) (b : Z) : string :=
  match views s !! b with Some img => short_name img | None => "" end.

Fixpoint find_export (nm : string) (l : list (string * export_t))
  : option export_t :=
  match l with
  | [] => None
  | (n, e) :: l' => if decide (n = nm) then Some e else find_export nm l'
  end.

(** Returns the function and, through the OUT parameter, the forwarder. *)
Definition get_proc_address_ex (s : state) (b : Z) (nm : string)
  : Z * option string :=
  match views s !! b with
  | Some img =>
      match find_export nm (exports img) with
      | Some (ExportFunction rva) => (b + rva, None)
      | Some (ExportForwarder t) => (0, Some t)
      | None => (0, None)
      end
  | None => (0, None)
  end.

Definition os_file_exists (W : world) (path : string) : bool :=
  match files W path with Some _ => true | None => false end.

(** Pages of an image mapped at [b], with the protection of each. *)
Definition image_pages (b : Z) (img : pe_image) : list (Z * Z) :=
  imap (λ i p, (b + PAGE_SIZE * Z.of_nat i, p)) (page_protections img).

(** [map_file] / [os_map_file] with [*size = 0] on entry: the whole image,
    wherever the kernel puts it.  Returns the base (NULL on failure) and
    the size. *)
Definition map_file (W : world) (img : pe_image) : M (Z * Z) :=
  λ s, let b := kernel_base W (views s) img in
       if b =? 0 then Done (0, 0) s
       else Done (b, image_size img)
              (set_views (<[b := img]>)
                 (set_page_prot
                    (λ m, foldr (λ kv acc, <[kv.1 := kv.2]> acc) m
                            (image_pages b img)) s)).

Definition unmap_file (b sz : Z) : M unit :=
  modify (λ s, set_views (delete b)
                 (set_page_prot (filter (λ kv, ¬ (b ≤ kv.1 < b + sz)))
                    (set_cells (filter (λ kv, ¬ (b ≤ kv.1 < b + sz))) s))).

(** [protect_virtual_memory(page, PAGE_SIZE, prot, &old)]: the old
    protection on success. *)
Definition protect_virtual_memory (page prot : Z) : M (option Z) :=
  λ s, match page_prot s !! page with
       | Some old => Done (Some old) (set_page_prot (<[page := prot]>) s)
       | None => Done None s
       end.

Definition writable (prot : Z) : bool :=
  (prot =? 4) || (prot =? 8) || (prot =? 64) || (prot =? 128).

(** [*address = dst] for a pointer-sized cell: faults unless the page is
    mapped with a writable protection. *)
Definition store_ptr (address dst : Z) : M unit :=
  λ s, match page_prot s !! PAGE_START address with
       | Some p => if writable p
                   then Done tt (set_cells (<[address := dst]>) s)
                   else Crash
       | None => Crash
       end.

(** Reading image data at [b] faults when nothing is mapped there. *)
Definition image_at (b : Z) : M pe_image :=
  λ s, match views s !! b with Some img => Done img s | None => Crash end.

(** The vector behind [in_private_library]. *)
Definition vmvector_add (lo hi : Z) (data : nat) : M unit :=
  modify (set_areas (λ v, v ++ [(lo, hi, data)])).

Definition vmvector_remove (lo hi : Z) : M unit :=
  modify (set_areas
            (filter (λ e, ¬ (e.1.1 < hi ∧ lo < e.1.2)))).

Definition vmvector_overlap (v : list (Z * Z * nat)) (lo hi : Z) : bool :=
  existsb (λ e, (e.1.1 <? hi) && (lo <? e.1.2)) v.

(** *** Registry operations *)

Fixpoint find_mod (p : privmod_t → bool) (l : list (nat * privmod_t))
  : option privmod_ptr :=
  match l with
  | [] => None
  | (a, m) :: l' => if p m then Some (HeapNode a) else find_mod p l'
  end.

Definition privload_lookup (nm : string) (s : state) : option privmod_ptr :=
  find_mod (λ m, strcasecmp nm (name m) =? 0) (modlist s).

Definition privload_lookup_by_base (modbase : Z) (s : state)
  : option privmod_ptr :=
  find_mod (λ m, modbase =? base m) (modlist s).

Fixpoint node_record (a : nat) (l : list (nat * privmod_t))
  : option privmod_t :=
  match l with
  | [] => None
  | (a', m) :: l' => if decide (a' = a) then Some m else node_record a l'
  end.

(** Reading through a [privmod_t *].  The records the model holds are
    those on the list: a pointer to a record that is not on it (freed, or
    taken off it with the records in front of a record with a NULL
    [prev]) is not followed, the run ends as a fault. *)
Definition deref (p : privmod_ptr) : M privmod_t :=
  λ s, match p with
       | HeapNode a =>
           match node_record a (modlist s) with
           | Some m => Done m s
           | None => Crash
           end
       | StaticNode i =>
           match privmod_static s !! i with
           | Some m => Done m s
           | None => Crash
           end
       end.

Definition with_ref_count (rc : Z) (m : privmod_t) : privmod_t :=
  {| base := base m; size := size m; name := name m; ref_count := rc;
     externally_loaded := externally_loaded m |}.

Definition with_externally_loaded (b : bool) (m : privmod_t) : privmod_t :=
  {| base := base m; size := size m; name := name m;
     ref_count := ref_count m; externally_loaded := b |}.

Fixpoint update_node (a : nat) (f : privmod_t → privmod_t)
    (l : list (nat * privmod_t)) : list (nat * privmod_t) :=
  match l with
  | [] => []
  | (a', m) :: l' =>
      if decide (a' = a) then (a', f m) :: l' else (a', m) :: update_node a f l'
  end.

(** Link [x] right behind node [d]. *)
Fixpoint insert_after (d : nat) (x : nat * privmod_t)
    (l : list (nat * privmod_t)) : option (list (nat * privmod_t)) :=
  match l with
  | [] => None
  | y :: l' =>
      if decide (y.1 = d) then Some (y :: x :: l')
      else cons y <$> insert_after d x l'
  end.

(** The chain without record [a]: what [privmod->prev->next =
    privmod->next] leaves, [prev] being the record in front. *)
Fixpoint unlink (a : nat) (l : list (nat * privmod_t))
  : list (nat * privmod_t) :=
  match l with
  | [] => []
  | y :: l' => if decide (y.1 = a) then l' else y :: unlink a l'
  end.

(** The chain from [privmod->next] on: the records behind record [a]. *)
Fixpoint behind (a : nat) (l : list (nat * privmod_t))
  : list (nat * privmod_t) :=
  match l with
  | [] => []
  | y :: l' => if decide (y.1 = a) then l' else behind a l'
  end.

(** The unlinking in [privload_unload].  A record whose [prev] is NULL is
    taken for the head: [modlist = privmod->next], which takes every record
    in front of it off the list as well. *)
Definition unlink_node (a : nat) (s : state) : state :=
  let prev := node_prev s !! a in
  let next := head (behind a (modlist s)) in
  let s1 := match prev with
            | None => set_modlist (behind a) s
            | Some _ => set_modlist (unlink a) s
            end in
  (* if (privmod->next != NULL) privmod->next->prev = privmod->prev *)
  match next with
  | Some n => set_node_prev (match prev with
                             | Some p => <[n.1 := p]>
                             | None => delete n.1
                             end) s1
  | None => s1
  end.

Definition privload_insert (after : option privmod_ptr) (b sz : Z)
    (nm : string) : M (option privmod_ptr) :=
  λ s,
    let privmod := {| base := b; size := sz; name := nm; ref_count := 1;
                  externally_loaded := false |} in
    if dynamo_heap_initialized s then
      let a := next_node s in
      let s1 := set_next_node (S a) s in
      match after with
      | None =>
          (* mod->next = modlist; mod->prev = NULL; modlist = mod *)
          Done (Some (HeapNode a))
               (set_node_prev (delete a) (set_modlist (cons (a, privmod)) s1))
      | Some (HeapNode d) =>
          match insert_after d (a, privmod) (modlist s) with
          | Some l =>
              (* mod->prev = after;
                 if (after->next != NULL) after->next->prev = mod *)
              Done (Some (HeapNode a))
                   (set_node_prev
                      (λ pv, match head (behind d (modlist s)) with
                             | Some n => <[n.1 := a]> (<[a := d]> pv)
                             | None => <[a := d]> pv
                             end)
                      (set_modlist (λ _, l) s1))
          | None => Crash
          end
      | Some (StaticNode _) => Crash
      end
    else if (PRIVMOD_STATIC_NUM <=? privmod_static_idx s)%nat then Done None s
    else
      let i := privmod_static_idx s in
      Done (Some (StaticNode i))
           (set_static (<[i := privmod]> (privmod_static s)) (S i) s).

(** *** Redirection tables *)

Definition redirect_ntdll : list (string * redirect_fn) :=
  [ ("LdrSetDllManifestProber", redirect_ignore_arg4);
    ("RtlSetThreadPoolStartFunc", redirect_ignore_arg8);
    ("RtlSetUnhandledExceptionFilter", redirect_ignore_arg4);
    ("RtlAllocateHeap", redirect_RtlAllocateHeap);
    ("RtlReAllocateHeap", redirect_RtlReAllocateHeap);
    ("RtlFreeHeap", redirect_RtlFreeHeap);
    ("RtlSizeHeap", redirect_RtlSizeHeap);
    ("RtlFreeUnicodeString", redirect_RtlFreeUnicodeString);
    ("RtlFreeAnsiString", redirect_RtlFreeAnsiString);
    ("RtlFreeOemString", redirect_RtlFreeOemString) ]%string.

Definition redirect_kernel32 : list (string * redirect_fn) :=
  [ ("FlsAlloc", redirect_FlsAlloc);
    ("GetModuleHandleA", redirect_GetModuleHandleA);
    ("GetProcAddress", redirect_GetProcAddress) ]%string.

Fixpoint redirect_scan (W : world) (nm : string)
    (tbl : list (string * redirect_fn)) : Z :=
  match tbl with
  | [] => 0
  | (n, f) :: tbl' =>
      if strcasecmp nm n =? 0 then redirect_addr W f
      else redirect_scan W nm tbl'
  end.

Definition privload_redirect_imports (W : world) (impmod : privmod_t)
    (nm : string) : Z :=
  if strcasecmp (name impmod) "ntdll.dll" =? 0 then
    redirect_scan W nm redirect_ntdll
  else if strcasecmp (name impmod) "kernel32.dll" =? 0 then
    redirect_scan W nm redirect_kernel32
  else 0.

(** *** Mapping, import directory, entry dispatch *)

(** Returns the base, NULL on failure, and what it stored in [*size]. *)
Definition privload_map_and_relocate (W : world) (filename : string)
  : M (Z * Z) :=
  match files W filename with
  | None => ret (0, 0)
  | Some img =>
      let* (map, sz) := map_file W img in
      let* pref := gets (λ s, get_module_preferred_base s map) in
      if negb (pref =? map) then
        let* reloc := gets (λ s, module_file_relocatable s map) in
        if negb reloc then
          let* _ := unmap_file map sz in ret (0, sz)
        else
          let* ok := module_rebase map sz (map - pref) in
          if negb ok then
            let* _ := unmap_file map sz in ret (0, sz)
          else ret (map, sz)
      else ret (map, sz)
  end.

(** The result flag and [*imports] (NULL when there is no directory). *)
Definition privload_get_import_descriptor (privmod : privmod_t)
  : M (bool * option (list IMAGE_IMPORT_DESCRIPTOR)) :=
  let* img := image_at (base privmod) in
  let '(va, sz) := import_dir img in
  if sz <=? 0 then ret (true, None)
  else if negb (imports_readable img) then ret (false, None)
  else ret (true, Some (descriptors img va)).

(** [privmod] is passed as the record it points to: the callers hold it
    across the unlinking of the node. *)
Definition privload_call_entry (privmod : privmod_t) (reason : Z) : M bool :=
  λ s,
    let entry := get_module_entry s (base privmod) in
    if negb (entry =? 0) && negb (entry =? base privmod) then
      match views s !! base privmod with
      | Some img =>
          Done (dll_main img reason)
               (log_event (EvEntry entry (base privmod) reason) s)
      | None => Crash
      end
    else Done true s.

(** *** Unloading

    [privload_unload] and [privload_unload_imports] call each other.  Each
    is written against the other taken as a parameter, and the knot is tied
    by a recursion budget further down. *)

Section UnloadBody.
Variable unload_rec : privmod_ptr → M bool.

Fixpoint unload_descriptors (img : pe_image)
    (imports : list IMAGE_IMPORT_DESCRIPTOR) : M bool :=
  match imports with
  | [] => ret true
  | d :: rest =>
      if OriginalFirstThunk d =? 0 then ret true
      else
        let impname := cstr img (Name d) in
        let* impmod := gets (privload_lookup impname) in
        let* _ := match impmod with
                  | Some p => unload_rec p
                  | None => ret false
                  end in
        unload_descriptors img rest
  end.

Definition privload_unload_imports (privmod : privmod_t) : M bool :=
  let* (ok, imports) := privload_get_import_descriptor privmod in
  if negb ok then ret false
  else match imports with
       | None => ret true
       | Some descs =>
           let* img := image_at (base privmod) in
           unload_descriptors img descs
       end.

Definition privload_unload_body (p : privmod_ptr) : M bool :=
  match p with
  | StaticNode _ => crash
  | HeapNode a =>
      let* privmod := deref p in
      let rc := uint (ref_count privmod - 1) in
      let* _ := modify (set_modlist (update_node a (with_ref_count rc))) in
      if rc =? 0 then
        let* _ := modify (unlink_node a) in
        let* _ :=
          if negb (externally_loaded privmod) then
            let* _ := privload_call_entry privmod DLL_PROCESS_DETACH in
            let* _ := privload_unload_imports privmod in
            let* _ := vmvector_remove (base privmod)
                                      (base privmod + size privmod) in
            unmap_file (base privmod) (size privmod)
          else ret tt in
        ret true
      else ret false
  end.
End UnloadBody.

Fixpoint privload_unload (fuel : nat) (p : privmod_ptr) : M bool :=
  match fuel with
  | O => out_of_fuel
  | S n => privload_unload_body (privload_unload n) p
  end.

(** *** Loading and import binding *)

Section LoadBody.
Variable W : world.
(* privload_load, privload_unload and the forwarder loop, with the budget
   that is left one call further down *)
Variable load_rec : string → option privmod_ptr → M (option privmod_ptr).
Variable unload : privmod_ptr → M bool.
Variable budget : nat.

(** One search step of [privload_locate_and_load]: if the file exists,
    load it and return the module when the load succeeded; in every other
    case go on with the next directory. *)
Definition try_path (path : string) (dependent : privmod_ptr)
    (otherwise : M (option privmod_ptr)) : M (option privmod_ptr) :=
  if os_file_exists W path then
    let* privmod := load_rec path (Some dependent) in
    match privmod with
    | Some _ => ret privmod
    | None => otherwise
    end
  else otherwise.

(** [impname] is a [const char *]: it is read again at every use, which
    matters when it points into [forwmodpath]. *)
Definition locate_system (impname : state → string)
    (dependent : privmod_ptr) : M (option privmod_ptr) :=
  let* root := gets systemroot in
  if decide (root = "")%string then ret None
  else
    (* 3) system dir *)
    let* nm := gets impname in
    try_path (path_buffer (root +:+ "/system32/" +:+ nm)) dependent
      ((* 4) windows dir *)
       let* nm := gets impname in
       try_path (path_buffer (root +:+ "/" +:+ nm)) dependent (ret None)).

Fixpoint locate_client_dirs (dirs : list string) (impname : state → string)
    (dependent : privmod_ptr) : M (option privmod_ptr) :=
  match dirs with
  | [] => locate_system impname dependent
  | d :: dirs' =>
      let* nm := gets impname in
      try_path (path_buffer (d +:+ "/" +:+ nm)) dependent
        (locate_client_dirs dirs' impname dependent)
  end.

Definition privload_locate_and_load (impname : state → string)
    (dependent : privmod_ptr) : M (option privmod_ptr) :=
  (* 1) client lib dir *)
  let* dirs := gets (λ s, take (privmod_static_idx s) (search_paths s)) in
  locate_client_dirs dirs impname dependent.

(** The [while (func == NULL)] loop of [privload_process_one_import].
    The result is [None] where the source returns false, and otherwise
    the values of [func], [forwmod] and [forwfunc] at the loop exit. *)
Fixpoint forwarder_loop (fuel : nat) (privmod : privmod_ptr) (func : Z)
    (forwarder : option string) (forwmod : privmod_ptr) (forwfunc : string)
  : M (option (Z * privmod_ptr * string)) :=
  if negb (func =? 0) then ret (Some (func, forwmod, forwfunc))
  else
    match fuel with
    | O => out_of_fuel
    | S fuel' =>
        match forwarder with
        | None => ret None
        | Some fw =>
            match strchr fw "." with
            | None =>
                (* strchr returned NULL: forwfunc is the address 1, and
                   forwfunc - forwarder + strlen("dll"), an unsigned
                   length, is far beyond the buffer size *)
                ret None
            | Some dot =>
                let n := S dot in         (* forwfunc - forwarder *)
                let forwfunc := string_drop n fw in
                if (MAXIMUM_PATH <=? n + 3)%nat then ret None
                else
                  let* _ := modify (λ s,
                    set_forwmodpath
                      (<[(n + 4)%nat := NUL]>
                         (snprintf (snprintf (forwmodpath s) 0 n fw)
                                   n 3 "dll")) s) in
                  let path := λ s, cstring (forwmodpath s) in
                  let* found := gets (λ s, privload_lookup (path s) s) in
                  let* forwmod :=
                    match found with
                    | Some p => ret (Some p)
                    | None => privload_locate_and_load path privmod
                    end in
                  match forwmod with
                  | None => ret None
                  | Some fm =>
                      let* fmr := deref fm in
                      let* (func, forwarder) :=
                        gets (λ s, get_proc_address_ex s (base fmr)
                                     forwfunc) in
                      forwarder_loop fuel' privmod func forwarder fm forwfunc
                  end
            end
        end
    end.

Definition privload_process_one_import (privmod impmod : privmod_ptr)
    (lookup address : Z) : M bool :=
  if TEST (IMAGE_ORDINAL_FLAG W) lookup then
    (* FIXME i#233: support import by ordinal *)
    ret true
  else
    (* import by name *)
    let* m := deref privmod in
    let* img := image_at (base m) in
    let name_rva := Z.land lookup (Z.lnot (IMAGE_ORDINAL_FLAG W)) in
    let nm := cstr img (name_rva + 2) in      (* name->Name *)
    let* im := deref impmod in
    let* (func, forwarder) :=
      gets (λ s, get_proc_address_ex s (base im) nm) in
    let* r := forwarder_loop budget privmod func forwarder impmod nm in
    match r with
    | None => ret false
    | Some (func, forwmod, forwfunc) =>
        (* write result into IAT *)
        let* fm := deref forwmod in
        let dst := privload_redirect_imports W fm forwfunc in
        let dst := if dst =? 0 then func else dst in
        let* _ := store_ptr address dst in
        ret true
    end.

(** The inner [while (lookup->u1.Function != 0)] loop.  [None] where the
    source returns false, otherwise [iat] and [orig_prot] at the exit. *)
Fixpoint bind_thunks (privmod impmod : privmod_ptr) (lookup : list Z)
    (address iat orig_prot : Z) : M (option (Z * Z)) :=
  match lookup with
  | [] => ret (Some (iat, orig_prot))
  | fn :: lookup' =>
      if fn =? 0 then ret (Some (iat, orig_prot))
      else
        let* ok := privload_process_one_import privmod impmod fn address in
        if negb ok then ret None
        else
          let address := address + sizeof_ptr W in
          if negb (PAGE_START address =? PAGE_START iat) then
            let* r := protect_virtual_memory (PAGE_START iat) orig_prot in
            match r with
            | None => ret None
            | Some _ =>
                let iat := address in
                let* r := protect_virtual_memory (PAGE_START iat)
                                                 PAGE_READWRITE in
                match r with
                | None => ret None
                | Some orig_prot =>
                    bind_thunks privmod impmod lookup' address iat orig_prot
                end
            end
          else bind_thunks privmod impmod lookup' address iat orig_prot
  end.

(** The outer [while (imports->OriginalFirstThunk != 0)] loop. *)
Fixpoint bind_descriptors (privmod : privmod_ptr) (img : pe_image)
    (imports : list IMAGE_IMPORT_DESCRIPTOR) : M bool :=
  match imports with
  | [] => ret true
  | d :: rest =>
      if OriginalFirstThunk d =? 0 then ret true
      else
        let impname := cstr img (Name d) in
        let* found := gets (privload_lookup impname) in
        let* impmod :=
          match found with
          | None => privload_locate_and_load (λ _, impname) privmod
          | Some (HeapNode a) =>
              let* _ := modify (set_modlist (update_node a
                          (λ m, with_ref_count (uint (ref_count m + 1)) m))) in
              ret found
          | Some (StaticNode _) => ret found
          end in
        match impmod with
        | None => ret false
        | Some impmod =>
            (* walk the lookup table and address table in lockstep *)
            let* m := deref privmod in
            let lookup := thunks img (OriginalFirstThunk d) in
            let address := RVA_TO_VA (base m) (FirstThunk d) in
            let iat := address in
            let* r := protect_virtual_memory (PAGE_START iat)
                                             PAGE_READWRITE in
            match r with
            | None => ret false
            | Some orig_prot =>
                let* r := bind_thunks privmod impmod lookup address iat
                                      orig_prot in
                match r with
                | None => ret false
                | Some (iat, orig_prot) =>
                    let* r := protect_virtual_memory (PAGE_START iat)
                                                     orig_prot in
                    match r with
                    | None => ret false
                    | Some _ => bind_descriptors privmod img rest
                    end
                end
            end
        end
  end.

Definition privload_process_imports (privmod : privmod_ptr) : M bool :=
  let* m := deref privmod in
  let* (ok, imports) := privload_get_import_descriptor m in
  if negb ok then ret false
  else match imports with
       | None => ret true
       | Some descs =>
           let* img := image_at (base m) in
           bind_descriptors privmod img descs
       end.

(** most uses should call privload_load() instead; if it fails, unloads *)
Definition privload_load_finalize (privmod : privmod_ptr) : M bool :=
  let* m := deref privmod in
  let* _ := if negb (externally_loaded m) then
              match privmod with
              | HeapNode a => vmvector_add (base m) (base m + size m) a
              | StaticNode _ => ret tt
              end
            else ret tt in
  let* ok := privload_process_imports privmod in
  if negb ok then
    let* _ := unload privmod in ret false
  else
    let* m := deref privmod in
    let* ok := privload_call_entry m DLL_PROCESS_ATTACH in
    if negb ok then
      let* _ := unload privmod in ret false
    else ret true.

(** [double_strrchr(filename, DIRSEP, ALT_DIRSEP) - filename]. *)
Fixpoint last_dirsep (s : string) : option nat :=
  match s with
  | EmptyString => None
  | String c s' =>
      match last_dirsep s' with
      | Some i => Some (S i)
      | None => if decide (c = "\"%char ∨ c = "/"%char) then Some O else None
      end
  end.

Definition privload_load_body (filename : string)
    (dependent : option privmod_ptr) : M (option privmod_ptr) :=
  let* (map, sz) := privload_map_and_relocate W filename in
  if map =? 0 then ret None
  else
    let* heap := gets dynamo_heap_initialized in
    (* Keep a copy of the lib path for use in searching *)
    let* _ :=
      if negb heap then
        match last_dirsep filename with
        | Some e =>
            if (e <? MAXIMUM_PATH)%nat then
              modify (λ s, set_search_paths
                             (<[privmod_static_idx s := string_take e filename]>
                                (search_paths s)) s)
            else ret tt
        | None => ret tt
        end
      else ret tt in
    (* Add to list before processing imports in case of mutually
       dependent libs; add after its dependent *)
    let* nm := gets (λ s, get_dll_short_name s map) in
    let* privmod := privload_insert dependent map sz nm in
    match privmod with
    | Some p =>
        if heap then
          let* ok := privload_load_finalize p in
          if negb ok then ret None else ret privmod
        else ret privmod
    | None => ret privmod
    end.
End LoadBody.

Fixpoint privload_load (W : world) (fuel : nat) (filename : string)
    (dependent : option privmod_ptr) : M (option privmod_ptr) :=
  match fuel with
  | O => out_of_fuel
  | S n =>
      privload_load_body W (privload_load W n) (privload_unload n) n
        filename dependent
  end.

(** *** The interface to the rest of the host *)

Definition load_private_library (W : world) (fuel : nat) (filename : string)
  : M Z :=
  let* found := gets (privload_lookup filename) in
  let* privmod := match found with
                  | None => privload_load W fuel filename None
                  | Some _ => ret found
                  end in
  match privmod with
  | Some p => let* m := deref p in ret (base m)
  | None => ret 0
  end.

Definition unload_private_library (fuel : nat) (modbase : Z) : M bool :=
  let* found := gets (privload_lookup_by_base modbase) in
  match found with
  | Some p => privload_unload fuel p
  | None => ret false
  end.

Definition in_private_library (s : state) (pc : Z) : bool :=
  vmvector_overlap (modlist_areas s) pc (pc + 1).

(** Walk forward and call independent libs last. *)
Fixpoint call_entries (reason : Z) (l : list (nat * privmod_t)) : M unit :=
  match l with
  | [] => ret tt
  | (_, m) :: l' =>
      let* _ := if negb (externally_loaded m)
                then privload_call_entry m reason
                else ret true in
      call_entries reason l'
  end.

Definition loader_thread_init : M unit :=
  let* l := gets modlist in call_entries DLL_THREAD_ATTACH l.

Definition loader_thread_exit : M unit :=
  let* l := gets modlist in call_entries DLL_THREAD_DETACH l.

(** *** Initialisation and exit

    The loader's state together with the list of FLS callbacks.
    [fls_cb_list] holds the [cb] field of each node from the head; the
    empty list is the NULL pointer the variable has before [loader_init]
    and after [loader_exit]. *)

Record process : Type := {
  ldr : state;
  fls_cb_list : list Z;
}.

Definition in_ldr {A} (m : M A) : run process A :=
  λ p, match m (ldr p) with
       | Done a s => Done a {| ldr := s; fls_cb_list := fls_cb_list p |}
       | Crash => Crash
       | OutOfFuel => OutOfFuel
       end.

Definition set_fls (l : list Z) (p : process) : process :=
  {| ldr := ldr p; fls_cb_list := l |}.

(** What [loader_init] asks the rest of the host. *)
Record host_modules : Type := {
  ntdll_base : Z;                 (* get_ntdll_base() *)
  dynamorio_dll_start : Z;        (* get_dynamorio_dll_start() *)
  user32_handle : Z;              (* get_module_handle(L"user32.dll") *)
  allocation_size : Z → Z;        (* get_allocation_size(base, NULL) *)
  DYNAMORIO_LIBRARY_NAME : string;
  (* the SystemRoot value of the CurrentVersion key, when the query
     succeeds *)
  systemroot_value : option string;
}.

Definition set_systemroot (r : string) (s : state) : state :=
  {| modlist := modlist s; node_prev := node_prev s;
     next_node := next_node s;
     privmod_static := privmod_static s;
     privmod_static_idx := privmod_static_idx s;
     search_paths := search_paths s; systemroot := r;
     forwmodpath := forwmodpath s; modlist_areas := modlist_areas s;
     dynamo_heap_initialized := dynamo_heap_initialized s;
     views := views s; page_prot := page_prot s; cells := cells s;
     trace := trace s |}.

Definition privload_init_search_paths (B : host_modules) : M unit :=
  match systemroot_value B with
  | Some v => modify (set_systemroot (path_buffer v))
  | None => ret tt
  end.

(** [mod->externally_loaded = true] *)
Definition set_externally_loaded (p : option privmod_ptr) : M unit :=
  λ s, match p with
       | None => Crash
       | Some (HeapNode a) =>
           match node_record a (modlist s) with
           | Some _ =>
               Done tt (set_modlist
                          (update_node a (with_externally_loaded true)) s)
           | None => Crash
           end
       | Some (StaticNode i) =>
           match privmod_static s !! i with
           | Some m =>
               Done tt (set_static
                          (<[i := with_externally_loaded true m]>
                             (privmod_static s))
                          (privmod_static_idx s) s)
           | None => Crash
           end
       end.

Definition register_host_module (b sz : Z) (nm : string) : M unit :=
  let* privmod := privload_insert None b sz nm in
  set_externally_loaded privmod.

(** The loop over the client libraries that were loaded early.  The
    result lists the indices for which [CLIENT_ASSERT(false, ...)] is
    reached; [k] bounds the number of iterations. *)
Fixpoint finalize_client_libs (W : world) (fuel k i : nat) : M (list nat) :=
  let* idx := gets privmod_static_idx in
  if (i <? idx)%nat then
    match k with
    | O => out_of_fuel
    | S k' =>
        let* slot := gets (λ s, privmod_static s !! i) in
        match slot with
        | None => crash
        | Some m =>
            (* Transfer to real list so we can do normal processing *)
            let* privmod := privload_insert None (base m) (size m) (name m) in
            match privmod with
            | None => crash
            | Some p =>
                let* ok := privload_load_finalize W (privload_load W fuel)
                             (privload_unload fuel) fuel p in
                let* failed := finalize_client_libs W fuel k' (S i) in
                ret (if ok then failed else i :: failed)
            end
        end
    end
  else ret [].

Definition loader_init (W : world) (B : host_modules) (fuel k : nat)
  : run process (list nat) :=
  (* use permanent head node to avoid .data unprot *)
  let* _ := modify (set_fls [0]) in
  in_ldr
    (let* _ := privload_init_search_paths B in
     let* _ := modify (set_areas (λ _, [])) in
     let* _ := register_host_module (ntdll_base B)
                 (allocation_size B (ntdll_base B)) "ntdll.dll" in
     let* _ := register_host_module (dynamorio_dll_start B)
                 (allocation_size B (dynamorio_dll_start B))
                 (DYNAMORIO_LIBRARY_NAME B) in
     let* _ := if negb (user32_handle B =? 0) then
                 register_host_module (user32_handle B)
                   (allocation_size B (user32_handle B)) "user32.dll"
               else ret tt in
     (* Process client libs we loaded early but did not finalize *)
     finalize_client_libs W fuel k 0).

(** [while (modlist != NULL) privload_unload(modlist);] with a bound [k]
    on the number of iterations. *)
Fixpoint unload_all (fuel k : nat) : M unit :=
  let* l := gets modlist in
  match l with
  | [] => ret tt
  | (a, _) :: _ =>
      match k with
      | O => out_of_fuel
      | S k' =>
          let* _ := privload_unload fuel (HeapNode a) in
          unload_all fuel k'
      end
  end.

(** [vmvector_delete_vector] frees the vector; it is the empty vector
    here.  The second loop frees every node of the callback list, the head
    included. *)
Definition loader_exit (fuel k : nat) : run process unit :=
  let* _ := in_ldr (let* _ := unload_all fuel k in
                    modify (set_areas (λ _, []))) in
  modify (set_fls []).

(** *** Redirected kernel32 queries

    Both take the name as a string: a NULL name, or an ordinal in place of
    the name, is outside of what is modelled. *)

Module Kernel32.

Record kernel32_host : Type := {
  GetModuleHandle : string → Z;
  GetProcAddress : Z → string → Z;
}.

Definition redirect_GetModuleHandleA (K : kernel32_host) (nm : string) : M Z :=
  let* privmod := gets (privload_lookup nm) in
  match privmod with
  | Some p => let* m := deref p in ret (base m)
  | None => ret (GetModuleHandle K nm)
  end.

Definition redirect_GetProcAddress (W : world) (K : kernel32_host)
    (modbase : Z) (nm : string) : M Z :=
  let* privmod := gets (privload_lookup_by_base modbase) in
  match privmod with
  | Some p =>
      let* m := deref p in
      let res := privload_redirect_imports W m nm in
      (* I assume GetProcAddress returns NULL for forwarded exports? *)
      let* res := if res =? 0
                  then gets (λ s, (get_proc_address_ex s modbase nm).1)
                  else ret res in
      ret res
  | None => ret (GetProcAddress K modbase nm)
  end.

End Kernel32.

(** *** FLS callbacks of private libraries

    [redirect_FlsAlloc] records the callbacks that lie in a private
    library; [private_lib_handle_cb] runs such a callback natively when the
    application is about to execute it. *)

Module Fls.

(** What the two routines see of the thread and of the host besides the
    loader's state. *)
Record machine : Type := {
  proc : process;
  dr_areas : list (Z * Z);        (* added with add_dynamo_vm_area *)
  xsp : Z;                        (* get_mcontext(dcontext)->xsp *)
  xcx : Z;
  next_tag : Z;                   (* dcontext->next_tag *)
  stack : gmap Z Z;               (* readable pointer-sized cells *)
  fls_allocs : list Z;            (* calls of the real FlsAlloc, by cb *)
  cb_calls : list (Z * Z);        (* callbacks run natively: cb, arg *)
}.

(** The routines of the host that [redirect_FlsAlloc] calls. *)
Record fls_host : Type := {
  FlsAlloc : Z → Z;               (* the index the real FlsAlloc returns *)
  (* is_dynamo_address, given the areas added so far *)
  is_dynamo_address : list (Z * Z) → Z → bool;
}.

Definition set_proc (f : process → process) (t : machine) : machine :=
  {| proc := f (proc t); dr_areas := dr_areas t; xsp := xsp t; xcx := xcx t;
     next_tag := next_tag t; stack := stack t; fls_allocs := fls_allocs t;
     cb_calls := cb_calls t |}.

Definition add_dynamo_vm_area (lo hi : Z) (t : machine) : machine :=
  {| proc := proc t; dr_areas := dr_areas t ++ [(lo, hi)]; xsp := xsp t;
     xcx := xcx t; next_tag := next_tag t; stack := stack t;
     fls_allocs := fls_allocs t; cb_calls := cb_calls t |}.

Definition call_FlsAlloc (F : fls_host) (cb : Z) : run machine Z :=
  λ t, Done (FlsAlloc F cb)
         {| proc := proc t; dr_areas := dr_areas t; xsp := xsp t;
            xcx := xcx t; next_tag := next_tag t; stack := stack t;
            fls_allocs := fls_allocs t ++ [cb]; cb_calls := cb_calls t |}.

Definition redirect_FlsAlloc (F : fls_host) (cb : Z) : run machine Z :=
  let* inlib := gets (λ t, in_private_library (ldr (proc t)) cb) in
  let* _ :=
    if inlib then
      (* entry->next = fls_cb_list->next; fls_cb_list->next = entry *)
      let* l := gets (λ t, fls_cb_list (proc t)) in
      match l with
      | [] => crash
      | head :: rest =>
          let* _ := modify (set_proc (set_fls (head :: cb :: rest))) in
          (* ensure on DR areas list *)
          let* dyn := gets (λ t, is_dynamo_address F (dr_areas t) cb) in
          if negb dyn then modify (add_dynamo_vm_area cb (cb + 1))
          else ret tt
      end
    else ret tt in
  call_FlsAlloc F cb.

Definition XSP_SZ (W : world) : Z := if x64 W then 8 else 4.

(** [safe_read] of one pointer-sized value at [addr]. *)
Definition safe_read (t : machine) (addr : Z) : option Z := stack t !! addr.

(** Pointer arithmetic on [xsp] wraps at the word size. *)
Definition advance (W : world) (v k : Z) : Z := (v + k) mod 2 ^ (8 * XSP_SZ W).

Definition private_lib_handle_cb (W : world) (pc : Z) : run machine bool :=
  λ t,
    if existsb (λ cb, negb (cb =? 0) && (cb =? pc)) (fls_cb_list (proc t))
    then
      (* Extract the retaddr and the arg to the callback *)
      match safe_read t (xsp t) with
      | None => Done false t   (* in release we'll interpret the routine *)
      | Some retaddr =>
          let arg :=
            if x64 W then xcx t
            else default 0 (safe_read t (advance W (xsp t) (XSP_SZ W))) in
          Done true
            {| proc := proc t; dr_areas := dr_areas t;
               (* This is stdcall so clean up the retaddr + param *)
               xsp := advance W (xsp t)
                        (XSP_SZ W + if x64 W then 0 else 4);
               xcx := xcx t;
               (* Now we interpret from the retaddr *)
               next_tag := retaddr;
               stack := stack t; fls_allocs := fls_allocs t;
               cb_calls := cb_calls t ++ [(pc, arg)] |}
      end
    else Done false t.

End Fls.

(** *** Concrete images and worlds, used to run the loader *)

Module Scenario.

Inductive import_slot : Type :=
| ByName (nm : string)
| ByOrdinal (n : Z).

(** Layout of the images built here: import directory at RVA 0x2000, the
    lookup table of descriptor [i] at 0x3000 + 0x100 i, its library name at
    0x4000 + 0x100 i, its address table at [iat_rva + 0x100 i], and the
    hint/name entry of slot [j] at 0x6000 + 0x1000 i + 0x40 j. *)
Definition oft_rva (i : nat) : Z := 12288 + 256 * Z.of_nat i.
Definition name_rva (i : nat) : Z := 16384 + 256 * Z.of_nat i.
Definition hint_rva (i j : nat) : Z := 24576 + 4096 * Z.of_nat i + 64 * Z.of_nat j.

Definition slot_value (flag : Z) (i j : nat) (sl : import_slot) : Z :=
  match sl with
  | ByName _ => hint_rva i j
  | ByOrdinal n => Z.lor flag n
  end.

Definition slot_strings (i : nat) (sls : list import_slot)
  : list (Z * string) :=
  omap id (imap (λ j sl, match sl with
                         | ByName nm => Some (hint_rva i j + 2, nm)
                         | ByOrdinal _ => None
                         end) sls).

Fixpoint assoc_Z {A} (k : Z) (l : list (Z * A)) : option A :=
  match l with
  | [] => None
  | (k', v) :: l' => if k' =? k then Some v else assoc_Z k l'
  end.

Definition image (flag : Z) (nm : string) (pref : Z) (iat_rva : Z)
    (imps : list (string * list import_slot))
    (exps : list (string * export_t)) (entry : Z) (main : Z → bool)
  : pe_image :=
  {| short_name := nm;
     image_size := 65536;
     preferred_base := pref;
     relocatable := true;
     rebase_ok := true;
     entry_rva := entry;
     dll_main := main;
     page_protections := replicate 16 2;
     import_dir := (8192, 20 * Z.of_nat (length imps));
     imports_readable := true;
     descriptors := λ rva,
       if rva =? 8192 then
         imap (λ i _, {| OriginalFirstThunk := oft_rva i; TimeDateStamp := 0;
                         Name := name_rva i;
                         FirstThunk := iat_rva + 256 * Z.of_nat i |}) imps
       else [];
     thunks := λ rva,
       default [] (assoc_Z rva
         (imap (λ i imp, (oft_rva i, imap (slot_value flag i) imp.2)) imps));
     cstr := λ rva,
       default ""%string (assoc_Z rva
         (imap (λ i imp, (name_rva i, imp.1)) imps ++
          concat (imap (λ i imp, slot_strings i imp.2) imps)));
     exports := exps |}.

Fixpoint assoc_string {A} (k : string) (l : list (string * A)) : option A :=
  match l with
  | [] => None
  | (k', v) :: l' => if decide (k' = k) then Some v else assoc_string k l'
  end.

(** A 32-bit world: an image goes to its preferred base when that is free
    and 0x100000 above it otherwise. *)
Definition world32 (fs : list (string * pe_image)) : world :=
  {| x64 := false;
     files := λ path, assoc_string path fs;
     kernel_base := λ vs img,
       match vs !! preferred_base img with
       | None => preferred_base img
       | Some _ => preferred_base img + 1048576
       end;
     redirect_addr := λ f, 1879048192 |}.

(** The loader after initialisation, with nothing registered yet. *)
Definition boot : state :=
  {| modlist := []; node_prev := ∅; next_node := 1;
     privmod_static := []; privmod_static_idx := 0;
     search_paths := replicate PRIVMOD_STATIC_NUM ""%string;
     systemroot := "C:/windows";
     forwmodpath := replicate MAXIMUM_PATH NUL;
     modlist_areas := [];
     dynamo_heap_initialized := true;
     views := ∅; page_prot := ∅; cells := ∅; trace := [] |}.

Definition flag32 : Z := 2 ^ 31.

Definition no_entry : Z → bool := λ _, true.

(** a.dll imports [f] from b.dll; neither has an entry routine. *)
Definition b_dll : pe_image :=
  image flag32 "b.dll" 268435456 20480 []
        [("f"%string, ExportFunction 4096)] 0 no_entry.
Definition a_dll : pe_image :=
  image flag32 "a.dll" 536870912 20480
        [("b.dll"%string, [ByName "f"])] [] 0 no_entry.

Definition world_ab : world :=
  world32 [("a.dll"%string, a_dll);
           ("C:/windows/system32/b.dll"%string, b_dll)].

(** o.dll imports b.dll's ordinal 7. *)
Definition o_dll : pe_image :=
  image flag32 "o.dll" 805306368 20480
        [("b.dll"%string, [ByOrdinal 7])] [] 0 no_entry.

Definition world_ordinal : world :=
  world32 [("o.dll"%string, o_dll);
           ("C:/windows/system32/b.dll"%string, b_dll)].

(** m.dll imports [g] from b.dll, which exports no such name. *)
Definition m_dll : pe_image :=
  image flag32 "m.dll" 1073741824 20480
        [("b.dll"%string, [ByName "g"])] [] 0 no_entry.

Definition world_missing : world :=
  world32 [("m.dll"%string, m_dll);
           ("C:/windows/system32/b.dll"%string, b_dll)].

(** leaf.dll imports nothing. *)
Definition leaf_dll : pe_image :=
  image flag32 "leaf.dll" 1342177280 20480 [] [] 0 no_entry.

Definition world_leaf : world := world32 [("leaf.dll"%string, leaf_dll)].

(** fwd.dll imports two names from kernel32.dll; the first is forwarded to
    KERNELBASE, the second to NTDLL. *)
Definition ntdll_dll : pe_image :=
  image flag32 "ntdll.dll" 2004877312 20480 []
        [("RtlEnterCriticalSection"%string, ExportFunction 4096)] 0 no_entry.
Definition kernelbase_dll : pe_image :=
  image flag32 "KERNELBASE.dll" 1963982848 20480 []
        [("Sleep"%string, ExportFunction 8192)] 0 no_entry.
Definition kernel32_dll : pe_image :=
  image flag32 "kernel32.dll" 1979711488 20480 []
        [("Sleep"%string, ExportForwarder "KERNELBASE.Sleep");
         ("EnterCriticalSection"%string,
          ExportForwarder "NTDLL.RtlEnterCriticalSection")] 0 no_entry.
Definition fwd_dll : pe_image :=
  image flag32 "fwd.dll" 1610612736 20480
        [("kernel32.dll"%string,
          [ByName "Sleep"; ByName "EnterCriticalSection"])] [] 0 no_entry.
(* the same imports in the other order *)
Definition fwd2_dll : pe_image :=
  image flag32 "fwd2.dll" 1610612736 20480
        [("kernel32.dll"%string,
          [ByName "EnterCriticalSection"; ByName "Sleep"])] [] 0 no_entry.

Definition world_forward : world :=
  world32 [("fwd.dll"%string, fwd_dll);
           ("fwd2.dll"%string, fwd2_dll);
           ("C:/windows/system32/kernel32.dll"%string, kernel32_dll);
           ("C:/windows/system32/KERNELBASE.dll"%string, kernelbase_dll);
           ("C:/windows/system32/NTDLL.dll"%string, ntdll_dll)].

(** x.dll and y.dll import from each other; x.dll also wants a name that
    y.dll does not export. *)
Definition x_dll : pe_image :=
  image flag32 "x.dll" 1207959552 20480
        [("y.dll"%string, [ByName "yf"; ByName "nowhere"])]
        [("xf"%string, ExportFunction 4096)] 0 no_entry.
Definition y_dll : pe_image :=
  image flag32 "y.dll" 1476395008 20480
        [("x.dll"%string, [ByName "xf"])]
        [("yf"%string, ExportFunction 4096)] 0 no_entry.

Definition world_mutual : world :=
  world32 [("x.dll"%string, x_dll);
           ("C:/windows/system32/y.dll"%string, y_dll)].

(** States reached by running the loader from [boot]. *)
Definition ab_loaded : state :=
  state_of boot (load_private_library world_ab 10 "a.dll" boot).

Definition leaf_loaded : state :=
  state_of boot (load_private_library world_leaf 10 "leaf.dll" boot).

Definition leaf_loaded_twice : state :=
  state_of boot (load_private_library world_leaf 10 "leaf.dll" leaf_loaded).

Definition leaf_unloaded_once : state :=
  state_of boot (unload_private_library 10 1342177280 leaf_loaded_twice).

(** a.dll mapped and registered, its imports not yet processed. *)
Definition a_inserted : state :=
  state_of boot
    ((let* (map, sz) := privload_map_and_relocate world_ab "a.dll" in
      let* nm := gets (λ s, get_dll_short_name s map) in
      let* p := privload_insert None map sz nm in
      match p with
      | Some (HeapNode a) => vmvector_add map (map + sz) a
      | _ => ret tt
      end) boot).

(** m.dll mapped and registered, its imports not yet processed: the state
    in which [privload_load] calls [privload_load_finalize]. *)
Definition m_inserted : state :=
  state_of boot
    ((let* (map, sz) := privload_map_and_relocate world_missing "m.dll" in
      let* nm := gets (λ s, get_dll_short_name s map) in
      let* p := privload_insert None map sz nm in
      match p with
      | Some (HeapNode a) => vmvector_add map (map + sz) a
      | _ => ret tt
      end) boot).

Definition m_imports_failed : state :=
  state_of boot
    (privload_process_imports world_missing (privload_load world_missing 9) 9
       (HeapNode 1) m_inserted).

Definition mutual_failed : state :=
  state_of boot (load_private_library world_mutual 10 "x.dll" boot).

Definition forward_failed : state :=
  state_of boot (load_private_library world_forward 10 "fwd.dll" boot).

End Scenario.

(** *** The loader before the host heap exists, and client libraries *)

Module Early.

Definition no_record : privmod_t :=
  {| base := 0; size := 0; name := ""; ref_count := 0;
     externally_loaded := false |}.

(** Start of the process: no heap yet, nothing loaded. *)
Definition cold : state :=
  {| modlist := []; node_prev := ∅; next_node := 1;
     privmod_static := replicate PRIVMOD_STATIC_NUM no_record;
     privmod_static_idx := 0;
     search_paths := replicate PRIVMOD_STATIC_NUM ""%string;
     systemroot := "";
     forwmodpath := replicate MAXIMUM_PATH NUL;
     modlist_areas := [];
     dynamo_heap_initialized := false;
     views := ∅; page_prot := ∅; cells := ∅; trace := [] |}.

(** A client library that imports [f] from b.dll, which lies beside it,
    and has an entry routine. *)
Definition client_dll : pe_image :=
  Scenario.image Scenario.flag32 "client.dll" 1879048192 20480
    [("b.dll"%string, [Scenario.ByName "f"])] [] 4096 (λ _, true).

Definition world_client : world :=
  Scenario.world32
    [("C:/clients/bin/client.dll"%string, client_dll);
     ("C:/clients/bin/b.dll"%string, Scenario.b_dll)].

Definition client_mapped : state :=
  state_of cold
    (privload_load world_client 1 "C:/clients/bin/client.dll" None cold).


(** a.dll and b.dll loaded, and the page of a.dll's address table made
    writable again, as it is while the imports are bound. *)
Definition ab_binding : state :=
  state_of Scenario.ab_loaded
    (protect_virtual_memory (PAGE_START (536870912 + 20480)) PAGE_READWRITE
       Scenario.ab_loaded).

Definition no_kernel32 : Kernel32.kernel32_host :=
  {| Kernel32.GetModuleHandle := λ _, 0;
     Kernel32.GetProcAddress := λ _ _, 0 |}.

(** A host whose ntdll, own library and user32 lie at the usual places. *)
Definition host_boot : host_modules :=
  {| ntdll_base := 2004877312;
     dynamorio_dll_start := 1895825408;
     user32_handle := 1983905792;
     allocation_size := λ _, 1048576;
     DYNAMORIO_LIBRARY_NAME := "dynamorio.dll";
     systemroot_value := Some "C:/windows"%string |}.

Definition fresh_process : process :=
  {| ldr := Scenario.boot; fls_cb_list := [] |}.

Definition initialised : process :=
  match loader_init Scenario.world_ab host_boot 3 0 fresh_process with
  | Done _ p => p
  | _ => fresh_process
  end.

(** s.dll and x.dll import nothing; h.dll imports [sf] from s.dll.  The
    three are loaded one after the other, each for nobody, and s.dll, which
    h.dll has taken a second reference on, is then unloaded once. *)
Definition s_dll : pe_image :=
  Scenario.image Scenario.flag32 "s.dll" 671088640 20480 []
    [("sf"%string, ExportFunction 4096)] 0 Scenario.no_entry.
Definition x_dll : pe_image :=
  Scenario.image Scenario.flag32 "x.dll" 939524096 20480 [] [] 0
    Scenario.no_entry.
Definition h_dll : pe_image :=
  Scenario.image Scenario.flag32 "h.dll" 1744830464 20480
    [("s.dll"%string, [Scenario.ByName "sf"])] [] 0 Scenario.no_entry.

Definition world_shx : world :=
  Scenario.world32 [("s.dll"%string, s_dll); ("x.dll"%string, x_dll);
                    ("h.dll"%string, h_dll)].

Definition shx_loaded : state :=
  let s1 := state_of Scenario.boot
              (load_private_library world_shx 10 "s.dll" Scenario.boot) in
  let s2 := state_of s1 (load_private_library world_shx 10 "x.dll" s1) in
  let s3 := state_of s2 (load_private_library world_shx 10 "h.dll" s2) in
  state_of s3 (unload_private_library 10 671088640 s3).

(** u.dll and v.dll import from each other, and each exports what the
    other wants. *)
Definition u_dll : pe_image :=
  Scenario.image Scenario.flag32 "u.dll" 2013265920 20480
    [("v.dll"%string, [Scenario.ByName "vf"])]
    [("uf"%string, ExportFunction 4096)] 0 Scenario.no_entry.
Definition v_dll : pe_image :=
  Scenario.image Scenario.flag32 "v.dll" 2080374784 20480
    [("u.dll"%string, [Scenario.ByName "uf"])]
    [("vf"%string, ExportFunction 4096)] 0 Scenario.no_entry.

Definition world_uv : world :=
  Scenario.world32 [("u.dll"%string, u_dll);
                    ("C:/windows/system32/v.dll"%string, v_dll)].

Definition uv_loaded : state :=
  state_of Scenario.boot
    (load_private_library world_uv 10 "u.dll" Scenario.boot).

(** client.dll on its own: the b.dll it imports from is nowhere. *)
Definition world_client_alone : world :=
  Scenario.world32 [("client.dll"%string, client_dll)].

(** A thread that is about to execute, in the application, a callback at
    0x50000100 of the loaded leaf.dll: the return address 0x401000 is on
    top of the stack, the argument 7 below it. *)
Definition fls_host32 : Fls.fls_host :=
  {| Fls.FlsAlloc := λ _, 1;
     Fls.is_dynamo_address := λ areas pc,
       existsb (λ e, (e.1 <=? pc) && (pc <? e.2)) areas |}.

Definition thread_at_callback : Fls.machine :=
  {| Fls.proc := {| ldr := Scenario.leaf_loaded; fls_cb_list := [0] |};
     Fls.dr_areas := [];
     Fls.xsp := 1244000; Fls.xcx := 0; Fls.next_tag := 1342177536;
     Fls.stack := {[ 1244000 := 4198400; 1244004 := 7 ]};
     Fls.fls_allocs := []; Fls.cb_calls := [] |}.

End Early.

(** *** Notions used to state properties of the registry *)

(** Position of node [a] from the front of the list. *)
Fixpoint node_index (a : nat) (l : list (nat * privmod_t)) : option nat :=
  match l with
  | [] => None
  | y :: l' => if decide (y.1 = a) then Some O else S <$> node_index a l'
  end.

(** The library names of an import directory, in the order of the walk of
    [privload_process_imports]. *)
Fixpoint import_names (img : pe_image)
    (imports : list IMAGE_IMPORT_DESCRIPTOR) : list string :=
  match imports with
  | [] => []
  | d :: rest =>
      if OriginalFirstThunk d =? 0 then []
      else cstr img (Name d) :: import_names img rest
  end.

Definition imports_of (s : state) (m : privmod_t) : list string :=
  match views s !! base m with
  | Some img =>
      if img.(import_dir).2 <=? 0 then []
      else import_names img (descriptors img img.(import_dir).1)
  | None => []
  end.

(** [d] is a direct dependency of [m]: [m] imports from a library of [d]'s
    name. *)
Definition depends_on (s : state) (m d : privmod_t) : Prop :=
  ∃ nm, nm ∈ imports_of s m ∧ strcasecmp nm (name d) = 0.


(** The reverse order, "every module appears before its direct
    dependencies". *)
Definition dependents_first (s : state) : Prop :=
  ∀ i j M D,
    modlist s !! i = Some M → modlist s !! j = Some D →
    depends_on s M.2 D.2 → (i < j)%nat.

(** No entry routine to call: [get_module_entry] gave NULL or the base. *)
Definition entry_absent (s : state) (m : privmod_t) : Prop :=
  get_module_entry s (base m) = 0 ∨ get_module_entry s (base m) = base m.

(** The registry as a caller can inspect it. *)
Definition registry (s : state) : list (string * Z * Z) :=
  (λ x, (name x.2, base x.2, ref_count x.2)) <$> modlist s.

Definition resident (s : state) (modbase : Z) : bool :=
  match privload_lookup_by_base modbase s with
  | Some _ => true
  | None => false
  end.

(** The addresses of the registered records, front to back. *)
Definition nodes (s : state) : list nat := (modlist s).*1.







(** Every page that is mapped in [s] has the same protection in [s']. *)
Definition keeps_protection (s s' : state) : Prop :=
  ∀ pg v, page_prot s !! pg = Some v → page_prot s' !! pg = Some v.

(** The same, except that page [w] is PAGE_READWRITE in [s']. *)
Definition keeps_protection_but (w : Z) (s s' : state) : Prop :=
  ∀ pg v, page_prot s !! pg = Some v →
          page_prot s' !! pg
          = Some (if decide (pg = w) then PAGE_READWRITE else v).

(** *** Relations between the state before and after a call

    [respects P m]: whenever [m] returns, the states before and after are
    related by [P].  For a reflexive and transitive [P] this composes along
    [bind]. *)

Definition respects {A} (P : state → state → Prop) (m : M A) : Prop :=
  ∀ s a s', m s = Done a s' → P s s'.

(** A relation on states that only looks at the registry and at the supply
    of record addresses is respected by everything that leaves these
    alone. *)
Definition registry_only (P : state → state → Prop) : Prop :=
  ∀ s s', modlist s' = modlist s → next_node s' = next_node s → P s s'.

(** Records that are not registered stay unregistered. *)
Definition keeps_absent (s s' : state) : Prop :=
  ∀ x, node_record x (modlist s) = None → node_record x (modlist s') = None.



(** The file names [privload_locate_and_load] tries for a library name, in
    the order in which it tries them: the directories of the client
    libraries, then the system directory, then the Windows directory. *)
Definition search_candidates (s : state) (impname : string) : list string :=
  ((λ d, path_buffer (d +:+ "/" +:+ impname))
     <$> take (privmod_static_idx s) (search_paths s)) ++
  (if decide (systemroot s = ""%string) then []
   else [path_buffer (systemroot s +:+ "/system32/" +:+ impname);
         path_buffer (systemroot s +:+ "/" +:+ impname)]).

(** How a call ends for the purpose of a bound on the recursion: it
    returns with at most [k] records registered, or it faults; it does not
    run out of budget. *)
Definition ends_within {A} (k : nat) (o : outcome state A) : Prop :=
  match o with
  | Done _ s' => (length (modlist s') ≤ k)%nat
  | Crash => True
  | OutOfFuel => False
  end.


(** The entry calls a walk of the registry makes for a reason code: one
    for every record that is not externally loaded and whose image has an
    entry routine, front to back. *)
Definition entry_events (s : state) (reason : Z)
    (l : list (nat * privmod_t)) : list event :=
  omap (λ x : nat * privmod_t,
          let entry := get_module_entry s (base x.2) in
          if negb (externally_loaded x.2) && negb (entry =? 0)
             && negb (entry =? base x.2)
          then Some (EvEntry entry (base x.2) reason) else None) l.

Definition log_events (es : list event) (s : state) : state :=
  foldl (λ s e, log_event e s) s es.

(** The loader's own variables are the same in both states: only the
    address space and the record of outside calls may differ. *)
Definition same_globals (s s' : state) : Prop :=
  modlist s' = modlist s ∧ next_node s' = next_node s ∧
  privmod_static s' = privmod_static s ∧
  privmod_static_idx s' = privmod_static_idx s ∧
  search_paths s' = search_paths s ∧ systemroot s' = systemroot s ∧
  forwmodpath s' = forwmodpath s ∧ modlist_areas s' = modlist_areas s ∧
  dynamo_heap_initialized s' = dynamo_heap_initialized s.

(** No entry routine has been called between the two states. *)
Definition no_entry_called (s s' : state) : Prop :=
  ∀ e b reason, EvEntry e b reason ∈ trace s' → EvEntry e b reason ∈ trace s.

(** The sum of the reference counts of the registered records. *)
Fixpoint total_refs (l : list (nat * privmod_t)) : Z :=
  match l with
  | [] => 0
  | x :: l' => ref_count x.2 + total_refs l'
  end.

(** A registry as the loader keeps it: every record has an address of its
    own and a reference count that is positive and fits a [uint]. *)
Definition counted (s : state) : Prop :=
  NoDup (nodes s) ∧ ∀ x, x ∈ modlist s → 0 < ref_count x.2 < 2 ^ 32.

(** The bases of the registered modules that the loader has mapped
    itself. *)
Definition private_bases (s : state) : list Z :=
  (λ x : nat * privmod_t, base x.2)
    <$> filter (λ x : nat * privmod_t, externally_loaded x.2 = false)
          (modlist s).





(** A call that leaves the registry counted, with a sum of counts that is
    no larger ([strict = false]) or smaller ([strict = true]). *)
Definition spends (strict : bool) (s s' : state) : Prop :=
  counted s →
  counted s' ∧
  if strict then total_refs (modlist s') < total_refs (modlist s)
  else total_refs (modlist s') ≤ total_refs (modlist s).

(** Every private module of the registry has an image mapped at its
    base, and no two of them share a base. *)
Definition mapped_apart (s : state) : Prop :=
  NoDup (private_bases s) ∧
  ∀ b, b ∈ private_bases s → is_Some (views s !! b).

(** Everything but the registry and its allocator is the same. *)
Definition same_but_registry (s s' : state) : Prop :=
  privmod_static s' = privmod_static s ∧
  privmod_static_idx s' = privmod_static_idx s ∧
  search_paths s' = search_paths s ∧ systemroot s' = systemroot s ∧
  forwmodpath s' = forwmodpath s ∧ modlist_areas s' = modlist_areas s ∧
  dynamo_heap_initialized s' = dynamo_heap_initialized s ∧
  views s' = views s ∧ page_prot s' = page_prot s ∧ cells s' = cells s ∧
  trace s' = trace s.

(** The record [loader_init] makes for a module of the host. *)
Definition host_record (B : host_modules) (b : Z) (nm : string) : privmod_t :=
  {| base := b; size := allocation_size B b; name := nm; ref_count := 1;
     externally_loaded := true |}.


End Loader.

(** ** A concrete host for the heap routines *)

Module HeapScenario.
Import Heap.

(** A 64-bit host whose heap occupies [0x71000000, 0x72000000) and hands
    out blocks one after the other.  The real ntdll reports success for a
    free and the failure value for the size of a block it does not know. *)
Definition heap_lo : Z := 1895825408.
Definition heap_hi : Z := 1912602624.

Definition host64 : host :=
  {| X64 := true;
     ProcessHeap := 1376256;
     is_dynamo_address := λ a, (heap_lo <=? a) && (a <? heap_hi);
     heap_place := λ live sz,
       let top := map_fold (λ k v acc, Z.max acc (k + v)) heap_lo live in
       if top + sz <=? heap_hi then top else 0;
     ntdll := λ c, match c with
                   | NtFreeHeap _ _ _ => 1
                   | NtSizeHeap _ _ _ => 2 ^ 64 - 1
                   | _ => 0
                   end |}.

Definition empty_heap : heap_state :=
  {| bytes := ∅; blocks := ∅; native := [] |}.

(** The state after a successful allocation of 64 bytes. *)
Definition after_alloc64 : heap_state :=
  state_of empty_heap
    (redirect_RtlAllocateHeap host64 (ProcessHeap host64) 0 64 empty_heap).

End HeapScenario.

(** * Facts about the heap redirection *)

Section HeapFacts.
Import Heap.

Lemma word_range (x64 : bool) :
  256 ^ Z.of_nat (Z.to_nat (sizeof_size_t x64)) = 2 ^ (8 * sizeof_size_t x64).
Proof. destruct x64; reflexivity. Qed.

Lemma wrap_range (x64 : bool) (v : Z) :
  0 ≤ wrap x64 v < 2 ^ (8 * sizeof_size_t x64).
Proof. unfold wrap. apply Z.mod_pos_bound. destruct x64; reflexivity. Qed.

Lemma wrap_small (x64 : bool) (v : Z) :
  0 ≤ v < 2 ^ (8 * sizeof_size_t x64) → wrap x64 v = v.
Proof. intros Hv. unfold wrap. by apply Z.mod_small. Qed.

Lemma store_byte_done a b s s' :
  store_byte a b s = Done tt s' →
  is_Some (bytes s !! a) ∧ s' = set_bytes (<[a := b]>) s.
Proof.
  unfold store_byte. destruct (bytes s !! a) eqn:E; [|done].
  intros [= <-]. eauto.
Qed.

(** A store of a word that goes through can be read back, and touches
    nothing but the bytes of the word. *)
Lemma store_le_spec (n : nat) :
  ∀ a v s s',
    store_le n a v s = Done tt s' →
    0 ≤ v < 256 ^ Z.of_nat n →
    load_le n a s' = Done v s' ∧
    blocks s' = blocks s ∧ native s' = native s ∧
    (∀ x, x < a ∨ a + Z.of_nat n ≤ x → bytes s' !! x = bytes s !! x).
Proof.
  induction n as [|n IH]; intros a v s s' Hst Hv.
  - simpl in *. injection Hst as <-. unfold ret.
    assert (v = 0) as -> by (change (256 ^ Z.of_nat 0) with 1 in Hv; lia).
    auto.
  - cbn [store_le] in Hst. unfold bind in Hst.
    destruct (store_byte a (v mod 256) s) as [[] s1| |] eqn:Hb; try discriminate.
    apply store_byte_done in Hb as [_ ->].
    assert (0 ≤ v / 256 < 256 ^ Z.of_nat n) as Hv'.
    { rewrite Nat2Z.inj_succ, Z.pow_succ_r in Hv by lia.
      split; [apply Z.div_pos; lia|apply Z.div_lt_upper_bound; lia]. }
    destruct (IH _ _ _ _ Hst Hv') as (Hld & Hbl & Hnat & Hfr).
    split; [|split; [|split]].
    + cbn [load_le]. unfold bind, load_byte.
      rewrite Hfr by lia. cbn. rewrite lookup_insert_eq.
      rewrite Hld. unfold ret. f_equal.
      pose proof (Z.div_mod v 256). lia.
    + by rewrite Hbl.
    + by rewrite Hnat.
    + intros x Hx. rewrite Hfr by lia. cbn.
      apply lookup_insert_ne. lia.
Qed.

Lemma load_le_state (n : nat) :
  ∀ a v s s', load_le n a s = Done v s' → s' = s.
Proof.
  induction n as [|n IH]; intros a v s s' Hld.
  - simpl in Hld. unfold ret in Hld. congruence.
  - cbn [load_le] in Hld. unfold bind, load_byte in Hld.
    destruct (bytes s !! a); [|congruence].
    destruct (load_le n (a + 1) s) as [h t| |] eqn:E; try congruence.
    apply IH in E as ->. unfold ret in Hld. congruence.
Qed.

Lemma load_le_ext (n : nat) :
  ∀ a v s1 s2,
    (∀ i, 0 ≤ i < Z.of_nat n → bytes s2 !! (a + i) = bytes s1 !! (a + i)) →
    load_le n a s1 = Done v s1 → load_le n a s2 = Done v s2.
Proof.
  induction n as [|n IH]; intros a v s1 s2 Hext Hld.
  - simpl in *. unfold ret in *. congruence.
  - cbn [load_le] in *. unfold bind, load_byte in *.
    specialize (Hext 0 ltac:(lia)) as H0. rewrite Z.add_0_r in H0.
    rewrite H0. destruct (bytes s1 !! a) as [b|]; [|congruence].
    destruct (load_le n (a + 1) s1) as [hi s1'| |] eqn:Hhi; try congruence.
    pose proof (load_le_state _ _ _ _ _ Hhi) as ->.
    rewrite (IH (a + 1) hi s1 s2); [unfold ret in *; congruence| |done].
    intros i Hi. replace (a + 1 + i) with (a + (1 + i)) by lia.
    apply Hext. lia.
Qed.

Lemma memset_frame (n : nat) :
  ∀ d c s s',
    memset d c n s = Done tt s' →
    blocks s' = blocks s ∧ native s' = native s ∧
    (∀ x, x < d → bytes s' !! x = bytes s !! x).
Proof.
  induction n as [|n IH]; intros d c s s' Hm.
  - simpl in Hm. injection Hm as <-. auto.
  - cbn [memset] in Hm. unfold bind in Hm.
    destruct (store_byte d c s) as [[] s1| |] eqn:Hb; try discriminate.
    apply store_byte_done in Hb as [_ ->].
    destruct (IH _ _ _ _ Hm) as (Hbl & Hnat & Hfr).
    repeat split; [by rewrite Hbl|by rewrite Hnat|].
    intros x Hx. rewrite Hfr by lia. cbn. apply lookup_insert_ne. lia.
Qed.

(** What a successful redirected allocation leaves behind: the block
    starts one word below the pointer handed out, and that word holds the
    total size, header included. *)
Lemma redirect_RtlAllocateHeap_header (H : host) (flags n p : Z)
    (s s' : heap_state) :
  let w := sizeof_size_t (X64 H) in
  redirect_RtlAllocateHeap H (ProcessHeap H) flags n s = Done p s' →
  p ≠ 0 →
  heap_place H (blocks s) (wrap (X64 H) (n + w)) = p - w ∧
  load_size_t H (p - w) s' = Done (wrap (X64 H) (n + w)) s'.
Proof.
  intros w Hal Hp. unfold redirect_RtlAllocateHeap in Hal.
  rewrite Z.eqb_refl in Hal.
  cbv beta zeta delta [bind global_heap_alloc] in Hal. fold w in Hal.
  set (sz := wrap (X64 H) (n + w)) in *.
  set (a := heap_place H (blocks s) sz) in *.
  destruct (a =? 0) eqn:Ha; cbv beta iota in Hal.
  { rewrite Z.eqb_refl in Hal. unfold ret in Hal. congruence. }
  rewrite Ha in Hal.
  match type of Hal with
  | context [store_size_t H a sz ?s1] =>
      destruct (store_size_t H a sz s1) as [[] s2| |] eqn:Hst; try discriminate
  end.
  unfold store_size_t in Hst.
  apply store_le_spec in Hst as (Hld & _ & _ & _);
    [|rewrite word_range; apply wrap_range].
  destruct (TEST HEAP_ZERO_MEMORY flags).
  - match type of Hal with
    | context [memset ?d ?c ?k s2] =>
        destruct (memset d c k s2) as [[] s3| |] eqn:Hms; try discriminate
    end.
    unfold ret in Hal. injection Hal as <- <-.
    replace (a + w - w) with a by lia. split; [done|].
    apply memset_frame in Hms as (_ & _ & Hfr).
    unfold load_size_t. eapply load_le_ext; [|exact Hld].
    intros i Hi. apply Hfr.
    assert (Z.of_nat (Z.to_nat (sizeof_size_t (X64 H))) = w) as Hw
      by (subst w; destruct (X64 H); reflexivity).
    lia.
  - unfold ret in Hal. injection Hal as <- <-.
    replace (a + w - w) with a by lia. done.
Qed.

(** On a pointer that came from the redirected allocator,
    [redirect_RtlSizeHeap] returns the header word: the requested size plus
    the size of the header. *)
Lemma redirect_RtlSizeHeap_after_alloc (H : host) (flags flags' n p : Z)
    (s s' : heap_state) :
  let w := sizeof_size_t (X64 H) in
  redirect_RtlAllocateHeap H (ProcessHeap H) flags n s = Done p s' →
  w ≤ p < 2 ^ (8 * w) →
  is_dynamo_address H p = true →
  redirect_RtlSizeHeap H (ProcessHeap H) flags' p s'
  = Done (wrap (X64 H) (n + w)) s'.
Proof.
  intros w Hal Hp Hdyn.
  assert (0 < w) as Hw by (subst w; destruct (X64 H); reflexivity).
  destruct (redirect_RtlAllocateHeap_header _ _ _ _ _ _ Hal ltac:(lia))
    as [_ Hld].
  unfold redirect_RtlSizeHeap. rewrite Z.eqb_refl, Hdyn. cbn [andb].
  destruct (p =? 0) eqn:E; [lia|]. cbn [negb]. fold w.
  rewrite wrap_small by (fold w; lia). exact Hld.
Qed.

Lemma redirect_RtlFreeHeap_after_alloc (H : host) (flags flags' n p : Z)
    (s s' : heap_state) :
  let w := sizeof_size_t (X64 H) in
  redirect_RtlAllocateHeap H (ProcessHeap H) flags n s = Done p s' →
  w ≤ p < 2 ^ (8 * w) →
  is_dynamo_address H p = true →
  redirect_RtlFreeHeap H (ProcessHeap H) flags' p s'
  = Done true (set_blocks (delete (p - w)) s').
Proof.
  intros w Hal Hp Hdyn.
  assert (0 < w) as Hw by (subst w; destruct (X64 H); reflexivity).
  destruct (redirect_RtlAllocateHeap_header _ _ _ _ _ _ Hal ltac:(lia))
    as [_ Hld].
  unfold redirect_RtlFreeHeap. rewrite Z.eqb_refl, Hdyn. cbn [andb].
  destruct (p =? 0) eqn:E; [lia|]. cbn [negb]. fold w.
  rewrite wrap_small by (fold w; lia).
  change (load_size_t H (p - w) s' = Done (wrap (X64 H) (n + w)) s') in Hld.
  unfold bind. rewrite Hld. reflexivity.
Qed.

(** A NULL pointer is not a host address, so free and size never reach
    their own NULL branch: the call goes to the real ntdll. *)
Lemma redirect_RtlFreeHeap_null (H : host) (heap flags : Z) (s : heap_state) :
  is_dynamo_address H 0 = false →
  redirect_RtlFreeHeap H heap flags 0 s
  = Done (negb (ntdll H (NtFreeHeap heap flags 0) =? 0))
         {| bytes := bytes s; blocks := blocks s;
            native := native s ++ [NtFreeHeap heap flags 0] |}.
Proof.
  intros Hdyn. unfold redirect_RtlFreeHeap. rewrite Hdyn, andb_false_r.
  reflexivity.
Qed.

Lemma redirect_RtlSizeHeap_null (H : host) (heap flags : Z) (s : heap_state) :
  is_dynamo_address H 0 = false →
  redirect_RtlSizeHeap H heap flags 0 s
  = Done (ntdll H (NtSizeHeap heap flags 0))
         {| bytes := bytes s; blocks := blocks s;
            native := native s ++ [NtSizeHeap heap flags 0] |}.
Proof.
  intros Hdyn. unfold redirect_RtlSizeHeap. rewrite Hdyn, andb_false_r.
  reflexivity.
Qed.

(** Reallocation of NULL allocates and then reads the header of the old
    block one word below address 0, that is at the top of the address
    space. *)
Lemma redirect_RtlReAllocateHeap_null (H : host) (flags n p : Z)
    (s s' : heap_state) :
  let w := sizeof_size_t (X64 H) in
  redirect_RtlAllocateHeap H (ProcessHeap H) flags n s = Done p s' →
  p ≠ 0 →
  bytes s' !! (2 ^ (8 * w) - w) = None →
  redirect_RtlReAllocateHeap H (ProcessHeap H) flags 0 n s = Crash.
Proof.
  intros w Hal Hp Htop. unfold redirect_RtlReAllocateHeap.
  rewrite Z.eqb_refl, orb_true_r. cbn [andb]. unfold bind at 1.
  rewrite Hal. apply Z.eqb_neq in Hp. rewrite Hp. cbn [negb].
  unfold bind at 1. unfold bind at 1. fold w.
  assert (wrap (X64 H) (0 - w) = 2 ^ (8 * w) - w) as ->.
  { subst w. unfold wrap. destruct (X64 H); reflexivity. }
  assert (load_size_t H (2 ^ (8 * w) - w) s' = Crash) as ->; [|done].
  assert (∃ k, Z.to_nat (sizeof_size_t (X64 H)) = S k) as [k Hk]
    by (destruct (X64 H); eexists; reflexivity).
  unfold load_size_t. rewrite Hk. cbn [load_le].
  unfold bind, load_byte. by rewrite Htop.
Qed.

End HeapFacts.

(** ** Committed memory, block writes and copies *)

Section HeapMemory.
Import Heap.

Lemma commit_list_lookup (l : list Z) (m : gmap Z Z) (x : Z) :
  foldr (λ y acc, <[y := default 0 (m !! y)]> acc) m l !! x
  = if decide (x ∈ l) then Some (default 0 (m !! x)) else m !! x.
Proof.
  induction l as [|y l IH]; cbn [foldr].
  - rewrite decide_False; [done|]. apply not_elem_of_nil.
  - destruct (decide (y = x)) as [->|Hne].
    + rewrite lookup_insert_eq. rewrite decide_True; [done|]. left.
    + rewrite lookup_insert_ne by done. rewrite IH.
      destruct (decide (x ∈ l)) as [Hin|Hin].
      * rewrite decide_True; [done|]. by right.
      * rewrite decide_False; [done|].
        intros [?|?]%elem_of_cons; [congruence|done].
Qed.

(** [commit] makes the range readable and keeps every byte that was. *)
Lemma commit_lookup (a n : Z) (m : gmap Z Z) (x : Z) :
  commit a n m !! x
  = if decide (a ≤ x < a + n) then Some (default 0 (m !! x)) else m !! x.
Proof.
  unfold commit. rewrite commit_list_lookup.
  destruct (decide (x ∈ seqZ a n)) as [Hin|Hin];
    rewrite elem_of_seqZ in Hin.
  - by rewrite decide_True.
  - by rewrite decide_False.
Qed.

Lemma store_byte_committed (a b : Z) (s : heap_state) :
  is_Some (bytes s !! a) →
  store_byte a b s = Done tt (set_bytes (<[a := b]>) s).
Proof. intros [v Hv]. unfold store_byte. by rewrite Hv. Qed.

Lemma store_le_committed (n : nat) :
  ∀ a v s,
    (∀ i, 0 ≤ i < Z.of_nat n → is_Some (bytes s !! (a + i))) →
    ∃ s', store_le n a v s = Done tt s' ∧
          ∀ x, is_Some (bytes s !! x) → is_Some (bytes s' !! x).
Proof.
  induction n as [|n IH]; intros a v s Hc.
  - exists s. split; [done|auto].
  - cbn [store_le]. unfold bind.
    rewrite store_byte_committed
      by (specialize (Hc 0 ltac:(lia)); by rewrite Z.add_0_r in Hc).
    assert (∀ x, is_Some (bytes s !! x) →
                 is_Some (bytes (set_bytes (<[a := v mod 256]>) s) !! x))
      as Hkeep.
    { intros x Hx. cbn. destruct (decide (a = x)) as [->|Hne].
      - rewrite lookup_insert_eq. eauto.
      - by rewrite lookup_insert_ne. }
    destruct (IH (a + 1) (v / 256) (set_bytes (<[a := v mod 256]>) s))
      as (s' & Hst & Hdom).
    { intros i Hi. apply Hkeep.
      replace (a + 1 + i) with (a + (1 + i)) by lia. apply Hc. lia. }
    exists s'. split; [done|]. intros x Hx. by apply Hdom, Hkeep.
Qed.

Lemma memset_committed (n : nat) :
  ∀ d c s,
    (∀ i, 0 ≤ i < Z.of_nat n → is_Some (bytes s !! (d + i))) →
    ∃ s', memset d c n s = Done tt s' ∧
          blocks s' = blocks s ∧ native s' = native s ∧
          (∀ i, 0 ≤ i < Z.of_nat n → bytes s' !! (d + i) = Some c) ∧
          (∀ x, x < d ∨ d + Z.of_nat n ≤ x → bytes s' !! x = bytes s !! x).
Proof.
  induction n as [|n IH]; intros d c s Hc.
  - exists s. split_and!; try done. intros i Hi. lia.
  - cbn [memset]. unfold bind.
    rewrite store_byte_committed
      by (specialize (Hc 0 ltac:(lia)); by rewrite Z.add_0_r in Hc).
    destruct (IH (d + 1) c (set_bytes (<[d := c]>) s))
      as (s' & Hms & Hbl & Hnat & Hin & Hout).
    { intros i Hi. cbn. rewrite lookup_insert_ne by lia.
      replace (d + 1 + i) with (d + (1 + i)) by lia. apply Hc. lia. }
    exists s'. split; [done|]. split; [by rewrite Hbl|].
    split; [by rewrite Hnat|]. split.
    + intros i Hi. destruct (decide (i = 0)) as [->|Hne].
      * rewrite Z.add_0_r, Hout by lia. cbn. apply lookup_insert_eq.
      * replace (d + i) with (d + 1 + (i - 1)) by lia. apply Hin. lia.
    + intros x Hx. rewrite Hout by lia. cbn. apply lookup_insert_ne. lia.
Qed.

(** [memcpy] between two committed ranges that do not overlap. *)
Lemma memcpy_disjoint (n : nat) :
  ∀ dst src s,
    (∀ i, 0 ≤ i < Z.of_nat n → is_Some (bytes s !! (src + i))) →
    (∀ i, 0 ≤ i < Z.of_nat n → is_Some (bytes s !! (dst + i))) →
    dst + Z.of_nat n ≤ src ∨ src + Z.of_nat n ≤ dst →
    ∃ s', memcpy dst src n s = Done tt s' ∧
          blocks s' = blocks s ∧ native s' = native s ∧
          (∀ i, 0 ≤ i < Z.of_nat n →
                bytes s' !! (dst + i) = bytes s !! (src + i)) ∧
          (∀ x, x < dst ∨ dst + Z.of_nat n ≤ x →
                bytes s' !! x = bytes s !! x).
Proof.
  induction n as [|n IH]; intros dst src s Hsrc Hdst Hdis.
  - exists s. split_and!; try done. intros i Hi. lia.
  - cbn [memcpy]. unfold bind, load_byte.
    destruct (Hsrc 0 ltac:(lia)) as [b Hb]. rewrite Z.add_0_r in Hb.
    rewrite Hb.
    rewrite store_byte_committed
      by (specialize (Hdst 0 ltac:(lia)); by rewrite Z.add_0_r in Hdst).
    destruct (IH (dst + 1) (src + 1) (set_bytes (<[dst := b]>) s))
      as (s' & Hcp & Hbl & Hnat & Hin & Hout).
    { intros i Hi. cbn. rewrite lookup_insert_ne by lia.
      replace (src + 1 + i) with (src + (1 + i)) by lia. apply Hsrc. lia. }
    { intros i Hi. cbn. rewrite lookup_insert_ne by lia.
      replace (dst + 1 + i) with (dst + (1 + i)) by lia. apply Hdst. lia. }
    { lia. }
    exists s'. split; [done|]. split; [by rewrite Hbl|].
    split; [by rewrite Hnat|]. split.
    + intros i Hi. destruct (decide (i = 0)) as [->|Hne].
      * rewrite !Z.add_0_r, Hout by lia. cbn. by rewrite lookup_insert_eq.
      * replace (dst + i) with (dst + 1 + (i - 1)) by lia.
        rewrite Hin by lia. cbn. rewrite lookup_insert_ne by lia.
        f_equal. lia.
    + intros x Hx. rewrite Hout by lia. cbn. apply lookup_insert_ne. lia.
Qed.

Lemma sizeof_size_t_nat (x64 : bool) :
  Z.of_nat (Z.to_nat (sizeof_size_t x64)) = sizeof_size_t x64.
Proof. by destruct x64. Qed.

Lemma sizeof_size_t_pos (x64 : bool) : 0 < sizeof_size_t x64.
Proof. by destruct x64. Qed.

(** The redirected allocation, when the host heap has room: where the
    block is, what it holds, and what is left alone. *)
Lemma redirect_RtlAllocateHeap_done (H : host) (flags n : Z) (s : heap_state) :
  let w := sizeof_size_t (X64 H) in
  let mem := heap_place H (blocks s) (n + w) in
  0 ≤ n → n + w < 2 ^ (8 * w) → mem ≠ 0 →
  ∃ s', redirect_RtlAllocateHeap H (ProcessHeap H) flags n s
        = Done (mem + w) s' ∧
        blocks s' = <[mem := n + w]> (blocks s) ∧
        native s' = native s ∧
        load_size_t H mem s' = Done (n + w) s' ∧
        (∀ x, x < mem ∨ mem + (n + w) ≤ x → bytes s' !! x = bytes s !! x) ∧
        (∀ i, 0 ≤ i < n →
           bytes s' !! (mem + w + i)
           = Some (if TEST HEAP_ZERO_MEMORY flags then 0
                   else default 0 (bytes s !! (mem + w + i)))).
Proof.
  intros w mem Hn Hsz Hmem.
  pose proof (sizeof_size_t_pos (X64 H)) as Hw. fold w in Hw.
  assert (Z.of_nat (Z.to_nat w) = w) as Hwn by lia.
  unfold redirect_RtlAllocateHeap. rewrite Z.eqb_refl. fold w.
  rewrite wrap_small by (fold w; lia).
  unfold bind at 1. unfold global_heap_alloc. fold mem.
  apply Z.eqb_neq in Hmem as Hmem'. rewrite Hmem'. cbv beta iota.
  rewrite Hmem'.
  set (s1 := set_blocks (<[mem := n + w]>) (set_bytes (commit mem (n + w)) s)).
  assert (∀ x, bytes s1 !! x
               = if decide (mem ≤ x < mem + (n + w))
                 then Some (default 0 (bytes s !! x)) else bytes s !! x)
    as Hb1 by (intros x; apply commit_lookup).
  destruct (store_le_committed (Z.to_nat w) mem (n + w) s1) as (s2 & Hst & Hdom).
  { intros i Hi. rewrite Hb1, decide_True by lia. eauto. }
  pose proof Hst as Hst'.
  apply store_le_spec in Hst' as (Hld & Hbl2 & Hnat2 & Hfr2);
    [|subst w; rewrite word_range; lia].
  rewrite Hwn in Hfr2.
  unfold bind at 1. unfold store_size_t. fold w. rewrite Hst.
  replace (wrap (X64 H) (n + w - w)) with n
    by (rewrite wrap_small; [lia|fold w; lia]).
  destruct (TEST HEAP_ZERO_MEMORY flags).
  - destruct (memset_committed (Z.to_nat n) (mem + w) 0 s2)
      as (s3 & Hms & Hbl3 & Hnat3 & Hin3 & Hout3).
    { intros i Hi. apply Hdom. rewrite Hb1, decide_True by lia. eauto. }
    rewrite Z2Nat.id in Hin3, Hout3 by lia.
    exists s3. unfold bind. rewrite Hms. split; [done|].
    split; [by rewrite Hbl3, Hbl2|]. split; [by rewrite Hnat3, Hnat2|].
    split; [|split].
    + unfold load_size_t. fold w. eapply load_le_ext; [|exact Hld].
      intros i Hi. apply Hout3. lia.
    + intros x Hx. rewrite Hout3, Hfr2, Hb1 by lia.
      by rewrite decide_False by lia.
    + intros i Hi. by apply Hin3.
  - exists s2. unfold bind, ret. split; [done|].
    split; [by rewrite Hbl2|]. split; [by rewrite Hnat2|].
    split; [done|split].
    + intros x Hx. rewrite Hfr2, Hb1 by lia. by rewrite decide_False by lia.
    + intros i Hi. rewrite Hfr2, Hb1 by lia. by rewrite decide_True by lia.
Qed.

End HeapMemory.

(** * Facts about the loader *)

Section LoaderFacts.
Import Loader.

(** ** Entry dispatch *)

Lemma privload_call_entry_absent (m : privmod_t) (reason : Z) (s : state) :
  entry_absent s m → privload_call_entry m reason s = Done true s.
Proof.
  intros [H0|Hb]; unfold privload_call_entry.
  - rewrite H0. reflexivity.
  - rewrite Hb, Z.eqb_refl, andb_false_r. reflexivity.
Qed.

Lemma privload_load_finalize_no_entry (W : world)
    (load_rec : string → option privmod_ptr → M (option privmod_ptr))
    (unload : privmod_ptr → M bool) (budget : nat)
    (a : nat) (m m1 : privmod_t) (s s1 : state) :
  deref (HeapNode a) s = Done m s →
  privload_process_imports W load_rec budget (HeapNode a)
    (if externally_loaded m then s
     else set_areas (λ v, v ++ [(base m, base m + size m, a)]) s)
  = Done true s1 →
  deref (HeapNode a) s1 = Done m1 s1 →
  entry_absent s1 m1 →
  privload_load_finalize W load_rec unload budget (HeapNode a) s
  = Done true s1.
Proof.
  intros Hd Himp Hd1 Habs. unfold privload_load_finalize.
  unfold bind at 1. rewrite Hd. unfold bind at 1.
  destruct (externally_loaded m); cbn [negb].
  - unfold ret at 1. unfold bind at 1. rewrite Himp. cbn [negb].
    unfold bind at 1. rewrite Hd1. unfold bind at 1.
    rewrite privload_call_entry_absent by done. reflexivity.
  - unfold vmvector_add, modify. unfold bind at 1. rewrite Himp. cbn [negb].
    unfold bind at 1. rewrite Hd1. unfold bind at 1.
    rewrite privload_call_entry_absent by done. reflexivity.
Qed.

(** ** Import by ordinal *)

Lemma privload_process_one_import_ordinal (W : world)
    (load_rec : string → option privmod_ptr → M (option privmod_ptr))
    (budget : nat) (privmod impmod : privmod_ptr) (lookup address : Z)
    (s : state) :
  TEST (IMAGE_ORDINAL_FLAG W) lookup = true →
  privload_process_one_import W load_rec budget privmod impmod lookup address s
  = Done true s.
Proof.
  intros Hord. unfold privload_process_one_import. by rewrite Hord.
Qed.

(** ** Loading a library that is already registered *)

Lemma load_private_library_resident (W : world) (fuel : nat)
    (filename : string) (p : privmod_ptr) (m : privmod_t) (s : state) :
  privload_lookup filename s = Some p →
  deref p s = Done m s →
  load_private_library W fuel filename s = Done (base m) s.
Proof.
  intros Hl Hd. unfold load_private_library, bind, gets.
  rewrite Hl. unfold ret at 1. by rewrite Hd.
Qed.


(** ** Reasoning about state changes *)

Section Respects.
Variable P : state → state → Prop.
Hypothesis P_refl : ∀ s, P s s.
Hypothesis P_trans : ∀ s1 s2 s3, P s1 s2 → P s2 s3 → P s1 s3.

Lemma respects_ret {A} (a : A) : respects P (ret a).
Proof. intros s b s' [= _ <-]. apply P_refl. Qed.

Lemma respects_gets {A} (f : state → A) : respects P (gets f).
Proof. intros s b s' [= _ <-]. apply P_refl. Qed.

Lemma respects_crash {A} : respects P (@crash state A).
Proof. intros s b s' [=]. Qed.

Lemma respects_out_of_fuel {A} : respects P (@out_of_fuel state A).
Proof. intros s b s' [=]. Qed.

Lemma respects_modify (f : state → state) :
  (∀ s, P s (f s)) → respects P (modify f).
Proof. intros Hf s b s' [= _ <-]. apply Hf. Qed.

Lemma respects_bind {A B} (m : M A) (k : A → M B) :
  respects P m → (∀ a, respects P (k a)) → respects P (bind m k).
Proof.
  intros Hm Hk s b s' Hrun. unfold bind in Hrun.
  destruct (m s) as [a s1| |] eqn:E; try discriminate.
  eapply P_trans; [eapply Hm, E|eapply Hk, Hrun].
Qed.

Lemma respects_deref (p : privmod_ptr) : respects P (deref p).
Proof.
  intros s m s' Hd. unfold deref in Hd.
  destruct p; [destruct (node_record _ _)|destruct (_ !! _)];
    try discriminate; injection Hd as _ <-; apply P_refl.
Qed.

Lemma respects_image_at (b : Z) : respects P (image_at b).
Proof.
  intros s m s' Hd. unfold image_at in Hd.
  destruct (_ !! _); try discriminate. injection Hd as _ <-. apply P_refl.
Qed.

Lemma respects_get_import_descriptor (m : privmod_t) :
  respects P (privload_get_import_descriptor m).
Proof.
  unfold privload_get_import_descriptor.
  apply respects_bind; [apply respects_image_at|]. intros img.
  destruct (import_dir img) as [va sz].
  destruct (sz <=? 0); [apply respects_ret|].
  destruct (negb _); apply respects_ret.
Qed.

End Respects.

Lemma respects_call_entry (P : state → state → Prop) (m : privmod_t)
    (reason : Z) :
  registry_only P → respects P (privload_call_entry m reason).
Proof.
  intros HP s r s' Hrun. unfold privload_call_entry in Hrun.
  destruct (_ && _).
  - destruct (_ !! _); try discriminate. injection Hrun as _ <-. by apply HP.
  - injection Hrun as _ <-. by apply HP.
Qed.

Lemma respects_vmvector_remove (P : state → state → Prop) (lo hi : Z) :
  registry_only P → respects P (vmvector_remove lo hi).
Proof. intros HP s r s' [= _ <-]. by apply HP. Qed.


Lemma respects_unmap_file (P : state → state → Prop) (b sz : Z) :
  registry_only P → respects P (unmap_file b sz).
Proof. intros HP s r s' [= _ <-]. by apply HP. Qed.


Lemma respects_store_ptr (P : state → state → Prop) (address dst : Z) :
  registry_only P → respects P (store_ptr address dst).
Proof.
  intros HP s r s' Hrun. unfold store_ptr in Hrun.
  destruct (_ !! _) as [p|]; [|discriminate].
  destruct (writable p); [|discriminate]. inversion Hrun; subst. by apply HP.
Qed.


(** *** What the resolution of one import respects

    Resolving an import writes the forwarder buffer and one cell of the
    address table, and may load libraries. *)

Section Resolution.
Variable P : state → state → Prop.
Hypothesis P_refl : ∀ s, P s s.
Hypothesis P_trans : ∀ s1 s2 s3, P s1 s2 → P s2 s3 → P s1 s3.
Hypothesis P_forwmodpath : ∀ b s, P s (set_forwmodpath b s).
Hypothesis P_cells : ∀ f s, P s (set_cells f s).
Variable W : world.
Variable load_rec : string → option privmod_ptr → M (option privmod_ptr).
Variable budget : nat.
(* the dependents for which libraries may be loaded *)
Variable okd : option privmod_ptr → Prop.
Hypothesis load_rec_respects :
  ∀ f d, okd (Some d) → respects P (load_rec f (Some d)).

Lemma try_path_respects (path : string) (dependent : privmod_ptr)
    (otherwise : M (option privmod_ptr)) :
  okd (Some dependent) →
  respects P otherwise →
  respects P (try_path W load_rec path dependent otherwise).
Proof.
  intros Hok Hother. unfold try_path.
  destruct (os_file_exists W path); [|done].
  apply respects_bind; [done|by apply load_rec_respects|].
  intros [q|]; [by apply respects_ret|done].
Qed.

Lemma locate_and_load_respects (impname : state → string)
    (dependent : privmod_ptr) :
  okd (Some dependent) →
  respects P (privload_locate_and_load W load_rec impname dependent).
Proof.
  intros Hok. unfold privload_locate_and_load.
  apply respects_bind; [done|by apply respects_gets|]. intros dirs.
  induction dirs as [|d dirs IH]; cbn [locate_client_dirs].
  - unfold locate_system.
    apply respects_bind; [done|by apply respects_gets|]. intros root.
    destruct (decide _); [by apply respects_ret|].
    apply respects_bind; [done|by apply respects_gets|]. intros nm.
    apply try_path_respects; [done|].
    apply respects_bind; [done|by apply respects_gets|]. intros nm'.
    apply try_path_respects; [done|]. by apply respects_ret.
  - apply respects_bind; [done|by apply respects_gets|]. intros nm.
    by apply try_path_respects.
Qed.

Lemma forwarder_loop_respects (fuel : nat) :
  ∀ privmod func forwarder forwmod forwfunc,
    okd (Some privmod) →
    respects P (forwarder_loop W load_rec fuel privmod func forwarder
                  forwmod forwfunc).
Proof.
  induction fuel as [|n IH];
    intros privmod func forwarder forwmod forwfunc Hok;
    cbn [forwarder_loop].
  - destruct (negb _); [by apply respects_ret|by apply respects_out_of_fuel].
  - destruct (negb _); [by apply respects_ret|].
    destruct forwarder as [fw|]; [|by apply respects_ret].
    destruct (strchr fw ".") as [dot|]; [|by apply respects_ret].
    destruct (_ <=? _)%nat; [by apply respects_ret|].
    apply respects_bind; [done| |].
    { apply respects_modify. intros s. apply P_forwmodpath. }
    intros _. apply respects_bind; [done|by apply respects_gets|].
    intros found. apply respects_bind; [done| |].
    { destruct found; [by apply respects_ret|].
      by apply locate_and_load_respects. }
    intros [fm|]; [|by apply respects_ret].
    apply respects_bind; [done|by apply respects_deref|]. intros fmr.
    apply respects_bind; [done|by apply respects_gets|].
    intros [func' forwarder']. by apply IH.
Qed.

Lemma resolution_respects (privmod impmod : privmod_ptr)
    (lookup address : Z) :
  okd (Some privmod) →
  respects P (privload_process_one_import W load_rec budget privmod impmod
                lookup address).
Proof.
  intros Hok. unfold privload_process_one_import.
  destruct (TEST _ _); [by apply respects_ret|].
  apply respects_bind; [done|by apply respects_deref|]. intros m.
  apply respects_bind; [done|by apply respects_image_at|]. intros img.
  apply respects_bind; [done|by apply respects_deref|]. intros im.
  apply respects_bind; [done|by apply respects_gets|].
  intros [func forwarder].
  apply respects_bind; [done|by apply forwarder_loop_respects|].
  intros [[[func' forwmod] forwfunc]|]; [|by apply respects_ret].
  apply respects_bind; [done|by apply respects_deref|]. intros fm.
  apply respects_bind; [done| |].
  { intros s r s' Hrun. unfold store_ptr in Hrun.
    destruct (_ !! _) as [p|]; [|discriminate].
    destruct (writable p); [|discriminate]. inversion Hrun; subst.
    apply P_cells. }
  intros _. by apply respects_ret.
Qed.

End Resolution.

(** *** What the whole of unloading and of loading respects

    A relation that is reflexive, transitive, blind to everything but the
    registry, and respected by the three ways the registry is written
    (a count is updated, a record is unlinked, a record is linked in) is
    respected by [privload_unload] and by [privload_load]. *)

(** [unlink_node] takes the record out of the chain, alone or with the
    records in front of it, and rewrites one [prev] field; nothing else
    changes. *)
Lemma modlist_unlink_node (a : nat) (s : state) :
  modlist (unlink_node a s)
  = match node_prev s !! a with
    | None => behind a (modlist s)
    | Some _ => unlink a (modlist s)
    end.
Proof.
  unfold unlink_node.
  destruct (node_prev s !! a), (head (behind a (modlist s))); reflexivity.
Qed.

Lemma unlink_node_frame (a : nat) (s : state) :
  next_node (unlink_node a s) = next_node s ∧
  privmod_static (unlink_node a s) = privmod_static s ∧
  privmod_static_idx (unlink_node a s) = privmod_static_idx s ∧
  search_paths (unlink_node a s) = search_paths s ∧
  systemroot (unlink_node a s) = systemroot s ∧
  forwmodpath (unlink_node a s) = forwmodpath s ∧
  modlist_areas (unlink_node a s) = modlist_areas s ∧
  dynamo_heap_initialized (unlink_node a s) = dynamo_heap_initialized s ∧
  views (unlink_node a s) = views s ∧
  page_prot (unlink_node a s) = page_prot s ∧
  cells (unlink_node a s) = cells s ∧
  trace (unlink_node a s) = trace s.
Proof.
  unfold unlink_node.
  destruct (node_prev s !! a), (head (behind a (modlist s)));
    by repeat split.
Qed.

Lemma behind_sublist (a : nat) (l : list (nat * privmod_t)) :
  behind a l `sublist_of` l.
Proof.
  induction l as [|y l IH]; cbn; [done|].
  destruct (decide (y.1 = a)); by constructor.
Qed.

Lemma unlink_sublist (a : nat) (l : list (nat * privmod_t)) :
  unlink a l `sublist_of` l.
Proof.
  induction l as [|y l IH]; cbn; [done|].
  destruct (decide (y.1 = a)); by constructor.
Qed.

(** The registry after [unlink_node]: some of the records of before, in
    their order, and the first record at [a] not among them. *)
Lemma unlink_node_sublist (a : nat) (s : state) :
  modlist (unlink_node a s) `sublist_of` modlist s.
Proof.
  rewrite modlist_unlink_node.
  destruct (node_prev s !! a); [apply unlink_sublist|apply behind_sublist].
Qed.

Section Unloading.
Variable P : state → state → Prop.
Hypothesis P_refl : ∀ s, P s s.
Hypothesis P_trans : ∀ s1 s2 s3, P s1 s2 → P s2 s3 → P s1 s3.
Hypothesis P_registry_only : registry_only P.
Hypothesis P_update : ∀ a f s, P s (set_modlist (update_node a f) s).
Hypothesis P_unlink : ∀ a s, P s (unlink_node a s).

Lemma respects_unload_descriptors (unload_rec : privmod_ptr → M bool)
    (img : pe_image) (imports : list IMAGE_IMPORT_DESCRIPTOR) :
  (∀ p, respects P (unload_rec p)) →
  respects P (unload_descriptors unload_rec img imports).
Proof.
  intros Hrec.
  induction imports as [|d rest IH]; cbn [unload_descriptors].
  - by apply respects_ret.
  - destruct (_ =? 0); [by apply respects_ret|].
    apply respects_bind; [done|by apply respects_gets|]. intros impmod.
    apply respects_bind; [done| |done].
    destruct impmod; [apply Hrec|by apply respects_ret].
Qed.

Lemma respects_unload_imports (unload_rec : privmod_ptr → M bool)
    (m : privmod_t) :
  (∀ p, respects P (unload_rec p)) →
  respects P (privload_unload_imports unload_rec m).
Proof.
  intros Hrec. unfold privload_unload_imports.
  apply respects_bind; [done|by apply respects_get_import_descriptor|].
  intros [ok imports]. destruct (negb ok); [by apply respects_ret|].
  destruct imports as [descs|]; [|by apply respects_ret].
  apply respects_bind; [done|by apply respects_image_at|]. intros img.
  by apply respects_unload_descriptors.
Qed.

Lemma respects_unload (fuel : nat) (p : privmod_ptr) :
  respects P (privload_unload fuel p).
Proof.
  revert p. induction fuel as [|n IH]; intros p; cbn [privload_unload].
  { by apply respects_out_of_fuel. }
  unfold privload_unload_body. destruct p as [a|i]; [|by apply respects_crash].
  apply respects_bind; [done|by apply respects_deref|]. intros m.
  apply respects_bind; [done|by apply respects_modify|].
  intros _. destruct (_ =? 0); [|by apply respects_ret].
  apply respects_bind; [done|by apply respects_modify|].
  intros _. apply respects_bind; [done| |intros; by apply respects_ret].
  destruct (negb _); [|by apply respects_ret].
  apply respects_bind; [done|by apply respects_call_entry|]. intros _.
  apply respects_bind; [done|by apply respects_unload_imports|].
  intros _. apply respects_bind; [done|by apply respects_vmvector_remove|].
  intros _. by apply respects_unmap_file.
Qed.

(** Loading, for a relation that holds across the linking of a record
    behind the dependents [okd] admits: the library itself is loaded for
    such a dependent, and what is loaded for its imports is loaded for the
    records that have been linked in on the way. *)
Section Loading.
Variable okd : option privmod_ptr → Prop.
Hypothesis P_insert_bind :
  ∀ (after : option privmod_ptr) (b sz : Z) (nm : string)
    (k : option privmod_ptr → M (option privmod_ptr)),
    okd after →
    (∀ p, okd (Some p) → respects P (k (Some p))) →
    respects P (k None) →
    respects P (bind (privload_insert after b sz nm) k).
Variable W : world.
Variable load_rec : string → option privmod_ptr → M (option privmod_ptr).
Variable unload : privmod_ptr → M bool.
Variable budget : nat.
Hypothesis load_rec_respects :
  ∀ f d, okd (Some d) → respects P (load_rec f (Some d)).
Hypothesis unload_respects : ∀ p, respects P (unload p).








End Loading.




End Unloading.

(** *** Unloading only ever shrinks the registry *)

Lemma keeps_absent_refl s : keeps_absent s s.
Proof. by intros x. Qed.

Lemma keeps_absent_trans s1 s2 s3 :
  keeps_absent s1 s2 → keeps_absent s2 s3 → keeps_absent s1 s3.
Proof. intros H12 H23 x Hx. by apply H23, H12. Qed.

Lemma keeps_absent_registry_only : registry_only keeps_absent.
Proof. intros s s' Heq _ x. by rewrite Heq. Qed.

Lemma node_record_update_node x a f l :
  node_record x (update_node a f l) =
  if decide (x = a) then f <$> node_record x l else node_record x l.
Proof.
  induction l as [|[a' m] l IH]; cbn.
  - by destruct (decide _).
  - destruct (decide (a' = a)) as [->|Hne]; cbn.
    + destruct (decide (a = x)) as [->|Hx].
      * by rewrite decide_True.
      * by rewrite decide_False.
    + destruct (decide (a' = x)) as [->|Hx].
      * by rewrite decide_False.
      * exact IH.
Qed.

Lemma node_record_None a l : node_record a l = None ↔ a ∉ l.*1.
Proof.
  induction l as [|[a' m] l IH]; cbn.
  - split; [intros _; apply not_elem_of_nil|done].
  - destruct (decide (a' = a)) as [->|Hne].
    + split; [done|]. intros []. apply elem_of_cons. by left.
    + rewrite IH, not_elem_of_cons.
      split; [intros ?; split; [congruence|done]|by intros [_ ?]].
Qed.

Lemma update_node_keys a f l : (update_node a f l).*1 = l.*1.
Proof.
  induction l as [|[a' m] l IH]; cbn; [done|].
  destruct (decide (a' = a)); cbn; by rewrite ?IH.
Qed.

Lemma keeps_absent_update a f s :
  keeps_absent s (set_modlist (update_node a f) s).
Proof.
  intros x Hx. cbn. rewrite node_record_update_node, Hx.
  by destruct (decide _).
Qed.

Lemma node_record_sublist x (l l' : list (nat * privmod_t)) :
  l' `sublist_of` l → node_record x l = None → node_record x l' = None.
Proof.
  rewrite !node_record_None. intros Hsub Hx Hin. apply Hx.
  eapply elem_of_sublist; [exact Hin|]. by apply fmap_sublist.
Qed.

Lemma keeps_absent_unlink a s : keeps_absent s (unlink_node a s).
Proof.
  intros x Hx. eapply node_record_sublist; [|exact Hx].
  apply unlink_node_sublist.
Qed.

Lemma privload_unload_keeps_absent (fuel : nat) (p : privmod_ptr) :
  respects keeps_absent (privload_unload fuel p).
Proof.
  apply respects_unload.
  - apply keeps_absent_refl.
  - apply keeps_absent_trans.
  - apply keeps_absent_registry_only.
  - apply keeps_absent_update.
  - apply keeps_absent_unlink.
Qed.

Lemma bind_done {A B} (m : M A) (k : A → M B) (s s' : state) (b : B) :
  bind m k s = Done b s' → ∃ a s1, m s = Done a s1 ∧ k a s1 = Done b s'.
Proof.
  unfold bind. destruct (m s) as [a s1| |]; try discriminate. eauto.
Qed.

Lemma find_mod_Some (f : privmod_t → bool) (l : list (nat * privmod_t))
    (q : privmod_ptr) :
  find_mod f l = Some q →
  ∃ a m, q = HeapNode a ∧ (a, m) ∈ l ∧ f m = true.
Proof.
  induction l as [|[a m] l IH]; cbn; [done|].
  destruct (f m) eqn:E.
  - intros [= <-]. exists a, m. split; [done|]. split; [|done].
    apply elem_of_cons. by left.
  - intros (a' & m' & -> & Hin & Hf)%IH. exists a', m'.
    split; [done|]. split; [|done]. apply elem_of_cons. by right.
Qed.

Lemma node_record_elem (a : nat) (m : privmod_t) (l : list (nat * privmod_t)) :
  NoDup l.*1 → (a, m) ∈ l → node_record a l = Some m.
Proof.
  induction l as [|[a' m'] l IH]; cbn.
  - intros _ Hin. by apply elem_of_nil in Hin.
  - intros [Hnotin Hnd]%NoDup_cons [Heq|Hin]%elem_of_cons.
    + injection Heq as -> ->. by rewrite decide_True.
    + destruct (decide (a' = a)) as [->|Hne]; [|by apply IH].
      exfalso. apply Hnotin. apply list_elem_of_fmap. by exists (a, m).
Qed.

Lemma privload_unload_imports_keeps_absent (n : nat) (m : privmod_t) :
  respects keeps_absent (privload_unload_imports (privload_unload n) m).
Proof.
  apply respects_unload_imports.
  - apply keeps_absent_refl.
  - apply keeps_absent_trans.
  - intros p. apply privload_unload_keeps_absent.
Qed.


(** *** The order of the registry *)

Lemma sublist_filter_mono {A} (P : A → Prop) `{!∀ x, Decision (P x)}
    (l1 l2 : list A) :
  l1 `sublist_of` l2 → filter P l1 `sublist_of` filter P l2.
Proof.
  induction 1 as [|x l1 l2 _ IH|x l1 l2 _ IH]; [done| |].
  - rewrite !filter_cons. destruct (decide (P x)); [by constructor|done].
  - rewrite filter_cons. destruct (decide (P x)); [by constructor|done].
Qed.



























(** Right after [privload_insert], a record loaded for dependent [d] is the
    one behind [d], and a record loaded for nobody is the first. *)
Lemma privload_insert_position (b sz : Z) (nm : string) (s : state) :
  dynamo_heap_initialized s = true →
  next_node s ∉ nodes s →
  let a := next_node s in
  let new := {| base := b; size := sz; name := nm; ref_count := 1;
                externally_loaded := false |} in
  (∃ s', privload_insert None b sz nm s = Done (Some (HeapNode a)) s' ∧
         modlist s' = (a, new) :: modlist s) ∧
  (∀ d i, node_index d (modlist s) = Some i →
     ∃ s', privload_insert (Some (HeapNode d)) b sz nm s
           = Done (Some (HeapNode a)) s' ∧
           modlist s' = take (S i) (modlist s) ++ (a, new) :: drop (S i) (modlist s) ∧
           node_index d (modlist s') = Some i ∧
           node_index a (modlist s') = Some (S i)).
Proof.
  intros Hheap Hfresh a new. split.
  - unfold privload_insert. rewrite Hheap. eexists. split; reflexivity.
  - intros d i Hidx. unfold privload_insert. rewrite Hheap.
    fold a. fold new.
    assert (∀ l, a ∉ l.*1 → node_index d l = Some i →
              insert_after d (a, new) l
              = Some (take (S i) l ++ (a, new) :: drop (S i) l) ∧
              node_index d (take (S i) l ++ (a, new) :: drop (S i) l) = Some i ∧
              node_index a (take (S i) l ++ (a, new) :: drop (S i) l)
              = Some (S i)) as Hins.
    { clear. intros l. revert i.
      induction l as [|y l IH]; intros i Hfresh Hidx; [done|].
      apply not_elem_of_cons in Hfresh as [Hay Hfresh].
      cbn [node_index insert_after] in Hidx |- *.
      destruct (decide (y.1 = d)) as [Hy|Hy].
      - injection Hidx as <-. cbn [take drop app node_index].
        rewrite (decide_True _ _ Hy).
        rewrite (decide_False (P := y.1 = a)) by congruence.
        rewrite take_0, drop_0. cbn [app node_index fst].
        rewrite decide_True by done. done.
      - destruct (node_index d l) as [j|] eqn:Hj; [|done].
        injection Hidx as <-.
        destruct (IH j Hfresh eq_refl) as (-> & Hd & Ha).
        cbn [take drop app node_index fmap option_fmap option_map].
        rewrite (decide_False _ _ Hy).
        rewrite (decide_False (P := y.1 = a)) by congruence.
        by rewrite Hd, Ha. }
    destruct (Hins _ Hfresh Hidx) as (-> & Hd & Ha).
    eexists. split; [reflexivity|]. cbn. done.
Qed.


(** *** Page protection on the successful path of the binder *)

Lemma keeps_protection_refl s : keeps_protection s s.
Proof. by intros pg v. Qed.

Lemma keeps_protection_trans s1 s2 s3 :
  keeps_protection s1 s2 → keeps_protection s2 s3 → keeps_protection s1 s3.
Proof. intros H12 H23 pg v Hv. by apply H23, H12. Qed.

Lemma keeps_protection_but_step w s0 s1 s2 :
  keeps_protection_but w s0 s1 → keeps_protection s1 s2 →
  keeps_protection_but w s0 s2.
Proof. intros H01 H12 pg v Hv. by apply H12, H01. Qed.

Lemma protect_writable (page : Z) (s0 s s' : state) (r : option Z) :
  keeps_protection s0 s →
  protect_virtual_memory page PAGE_READWRITE s = Done r s' →
  match r with
  | Some orig =>
      keeps_protection_but page s0 s' ∧
      (∀ v, page_prot s0 !! page = Some v → orig = v)
  | None => s' = s
  end.
Proof.
  intros Hkeep Hrun. unfold protect_virtual_memory in Hrun.
  destruct (page_prot s !! page) as [old|] eqn:Hold;
    injection Hrun as <- <-; [|done].
  split.
  - intros pg v Hv. cbn. destruct (decide (pg = page)) as [->|Hne].
    + apply lookup_insert_eq.
    + rewrite lookup_insert_ne by done. by apply Hkeep.
  - intros v Hv. apply Hkeep in Hv. congruence.
Qed.

Lemma protect_restore (page orig : Z) (s0 s s' : state) (r : option Z) :
  keeps_protection_but page s0 s →
  (∀ v, page_prot s0 !! page = Some v → orig = v) →
  protect_virtual_memory page orig s = Done r s' →
  match r with
  | Some _ => keeps_protection s0 s'
  | None => s' = s
  end.
Proof.
  intros Hbut Horig Hrun. unfold protect_virtual_memory in Hrun.
  destruct (page_prot s !! page) as [old|] eqn:Hold;
    injection Hrun as <- <-; [|done].
  intros pg v Hv. cbn. destruct (decide (pg = page)) as [->|Hne].
  - rewrite lookup_insert_eq. f_equal. by apply Horig.
  - rewrite lookup_insert_ne by done. specialize (Hbut pg v Hv).
    by rewrite decide_False in Hbut.
Qed.

Section Protection.
Variable W : world.
Variable load_rec : string → option privmod_ptr → M (option privmod_ptr).
Variable budget : nat.
(* nested loads leave the protection of the pages mapped so far alone *)
Hypothesis load_rec_keeps : ∀ f d, respects keeps_protection (load_rec f d).

Lemma process_one_import_keeps_protection (privmod impmod : privmod_ptr)
    (lookup address : Z) :
  respects keeps_protection
    (privload_process_one_import W load_rec budget privmod impmod lookup
       address).
Proof.
  apply resolution_respects with (okd := λ _, True).
  - apply keeps_protection_refl.
  - apply keeps_protection_trans.
  - by intros b s pg v.
  - by intros f s pg v.
  - intros f d _. apply load_rec_keeps.
  - done.
Qed.

Lemma bind_thunks_protection (privmod impmod : privmod_ptr) (lookup : list Z) :
  ∀ address iat orig s0 s iat' orig' s',
    keeps_protection_but (PAGE_START iat) s0 s →
    (∀ v, page_prot s0 !! PAGE_START iat = Some v → orig = v) →
    bind_thunks W load_rec budget privmod impmod lookup address iat orig s
    = Done (Some (iat', orig')) s' →
    keeps_protection_but (PAGE_START iat') s0 s' ∧
    (∀ v, page_prot s0 !! PAGE_START iat' = Some v → orig' = v).
Proof.
  induction lookup as [|fn lookup IH];
    intros address iat orig s0 s iat' orig' s' Hbut Horig Hrun;
    cbn [bind_thunks] in Hrun.
  { by injection Hrun as <- <- <-. }
  destruct (fn =? 0); [by injection Hrun as <- <- <-|].
  apply bind_done in Hrun as (ok & s1 & Hone & Hrun).
  apply process_one_import_keeps_protection in Hone.
  pose proof (keeps_protection_but_step _ _ _ _ Hbut Hone) as Hbut1.
  destruct (negb ok); [discriminate|].
  destruct (negb _); [|exact (IH _ _ _ _ _ _ _ _ Hbut1 Horig Hrun)].
  apply bind_done in Hrun as (r & s2 & Hrestore & Hrun).
  apply (protect_restore _ _ s0) in Hrestore; [|done..].
  destruct r as [old|]; [|discriminate].
  apply bind_done in Hrun as (r & s3 & Hprot & Hrun).
  apply (protect_writable _ s0) in Hprot; [|done].
  destruct r as [orig2|]; [|discriminate].
  destruct Hprot as [Hbut3 Horig3].
  exact (IH _ _ _ _ _ _ _ _ Hbut3 Horig3 Hrun).
Qed.

Lemma bind_descriptors_protection (privmod : privmod_ptr) (img : pe_image)
    (imports : list IMAGE_IMPORT_DESCRIPTOR) :
  ∀ s0 s s',
    keeps_protection s0 s →
    bind_descriptors W load_rec budget privmod img imports s = Done true s' →
    keeps_protection s0 s'.
Proof.
  induction imports as [|d rest IH]; intros s0 s s' Hkeep Hrun;
    cbn [bind_descriptors] in Hrun.
  { by injection Hrun as <-. }
  destruct (_ =? 0); [by injection Hrun as <-|].
  apply bind_done in Hrun as (found & s1' & Hgets & Hrun).
  injection Hgets as _ <-.
  apply bind_done in Hrun as (impmod & s1 & Himp & Hrun).
  assert (keeps_protection s s1) as Hstep.
  { destruct found as [[a|i]|].
    - apply bind_done in Himp as ([] & s1' & [= <-] & [= _ <-]).
      by intros pg v.
    - injection Himp as _ <-. apply keeps_protection_refl.
    - eapply (locate_and_load_respects keeps_protection)
        with (okd := λ _, True); [..|exact Himp].
      + apply keeps_protection_refl.
      + apply keeps_protection_trans.
      + intros f q _. apply load_rec_keeps.
      + done. }
  pose proof (keeps_protection_trans _ _ _ Hkeep Hstep) as Hkeep1.
  destruct impmod as [impmod|]; [|discriminate].
  apply bind_done in Hrun as (m & s1'' & Hd & Hrun).
  apply (respects_deref (λ a b, a = b)) in Hd as <-; [|done].
  apply bind_done in Hrun as (r & s2 & Hprot & Hrun).
  apply (protect_writable _ s0) in Hprot; [|done].
  destruct r as [orig|]; [|discriminate]. destruct Hprot as [Hbut Horig].
  apply bind_done in Hrun as (r & s3 & Hthunks & Hrun).
  destruct r as [[iat' orig']|]; [|discriminate].
  destruct (bind_thunks_protection _ _ _ _ _ _ _ _ _ _ _ Hbut Horig Hthunks)
    as [Hbut3 Horig3].
  apply bind_done in Hrun as (r & s4 & Hrestore & Hrun).
  apply (protect_restore _ _ s0) in Hrestore; [|done..].
  destruct r as [old|]; [|discriminate].
  exact (IH _ _ _ Hrestore Hrun).
Qed.

(** When [privload_process_imports] succeeds, every page that was mapped
    when it started has the protection it had then. *)
Lemma privload_process_imports_restores (privmod : privmod_ptr)
    (s s' : state) :
  privload_process_imports W load_rec budget privmod s = Done true s' →
  keeps_protection s s'.
Proof.
  intros Hrun. unfold privload_process_imports in Hrun.
  apply bind_done in Hrun as (m & s1 & Hd & Hrun).
  apply (respects_deref (λ a b, a = b)) in Hd as <-; [|done].
  apply bind_done in Hrun as ([ok imports] & s1 & Hdesc & Hrun).
  apply (respects_get_import_descriptor (λ a b, a = b)) in Hdesc as <-;
    [|done|congruence].
  destruct (negb ok); [discriminate|].
  destruct imports as [descs|];
    [|injection Hrun as <-; apply keeps_protection_refl].
  apply bind_done in Hrun as (img & s1 & Himg & Hrun).
  apply (respects_image_at (λ a b, a = b)) in Himg as <-; [|done].
  eapply bind_descriptors_protection; [apply keeps_protection_refl|done].
Qed.

End Protection.


(** *** The file name built from a forwarder *)

Lemma poke_spec (cs : list ascii) :
  ∀ buf off, (off + length cs ≤ length buf)%nat →
    poke buf off cs = take off buf ++ cs ++ drop (off + length cs) buf.
Proof.
  induction cs as [|c cs IH]; intros buf off Hlen; cbn [poke length] in *.
  - rewrite Nat.add_0_r. cbn. by rewrite take_drop.
  - rewrite IH by (rewrite length_insert; lia).
    rewrite (take_S_r _ _ c) by (apply list_lookup_insert_eq; lia).
    rewrite take_insert_ge by lia. rewrite drop_insert_lt by lia.
    rewrite <- app_assoc. cbn. by rewrite Nat.add_succ_r.
Qed.

Lemma length_list_ascii_of_string (s : string) :
  length (list_ascii_of_string s) = String.length s.
Proof. induction s as [|c s IH]; cbn; [done|]. by rewrite IH. Qed.

Lemma take_list_ascii_of_string (n : nat) :
  ∀ s, take n (list_ascii_of_string s) = list_ascii_of_string (string_take n s).
Proof.
  induction n as [|n IH]; intros [|c s]; cbn; try done. by rewrite IH.
Qed.

Lemma strchr_length (s : string) (c : ascii) (d : nat) :
  strchr s c = Some d → (d < String.length s)%nat.
Proof.
  revert d. induction s as [|a s IH]; intros d; cbn; [done|].
  destruct (decide (a = c)).
  - intros [= <-]. lia.
  - destruct (strchr s c) as [d'|]; [|done]. cbn. intros [= <-].
    specialize (IH d' eq_refl). lia.
Qed.

Lemma cstring_app (s : string) (rest : list ascii) :
  NUL ∉ list_ascii_of_string s →
  cstring (list_ascii_of_string s ++ rest) = (s +:+ cstring rest)%string.
Proof.
  induction s as [|c s IH]; cbn; [done|]. intros Hnul.
  apply not_elem_of_cons in Hnul as [Hc Hnul].
  rewrite decide_False by congruence. by rewrite IH.
Qed.

(** The three stores of the forwarder loop leave "MODULE." and "dll" in
    the buffer, then the character that was at index [n + 3] before, and
    only then the terminator. *)
Lemma forwmodpath_after_stores (buf : list ascii) (fw : string) (dot : nat)
    (c0 : ascii) :
  let n := S dot in
  strchr fw "." = Some dot →
  NUL ∉ list_ascii_of_string (string_take n fw) →
  (n + 4 < length buf)%nat →
  buf !! (n + 3)%nat = Some c0 →
  cstring (<[(n + 4)%nat := NUL]> (snprintf (snprintf buf 0 n fw) n 3 "dll"))
  = (string_take n fw +:+ "dll" +:+
     if decide (c0 = NUL) then "" else String c0 "")%string.
Proof.
  intros n Hdot Hnul Hlen Hc0.
  pose proof (strchr_length _ _ _ Hdot) as Hd.
  set (cs := list_ascii_of_string fw).
  assert (length cs = String.length fw) as Hcs
    by apply length_list_ascii_of_string.
  assert (length (take n cs) = n) as Htake
    by (rewrite length_take; subst n; lia).
  assert (snprintf buf 0 n fw = take n cs ++ drop n buf) as ->.
  { unfold snprintf. fold cs.
    replace (length cs <? n)%nat with false
      by (symmetry; apply Nat.ltb_ge; subst n; lia).
    rewrite poke_spec by (rewrite Htake; lia).
    by rewrite Htake. }
  assert (snprintf (take n cs ++ drop n buf) n 3 "dll"
          = take n cs ++ list_ascii_of_string "dll" ++ drop (n + 3) buf) as ->.
  { unfold snprintf.
    change (length (list_ascii_of_string "dll") <? 3)%nat with false.
    cbv iota. change (take 3 (list_ascii_of_string "dll"))
      with (list_ascii_of_string "dll").
    rewrite poke_spec
      by (rewrite length_app, Htake, length_drop; cbn; lia).
    rewrite (take_app_length' _ _ n) by done.
    rewrite drop_app_ge by (rewrite Htake; cbn; lia).
    rewrite Htake, drop_drop. cbn [length list_ascii_of_string].
    by replace (n + (n + 3 - n))%nat with (n + 3)%nat by lia. }
  assert (drop (n + 3) buf = c0 :: drop (S (n + 3)) buf) as Hdrop
    by (by apply drop_S).
  destruct (drop (S (n + 3)) buf) as [|c1 rest] eqn:Hrest.
  { exfalso. apply (f_equal length) in Hrest. rewrite length_drop in Hrest.
    cbn in Hrest. lia. }
  rewrite Hdrop.
  replace (take n cs ++ list_ascii_of_string "dll" ++ c0 :: c1 :: rest)
    with ((take n cs ++ list_ascii_of_string "dll") ++ c0 :: c1 :: rest)
    by (by rewrite <- app_assoc).
  replace (n + 4)%nat
    with (length (take n cs ++ list_ascii_of_string "dll") + 1)%nat
    by (rewrite length_app, Htake; cbn; lia).
  rewrite insert_app_r. cbn [list_insert Nat.add].
  rewrite <- app_assoc. subst cs. rewrite take_list_ascii_of_string.
  rewrite cstring_app by done.
  rewrite (cstring_app "dll").
  2:{ cbn. intros Hin.
      repeat (apply elem_of_cons in Hin as [Hin|Hin]; [discriminate|]).
      by apply elem_of_nil in Hin. }
  change (<[1%nat:=NUL]> (c0 :: c1 :: rest)) with (c0 :: NUL :: rest).
  cbn [cstring].
  destruct (decide (c0 = NUL)); [done|]. by rewrite decide_True.
Qed.

End LoaderFacts.

(** * More facts about the loader *)

Section RegistryFacts.
Import Loader.

Lemma strcasecmp_0 (a b : string) :
  (strcasecmp a b =? 0) = bool_decide (lower a = lower b).
Proof.
  unfold strcasecmp. destruct (decide (lower a = lower b)).
  - by rewrite bool_decide_eq_true_2.
  - by rewrite bool_decide_eq_false_2.
Qed.

(** A search of the list returns the first record that satisfies the
    test. *)
Lemma find_mod_first (f : privmod_t → bool) (l : list (nat * privmod_t)) :
  match find_mod f l with
  | Some p =>
      ∃ a m l1 l2, p = HeapNode a ∧ l = l1 ++ (a, m) :: l2 ∧ f m = true ∧
                   ∀ x, x ∈ l1 → f x.2 = false
  | None => ∀ x, x ∈ l → f x.2 = false
  end.
Proof.
  induction l as [|[a m] l IH]; cbn [find_mod].
  - intros x Hx. by apply elem_of_nil in Hx.
  - destruct (f m) eqn:Hf.
    + exists a, m, [], l. split_and!; try done.
      intros x Hx. by apply elem_of_nil in Hx.
    + destruct (find_mod f l) as [p|].
      * destruct IH as (a' & m' & l1 & l2 & -> & -> & Hm & Hl1).
        exists a', m', ((a, m) :: l1), l2. split_and!; try done.
        intros x [->|Hx]%elem_of_cons; [done|by apply Hl1].
      * intros x [->|Hx]%elem_of_cons; [done|by apply IH].
Qed.



Lemma redirect_scan_nonzero (W : world) (nm : string)
    (tbl : list (string * redirect_fn)) :
  redirect_scan W nm tbl ≠ 0 →
  ∃ n f, (n, f) ∈ tbl ∧ lower nm = lower n.
Proof.
  induction tbl as [|[n f] tbl IH]; cbn [redirect_scan]; [done|].
  rewrite strcasecmp_0. destruct (bool_decide_reflect (lower nm = lower n)).
  - intros _. exists n, f. split; [left|done].
  - intros (n' & f' & Hin & Hn')%IH. exists n', f'. split; [by right|done].
Qed.

(** The names of a redirection table are told apart by a comparison that
    ignores letter case, so the scan stops at the entry that is meant. *)
Lemma redirect_scan_entry (W : world) (nm n : string) (f : redirect_fn)
    (tbl : list (string * redirect_fn)) :
  NoDup (lower <$> tbl.*1) →
  (n, f) ∈ tbl → lower nm = lower n →
  redirect_scan W nm tbl = redirect_addr W f.
Proof.
  induction tbl as [|[n' f'] tbl IH]; intros Hnd Hin Hnm.
  - by apply elem_of_nil in Hin.
  - cbn [redirect_scan]. rewrite strcasecmp_0.
    rewrite !fmap_cons in Hnd. cbn [fst] in Hnd.
    apply NoDup_cons in Hnd as [Hfirst Hnd].
    apply elem_of_cons in Hin as [[= <- <-]|Hin].
    + by rewrite bool_decide_eq_true_2.
    + rewrite bool_decide_eq_false_2; [by apply IH|].
      intros Heq. apply Hfirst. rewrite <- Heq, Hnm.
      apply list_elem_of_fmap. exists n. split; [done|].
      apply list_elem_of_fmap. by exists (n, f).
Qed.

End RegistryFacts.

Section SearchFacts.
Import Loader.
Variable W : world.
Variable load_rec : string → option privmod_ptr → M (option privmod_ptr).

Lemma try_path_missing (path : string) (dep : privmod_ptr)
    (otherwise : M (option privmod_ptr)) (s : state) :
  os_file_exists W path = false →
  try_path W load_rec path dep otherwise s = otherwise s.
Proof. intros Hex. unfold try_path. by rewrite Hex. Qed.

Lemma try_path_loaded (path : string) (dep p : privmod_ptr)
    (otherwise : M (option privmod_ptr)) (s s' : state) :
  os_file_exists W path = true →
  load_rec path (Some dep) s = Done (Some p) s' →
  try_path W load_rec path dep otherwise s = Done (Some p) s'.
Proof. intros Hex Hld. unfold try_path, bind. by rewrite Hex, Hld. Qed.

Lemma locate_system_eq (nm : string) (dep : privmod_ptr) (s : state) :
  locate_system W load_rec (λ _, nm) dep s
  = if decide (systemroot s = ""%string) then Done None s
    else try_path W load_rec
           (path_buffer (systemroot s +:+ "/system32/" +:+ nm)) dep
           (try_path W load_rec
              (path_buffer (systemroot s +:+ "/" +:+ nm)) dep (ret None)) s.
Proof.
  unfold locate_system, bind, gets.
  destruct (decide (systemroot s = ""%string)); [done|].
  unfold try_path. destruct (os_file_exists W _); [|done].
  unfold bind.
  destruct (load_rec (path_buffer (systemroot s +:+ "/system32/" +:+ nm))
              (Some dep) s) as [[q|] s1| |]; done.
Qed.

Lemma locate_client_dirs_cons (d : string) (dirs : list string) (nm : string)
    (dep : privmod_ptr) (s : state) :
  locate_client_dirs W load_rec (d :: dirs) (λ _, nm) dep s
  = try_path W load_rec (path_buffer (d +:+ "/" +:+ nm)) dep
      (locate_client_dirs W load_rec dirs (λ _, nm) dep) s.
Proof. reflexivity. Qed.

Lemma locate_client_dirs_order (nm : string) (dep : privmod_ptr) (s : state)
    (dirs : list string) :
  let cands :=
    ((λ d, path_buffer (d +:+ "/" +:+ nm)) <$> dirs) ++
    (if decide (systemroot s = ""%string) then []
     else [path_buffer (systemroot s +:+ "/system32/" +:+ nm);
           path_buffer (systemroot s +:+ "/" +:+ nm)]) in
  ((∀ c, c ∈ cands → os_file_exists W c = false) →
   locate_client_dirs W load_rec dirs (λ _, nm) dep s = Done None s) ∧
  (∀ l1 c l2 p s',
     cands = l1 ++ c :: l2 →
     (∀ x, x ∈ l1 → os_file_exists W x = false) →
     os_file_exists W c = true →
     load_rec c (Some dep) s = Done (Some p) s' →
     locate_client_dirs W load_rec dirs (λ _, nm) dep s = Done (Some p) s').
Proof.
  induction dirs as [|d dirs IH].
  - cbn [locate_client_dirs fmap list_fmap app]. cbv zeta.
    rewrite locate_system_eq.
    destruct (decide (systemroot s = ""%string)) as [Hroot|Hroot].
    { split; [done|]. intros l1 c l2 p s' Hc. by destruct l1. }
    split.
    + intros Hnone.
      rewrite try_path_missing by (apply Hnone; left).
      by rewrite try_path_missing by (apply Hnone; right; left).
    + intros l1 c l2 p s' Hc Hl1 Hex Hld.
      destruct l1 as [|x l1]; injection Hc as <- Hc.
      { by apply try_path_loaded. }
      rewrite try_path_missing by (apply Hl1; left).
      destruct l1 as [|x' l1]; injection Hc as <- Hc.
      { by apply try_path_loaded. }
      by destruct l1.
  - cbv zeta in IH |- *. destruct IH as [IHnone IHsome].
    rewrite fmap_cons, <- app_comm_cons, locate_client_dirs_cons. split.
    + intros Hnone. rewrite try_path_missing by (apply Hnone; left).
      apply IHnone. intros c Hc. apply Hnone. by right.
    + intros l1 c l2 p s' Hc Hl1 Hex Hld.
      destruct l1 as [|x l1]; injection Hc as <- Hc.
      { by apply try_path_loaded. }
      rewrite try_path_missing by (apply Hl1; left).
      apply (IHsome l1 c l2); try done.
      intros y Hy. apply Hl1. by right.
Qed.

End SearchFacts.

(** ** The depth of the recursion of unloading *)

Section UnloadDepth.
Import Loader.

Lemma length_update_node (a : nat) (f : privmod_t → privmod_t)
    (l : list (nat * privmod_t)) :
  length (update_node a f l) = length l.
Proof.
  induction l as [|[a' m] l IH]; cbn [update_node]; [done|].
  destruct (decide (a' = a)); cbn [length]; by rewrite ?IH.
Qed.

(** Where the record at [a] is, and what [unlink_node] leaves: the
    records behind it, and those in front of it unless its [prev] is
    NULL. *)
Lemma node_record_split (a : nat) (m : privmod_t)
    (l : list (nat * privmod_t)) :
  node_record a l = Some m →
  ∃ l1 l2, l = l1 ++ (a, m) :: l2 ∧ (a ∉ l1.*1).
Proof.
  induction l as [|[a' m'] l IH]; cbn [node_record]; [done|].
  destruct (decide (a' = a)) as [->|Hne].
  - intros [= ->]. exists [], l. split; [done|]. apply not_elem_of_nil.
  - intros (l1 & l2 & -> & Hl1)%IH. exists ((a', m') :: l1), l2.
    split; [done|]. rewrite fmap_cons. cbn [fst].
    by apply not_elem_of_cons.
Qed.

Lemma unlink_at (a : nat) (m : privmod_t) (l1 l2 : list (nat * privmod_t)) :
  a ∉ l1.*1 → unlink a (l1 ++ (a, m) :: l2) = l1 ++ l2.
Proof.
  induction l1 as [|[a' m'] l1 IH]; cbn [unlink app fst].
  - intros _. by rewrite decide_True.
  - rewrite fmap_cons. cbn [fst]. intros [Hne Hl1]%not_elem_of_cons.
    rewrite decide_False by done. by rewrite IH.
Qed.

Lemma behind_at (a : nat) (m : privmod_t) (l1 l2 : list (nat * privmod_t)) :
  a ∉ l1.*1 → behind a (l1 ++ (a, m) :: l2) = l2.
Proof.
  induction l1 as [|[a' m'] l1 IH]; cbn [behind app fst].
  - intros _. by rewrite decide_True.
  - rewrite fmap_cons. cbn [fst]. intros [Hne Hl1]%not_elem_of_cons.
    rewrite decide_False by done. by rewrite IH.
Qed.

Lemma unlink_node_split (a : nat) (m : privmod_t) (s : state) :
  node_record a (modlist s) = Some m →
  ∃ l1 l2, modlist s = l1 ++ (a, m) :: l2 ∧ (a ∉ l1.*1) ∧
           modlist (unlink_node a s)
           = (match node_prev s !! a with
              | Some _ => l1
              | None => []
              end) ++ l2.
Proof.
  intros (l1 & l2 & Hl & Hl1)%node_record_split. exists l1, l2.
  split; [done|]. split; [done|]. rewrite modlist_unlink_node, Hl.
  destruct (node_prev s !! a); [by apply unlink_at|by apply behind_at].
Qed.

Lemma length_unlink_node (a : nat) (m : privmod_t) (s : state) :
  node_record a (modlist s) = Some m →
  (length (modlist (unlink_node a s)) < length (modlist s))%nat.
Proof.
  intros (l1 & l2 & Hl & _ & ->)%unlink_node_split. rewrite Hl.
  destruct (node_prev s !! a); rewrite !length_app; cbn [length]; lia.
Qed.

Lemma ends_within_mono {A} (k k' : nat) (o : outcome state A) :
  (k ≤ k')%nat → ends_within k o → ends_within k' o.
Proof. intros Hk. destruct o; cbn; [lia|done..]. Qed.

Lemma ends_within_bind {A B} (n : nat) (m : M A) (k : A → M B) (s : state) :
  ends_within n (m s) →
  (∀ a s1, m s = Done a s1 → (length (modlist s1) ≤ n)%nat →
           ends_within n (k a s1)) →
  ends_within n (bind m k s).
Proof.
  intros Hm Hk. unfold bind. destruct (m s) as [a s1| |] eqn:E; [|done..].
  by apply Hk.
Qed.

Lemma ends_within_ret {A} (n : nat) (a : A) (s : state) :
  (length (modlist s) ≤ n)%nat → ends_within n (ret a s).
Proof. done. Qed.

Lemma unload_descriptors_bounded (unload_rec : privmod_ptr → M bool) (n : nat)
    (img : pe_image) (imports : list IMAGE_IMPORT_DESCRIPTOR) :
  (∀ p s, (length (modlist s) < n)%nat →
          ends_within (length (modlist s)) (unload_rec p s)) →
  ∀ s, (length (modlist s) < n)%nat →
       ends_within (length (modlist s))
         (unload_descriptors unload_rec img imports s).
Proof.
  intros Hrec. induction imports as [|d rest IH]; intros s Hlen;
    cbn [unload_descriptors].
  - apply ends_within_ret; lia.
  - destruct (_ =? 0); [apply ends_within_ret; lia|].
    unfold bind at 1. unfold gets.
    apply ends_within_bind.
    + destruct (privload_lookup _ s); [by apply Hrec|apply ends_within_ret; lia].
    + intros r s1 Hrun Hle.
      eapply ends_within_mono; [exact Hle|]. apply IH. lia.
Qed.

Lemma privload_get_import_descriptor_state (m : privmod_t) (s s' : state)
    (r : bool * option (list IMAGE_IMPORT_DESCRIPTOR)) :
  privload_get_import_descriptor m s = Done r s' → s' = s.
Proof.
  unfold privload_get_import_descriptor, bind, image_at.
  destruct (views s !! base m) as [img|]; [|done].
  destruct (import_dir img) as [va sz].
  destruct (sz <=? 0); [by intros [= _ <-]|].
  destruct (negb _); by intros [= _ <-].
Qed.

Lemma privload_call_entry_modlist (m : privmod_t) (reason : Z) (s s' : state)
    (r : bool) :
  privload_call_entry m reason s = Done r s' → modlist s' = modlist s.
Proof.
  unfold privload_call_entry.
  destruct (_ && _); [destruct (_ !! _)|]; try done; by intros [= _ <-].
Qed.

Lemma privload_unload_bounded (fuel : nat) :
  ∀ p s, (length (modlist s) < fuel)%nat →
         ends_within (length (modlist s)) (privload_unload fuel p s).
Proof.
  induction fuel as [|n IH]; intros p s Hlen; [lia|].
  cbn [privload_unload]. unfold privload_unload_body.
  destruct p as [a|i]; [|done].
  unfold bind at 1. unfold deref.
  destruct (node_record a (modlist s)) as [m|] eqn:Hrec; [|done].
  unfold bind at 1. unfold modify at 1.
  set (rc := uint (ref_count m - 1)).
  set (s1 := set_modlist (update_node a (with_ref_count rc)) s).
  assert (length (modlist s1) = length (modlist s)) as Hlen1
    by apply length_update_node.
  destruct (rc =? 0); [|apply ends_within_ret; lia].
  unfold bind at 1. unfold modify at 1.
  set (s2 := unlink_node a s1).
  assert (length (modlist s2) < length (modlist s))%nat as Hlen2.
  { rewrite <- Hlen1. apply (length_unlink_node a (with_ref_count rc m)).
    subst s1. cbn [modlist set_modlist].
    by rewrite node_record_update_node, decide_True, Hrec. }
  apply (ends_within_mono (length (modlist s2))); [lia|].
  apply ends_within_bind; [|intros r s3 Hrun Hle; apply ends_within_ret; lia].
  destruct (negb _); [|apply ends_within_ret; lia].
  apply ends_within_bind.
  { unfold privload_call_entry.
    destruct (_ && _); [destruct (_ !! _)|]; try done; cbn; lia. }
  intros r1 s3 Hm3%privload_call_entry_modlist _. rewrite <- Hm3.
  apply ends_within_bind.
  { unfold privload_unload_imports. apply ends_within_bind.
    { destruct (privload_get_import_descriptor m s3) as [r s4| |] eqn:Hgid;
        [|done|].
      - apply privload_get_import_descriptor_state in Hgid as ->. cbn. lia.
      - unfold privload_get_import_descriptor, bind, image_at in Hgid.
        destruct (views s3 !! base m) as [img|]; [|done].
        destruct (import_dir img) as [va sz].
        destruct (sz <=? 0); [done|]. by destruct (negb _). }
    intros [ok imports] s4 ->%privload_get_import_descriptor_state _.
    destruct (negb ok); [apply ends_within_ret; lia|].
    destruct imports as [descs|]; [|apply ends_within_ret; lia].
    apply ends_within_bind.
    { unfold image_at. destruct (_ !! _); [cbn; lia|done]. }
    intros img s5 Himg _.
    assert (s5 = s3) as ->.
    { unfold image_at in Himg. destruct (_ !! _); [|done].
      by injection Himg. }
    apply (unload_descriptors_bounded _ n); [exact IH|].
    rewrite Hm3. lia. }
  intros r2 s4 _ Hle4. apply ends_within_bind; [cbn; lia|].
  intros r3 s5 [= _ <-] _. cbn. lia.
Qed.

End UnloadDepth.

(** ** A larger budget does not change a result *)

Section Budget.
Import Loader.






End Budget.

(** ** Thread attach and detach *)

Section ThreadEntries.
Import Loader.

Lemma entry_events_views (s1 s2 : state) (reason : Z)
    (l : list (nat * privmod_t)) :
  views s2 = views s1 → entry_events s2 reason l = entry_events s1 reason l.
Proof.
  intros Hv. unfold entry_events, get_module_entry. by rewrite Hv.
Qed.

Lemma call_entries_events (reason : Z) (l : list (nat * privmod_t)) :
  ∀ s, call_entries reason l s
       = Done tt (log_events (entry_events s reason l) s).
Proof.
  induction l as [|[a m] l IH]; intros s; [done|].
  cbn [call_entries]. unfold bind at 1.
  unfold entry_events. cbn [omap list_omap snd]. fold (entry_events s reason l).
  destruct (externally_loaded m); cbn [negb andb].
  { unfold ret. apply IH. }
  unfold privload_call_entry.
  destruct (negb (get_module_entry s (base m) =? 0)
            && negb (get_module_entry s (base m) =? base m)) eqn:Hentry.
  - assert (is_Some (views s !! base m)) as [img Himg].
    { unfold get_module_entry in Hentry.
      destruct (views s !! base m); [eauto|done]. }
    rewrite Himg. rewrite IH. cbn [log_events foldl].
    by rewrite (entry_events_views s).
  - apply IH.
Qed.

End ThreadEntries.

(** ** What is left of an image that has been unloaded *)

Section Unmapped.
Import Loader.

Lemma vmvector_overlap_removed (v : list (Z * Z * nat)) (lo hi pc : Z) :
  lo ≤ pc < hi →
  vmvector_overlap (filter (λ e, ¬ (e.1.1 < hi ∧ lo < e.1.2)) v) pc (pc + 1)
  = false.
Proof.
  intros Hpc. unfold vmvector_overlap.
  apply not_true_is_false. intros Hex.
  apply existsb_exists in Hex as (e & Hin & He).
  apply list_elem_of_In, list_elem_of_filter in Hin as [Hout _].
  apply andb_true_iff in He as [H1%Z.ltb_lt H2%Z.ltb_lt].
  apply Hout. lia.
Qed.

(** The state a removal ends in, for a module that is not externally
    loaded: what [vmvector_remove] and [unmap_file] make of the state [s6]
    in which the imports have been released. *)
Lemma privload_unload_removed (fuel : nat) (a : nat) (m : privmod_t)
    (s s' : state) :
  privload_unload fuel (HeapNode a) s = Done true s' →
  node_record a (modlist s) = Some m →
  externally_loaded m = false →
  ∃ s6,
    s' = set_views (delete (base m))
           (set_page_prot
              (filter (λ kv, ¬ (base m ≤ kv.1 < base m + size m)))
              (set_cells
                 (filter (λ kv, ¬ (base m ≤ kv.1 < base m + size m)))
                 (set_areas
                    (filter (λ e, ¬ (e.1.1 < base m + size m ∧
                                     base m < e.1.2))) s6))).
Proof.
  intros Hrun Hrec Hext. destruct fuel as [|n]; [discriminate|].
  cbn [privload_unload] in Hrun. unfold privload_unload_body in Hrun.
  apply bind_done in Hrun as (m' & s1 & Hd & Hrun).
  unfold deref in Hd. rewrite Hrec in Hd. injection Hd as <- <-.
  apply bind_done in Hrun as ([] & s2 & Hmod & Hrun).
  injection Hmod as <-.
  destruct (_ =? 0); [|by injection Hrun].
  apply bind_done in Hrun as ([] & s3 & Hmod & Hrun).
  injection Hmod as <-.
  apply bind_done in Hrun as ([] & s4 & Hblock & Hrun).
  injection Hrun as <-. rewrite Hext in Hblock. cbn [negb] in Hblock.
  apply bind_done in Hblock as (r1 & s5 & _ & Hblock).
  apply bind_done in Hblock as (r2 & s6 & _ & Hblock).
  apply bind_done in Hblock as ([] & s7 & Hrem & Hblock).
  injection Hrem as <-. injection Hblock as <-.
  by exists s6.
Qed.

End Unmapped.

(** ** Mapping a file *)

Section Mapping.
Import Loader.

Lemma same_globals_refl (s : state) : same_globals s s.
Proof. by repeat split. Qed.

Lemma privload_map_and_relocate_effect (W : world) (filename : string)
    (map sz : Z) (s s1 : state) :
  privload_map_and_relocate W filename s = Done (map, sz) s1 →
  same_globals s s1 ∧ no_entry_called s s1 ∧
  (map ≠ 0 →
   ∃ img, files W filename = Some img ∧ views s1 !! map = Some img ∧
          sz = image_size img).
Proof.
  unfold privload_map_and_relocate.
  destruct (files W filename) as [img|].
  2:{ intros [= <- <- <-].
      split; [apply same_globals_refl|]. split; [by intros e b reason|done]. }
  intros Hrun.
  apply bind_done in Hrun as ([map0 sz0] & s2 & Hmap & Hrun).
  assert (same_globals s s2 ∧ trace s2 = trace s ∧
          (map0 ≠ 0 → views s2 !! map0 = Some img ∧ sz0 = image_size img))
    as (Hg2 & Ht2 & Hv2).
  { unfold map_file in Hmap. destruct (_ =? 0) eqn:Hz.
    - injection Hmap as <- <- <-.
      split; [apply same_globals_refl|]. done.
    - injection Hmap as <- <- <-. split; [by repeat split|].
      split; [done|]. intros _. split; [|done].
      cbn. apply lookup_insert_eq. }
  apply bind_done in Hrun as (pref & s3 & [= <- <-] & Hrun).
  destruct (negb _).
  2:{ injection Hrun as <- <- <-. split; [done|]. split.
      - intros e b reason. by rewrite Ht2.
      - intros Hne. exists img. destruct (Hv2 Hne) as [-> ->]. done. }
  apply bind_done in Hrun as (reloc & s3 & [= <- <-] & Hrun).
  assert (∀ s4, unmap_file map0 sz0 s2 = Done tt s4 →
                same_globals s s4 ∧ no_entry_called s s4) as Hunmap.
  { intros s4 [= <-]. split; [exact Hg2|].
    intros e b reason. cbn. by rewrite Ht2. }
  destruct (negb (module_file_relocatable _ _)).
  { apply bind_done in Hrun as ([] & s4 & Hun & [= <- <- <-]).
    destruct (Hunmap _ Hun). done. }
  apply bind_done in Hrun as (ok & s4 & Hreb & Hrun).
  assert (same_globals s s4 ∧ no_entry_called s s4 ∧ views s4 = views s2)
    as (Hg4 & Ht4 & Hv4).
  { unfold module_rebase in Hreb. destruct (views s2 !! map0).
    - injection Hreb as <- <-. split; [exact Hg2|].
      split; [|done]. intros e b reason. cbn. rewrite Ht2.
      intros [Hin|Hin]%elem_of_app; [done|].
      by apply list_elem_of_singleton in Hin.
    - injection Hreb as <- <-. split; [done|]. split; [|done].
      intros e b reason. by rewrite Ht2. }
  destruct (negb ok).
  - apply bind_done in Hrun as ([] & s5 & Hun & [= <- <- <-]).
    injection Hun as <-. split; [exact Hg4|]. split; [|done].
    intros e b reason. cbn. apply Ht4.
  - injection Hrun as <- <- <-. split; [done|]. split; [done|].
    intros Hne. exists img. rewrite Hv4. destruct (Hv2 Hne) as [-> ->]. done.
Qed.

End Mapping.

(** ** Reference counts while unloading *)

Section RefCounts.
Import Loader.

Lemma total_refs_update_node (a : nat) (f : privmod_t → privmod_t)
    (l : list (nat * privmod_t)) (m : privmod_t) :
  node_record a l = Some m →
  total_refs (update_node a f l)
  = total_refs l - ref_count m + ref_count (f m).
Proof.
  induction l as [|[a' m'] l IH]; cbn [node_record update_node]; [done|].
  destruct (decide (a' = a)).
  - intros [= ->]. cbn [total_refs snd]. lia.
  - intros Hrec. cbn [total_refs snd]. rewrite IH by done. lia.
Qed.

Lemma total_refs_app (l1 l2 : list (nat * privmod_t)) :
  total_refs (l1 ++ l2) = total_refs l1 + total_refs l2.
Proof. induction l1 as [|x l1 IH]; cbn [total_refs app]; lia. Qed.

Lemma total_refs_positive (l : list (nat * privmod_t)) :
  (∀ x, x ∈ l → 0 < ref_count x.2) → 0 ≤ total_refs l.
Proof.
  induction l as [|x l IH]; intros Hpos; cbn [total_refs]; [done|].
  assert (0 < ref_count x.2) by (apply Hpos; left).
  assert (0 ≤ total_refs l) by (apply IH; intros y Hy; apply Hpos; by right).
  lia.
Qed.

(** Unlinking takes the count of the record, and the counts of the records
    that go with it, out of the sum. *)
Lemma total_refs_unlink_node (a : nat) (m : privmod_t) (s : state) :
  node_record a (modlist s) = Some m →
  (∀ x, x ∈ modlist s → x.1 ≠ a → 0 < ref_count x.2) →
  total_refs (modlist (unlink_node a s))
  ≤ total_refs (modlist s) - ref_count m.
Proof.
  intros (l1 & l2 & Hl & Hl1 & ->)%unlink_node_split Hpos. rewrite Hl in *.
  rewrite !total_refs_app. cbn [total_refs snd].
  assert (0 ≤ total_refs l1).
  { apply total_refs_positive. intros x Hx. apply Hpos; [set_solver|].
    intros Heq. apply Hl1. rewrite <- Heq. apply list_elem_of_fmap.
    by exists x. }
  destruct (node_prev s !! a); cbn [total_refs]; lia.
Qed.

Lemma elem_of_unlink_node (a : nat) (m : privmod_t) (s : state)
    (x : nat * privmod_t) :
  node_record a (modlist s) = Some m → NoDup (nodes s) →
  x ∈ modlist (unlink_node a s) → x ∈ modlist s ∧ x.1 ≠ a.
Proof.
  intros (l1 & l2 & Hl & Hl1 & ->)%unlink_node_split Hnd. unfold nodes in Hnd.
  rewrite Hl in *. rewrite fmap_app, fmap_cons in Hnd. cbn [fst] in Hnd.
  apply NoDup_app in Hnd as (_ & _ & Hnd).
  apply NoDup_cons in Hnd as [Hl2 _].
  intros [Hx|Hx]%elem_of_app.
  - destruct (node_prev s !! a); [|by apply elem_of_nil in Hx].
    split; [set_solver|]. intros Heq. apply Hl1. rewrite <- Heq.
    apply list_elem_of_fmap. by exists x.
  - split; [set_solver|]. intros Heq. apply Hl2. rewrite <- Heq.
    apply list_elem_of_fmap. by exists x.
Qed.

Lemma node_record_unlink_node_same (a : nat) (s : state) :
  NoDup (nodes s) → node_record a (modlist (unlink_node a s)) = None.
Proof.
  intros Hnd. destruct (node_record a (modlist s)) as [m|] eqn:Hrec.
  - apply node_record_None. intros (x & Hx1 & Hx)%list_elem_of_fmap.
    apply (elem_of_unlink_node a m s x Hrec Hnd) in Hx as [_ Hne]. done.
  - eapply node_record_sublist; [apply unlink_node_sublist|done].
Qed.

Lemma node_record_Some_elem (a : nat) (l : list (nat * privmod_t))
    (m : privmod_t) :
  node_record a l = Some m → (a, m) ∈ l.
Proof.
  induction l as [|[a' m'] l IH]; cbn [node_record]; [done|].
  destruct (decide (a' = a)) as [->|].
  - intros [= ->]. left.
  - intros Hrec. right. by apply IH.
Qed.

Lemma elem_of_update_node (a : nat) (f : privmod_t → privmod_t)
    (l : list (nat * privmod_t)) (x : nat * privmod_t) :
  x ∈ update_node a f l → x ∈ l ∨ ∃ m, (a, m) ∈ l ∧ x = (a, f m).
Proof.
  induction l as [|[a' m'] l IH]; cbn [update_node]; [by left|].
  destruct (decide (a' = a)) as [->|].
  - intros [->|Hin]%elem_of_cons.
    + right. exists m'. split; [left|done].
    + left. by right.
  - intros [->|Hin]%elem_of_cons; [left; left|].
    destruct (IH Hin) as [Hl|(m & Hm & ->)]; [left; by right|].
    right. exists m. split; [by right|done].
Qed.

Lemma spends_refl s : spends false s s.
Proof. intros Hc. split; [done|lia]. Qed.

Lemma spends_trans s1 s2 s3 :
  spends false s1 s2 → spends false s2 s3 → spends false s1 s3.
Proof.
  intros H12 H23 Hc. destruct (H12 Hc) as [Hc2 Hle2].
  destruct (H23 Hc2) as [Hc3 Hle3]. split; [done|lia].
Qed.

Lemma spends_registry_only : registry_only (spends false).
Proof.
  intros s s' Hl Hn [Hnd Hc]. unfold counted, nodes. rewrite Hl.
  split; [done|lia].
Qed.

Lemma spends_weaken s s' : spends true s s' → spends false s s'.
Proof. intros H Hc. destruct (H Hc). split; [done|lia]. Qed.

Lemma privload_unload_spends (fuel : nat) :
  ∀ p, respects (spends true) (privload_unload fuel p).
Proof.
  induction fuel as [|n IH]; intros p s r s' Hrun; [done|].
  cbn [privload_unload] in Hrun. unfold privload_unload_body in Hrun.
  destruct p as [a|i]; [|done].
  apply bind_done in Hrun as (m0 & s0 & Hd & Hrun).
  unfold deref in Hd.
  destruct (node_record a (modlist s)) as [m|] eqn:Hrec; [|done].
  injection Hd as <- <-.
  apply bind_done in Hrun as ([] & s1 & [= <-] & Hrun).
  intros [Hnd Hcnt].
  pose proof (node_record_Some_elem _ _ _ Hrec) as Hin.
  pose proof (Hcnt _ Hin) as Hm. cbn [snd] in Hm.
  assert (uint (ref_count m - 1) = ref_count m - 1) as Hrc
    by (unfold uint; apply Z.mod_small; lia).
  rewrite Hrc in Hrun.
  set (s1 := set_modlist (update_node a (with_ref_count (ref_count m - 1))) s)
    in *.
  assert (total_refs (modlist s1) = total_refs (modlist s) - 1) as Ht1.
  { subst s1. cbn [modlist set_modlist].
    rewrite (total_refs_update_node _ _ _ m) by done. cbn. lia. }
  assert (NoDup (nodes s1)) as Hnd1.
  { subst s1. unfold nodes. cbn [modlist set_modlist].
    by rewrite update_node_keys. }
  assert (node_record a (modlist s1) = Some (with_ref_count (ref_count m - 1) m))
    as Hrec1.
  { subst s1. cbn [modlist set_modlist].
    by rewrite node_record_update_node, decide_True, Hrec. }
  assert (∀ x, x ∈ modlist s1 → x.1 ≠ a → 0 < ref_count x.2 < 2 ^ 32) as Hcnt1.
  { intros x Hx Hne. subst s1. cbn [modlist set_modlist] in Hx.
    apply elem_of_update_node in Hx as [Hx|(m0 & _ & ->)]; [by apply Hcnt|].
    done. }
  destruct (ref_count m - 1 =? 0) eqn:Hz.
  2:{ injection Hrun as <- <-. apply Z.eqb_neq in Hz. split; [|lia].
      split; [done|]. intros x Hx.
      destruct (decide (x.1 = a)) as [Hxa|Hxa]; [|by apply Hcnt1].
      destruct x as [ax mx]. cbn [fst] in Hxa. subst ax.
      apply (node_record_elem _ _ _ Hnd1) in Hx.
      rewrite Hrec1 in Hx. injection Hx as <-. cbn. lia. }
  apply Z.eqb_eq in Hz.
  apply bind_done in Hrun as ([] & s2 & [= <-] & Hrun).
  set (s2 := unlink_node a s1) in *.
  assert (counted s2 ∧ total_refs (modlist s2) ≤ total_refs (modlist s) - 1)
    as [Hc2 Ht2].
  { split.
    - split.
      + unfold nodes. eapply sublist_NoDup; [exact Hnd1|].
        apply fmap_sublist, unlink_node_sublist.
      + intros x Hx.
        apply (elem_of_unlink_node a _ s1 x Hrec1 Hnd1) in Hx as [Hx Hne].
        by apply Hcnt1.
    - pose proof (total_refs_unlink_node a _ s1 Hrec1) as Hle.
      cbn [ref_count with_ref_count] in Hle. rewrite <- Ht1.
      etrans; [apply Hle|lia].
      intros x Hx Hne. by apply Hcnt1. }
  apply bind_done in Hrun as ([] & s3 & Hblock & [= <- <-]).
  assert (spends false s2 s3) as H23.
  { destruct (negb _).
    2:{ injection Hblock as <-. apply spends_refl. }
    revert Hblock. generalize s2 tt s3.
    change (respects (spends false)
              (let* _ := privload_call_entry m DLL_PROCESS_DETACH in
               let* _ := privload_unload_imports (privload_unload n) m in
               let* _ := vmvector_remove (base m) (base m + size m) in
               unmap_file (base m) (size m))).
    apply respects_bind; [apply spends_trans| |].
    { apply respects_call_entry, spends_registry_only. }
    intros _. apply respects_bind; [apply spends_trans| |].
    { apply respects_unload_imports;
        [apply spends_refl|apply spends_trans|].
      intros q s4 r4 s5 Hq. apply spends_weaken. by eapply IH. }
    intros _. apply respects_bind; [apply spends_trans| |].
    { apply respects_vmvector_remove, spends_registry_only. }
    intros _. apply respects_unmap_file, spends_registry_only. }
  destruct (H23 Hc2) as [Hc3 Ht3]. split; [done|lia].
Qed.

End RefCounts.

(** ** Unloading unmaps *)

Section Unmapping.
Import Loader.




Lemma private_bases_update_node (a : nat) (rc : Z) (s : state) :
  private_bases (set_modlist (update_node a (with_ref_count rc)) s)
  = private_bases s.
Proof.
  unfold private_bases. cbn [modlist set_modlist].
  induction (modlist s) as [|[a' m] l IH]; cbn [update_node]; [done|].
  destruct (decide (a' = a)); rewrite !filter_cons; cbn [snd].
  - cbn [externally_loaded with_ref_count].
    destruct (decide (externally_loaded m = false)); by rewrite ?fmap_cons.
  - destruct (decide (externally_loaded m = false));
      by rewrite ?fmap_cons, IH.
Qed.


(** *** Registries whose [prev] links are all set *)











Lemma unload_all_empties (fuel k : nat) :
  ∀ s s', unload_all fuel k s = Done tt s' → modlist s' = [].
Proof.
  induction k as [|k IH]; intros s s' Hrun; cbn [unload_all] in Hrun;
    unfold bind at 1, gets in Hrun.
  - destruct (modlist s) as [|[a m] l] eqn:Hl; [|done].
    by injection Hrun as <-.
  - destruct (modlist s) as [|[a m] l] eqn:Hl; [by injection Hrun as <-|].
    apply bind_done in Hrun as (r1 & s1 & Hun & Hrun). by eapply IH.
Qed.

Lemma total_refs_nonneg (s : state) :
  counted s → 0 ≤ total_refs (modlist s) ∧
              (modlist s ≠ [] → 0 < total_refs (modlist s)).
Proof.
  intros [_ Hc]. induction (modlist s) as [|x l IH]; [done|].
  cbn [total_refs].
  assert (0 < ref_count x.2 < 2 ^ 32) by (apply Hc; left).
  destruct IH as [IH _]; [intros y Hy; apply Hc; by right|]. lia.
Qed.

Lemma unload_all_terminates (k : nat) :
  ∀ fuel s,
    counted s → (length (modlist s) < fuel)%nat →
    total_refs (modlist s) ≤ Z.of_nat k →
    unload_all fuel k s ≠ OutOfFuel.
Proof.
  induction k as [|k IH]; intros fuel s Hc Hfuel Hk;
    cbn [unload_all]; unfold bind at 1, gets.
  - destruct (modlist s) as [|[a m] l] eqn:Hl; [done|].
    destruct (total_refs_nonneg s Hc) as [_ Hpos].
    rewrite Hl in Hpos. specialize (Hpos ltac:(done)). lia.
  - destruct (modlist s) as [|[a m] l] eqn:Hl; [done|].
    rewrite <- Hl in Hfuel, Hk.
    pose proof (privload_unload_bounded fuel (HeapNode a) s Hfuel) as Hb.
    unfold bind.
    destruct (privload_unload fuel (HeapNode a) s) as [r s1| |] eqn:Hun;
      [|done|done].
    cbn in Hb.
    destruct (privload_unload_spends fuel (HeapNode a) s r s1 Hun Hc)
      as [Hc1 Hlt].
    apply IH; [done|lia|lia].
Qed.

End Unmapping.

(** ** Unloading does not fault on a registry whose images are mapped *)

Section NoFault.
Import Loader.

Lemma mapped_apart_same (s s' : state) :
  private_bases s' = private_bases s → views s' = views s →
  mapped_apart s → mapped_apart s'.
Proof. intros Hb Hv [Hnd Hm]. split; rewrite Hb, ?Hv; done. Qed.

Lemma private_bases_sublist (s s' : state) :
  modlist s' `sublist_of` modlist s →
  private_bases s' `sublist_of` private_bases s.
Proof.
  intros Hsub. unfold private_bases.
  by apply fmap_sublist, sublist_filter_mono.
Qed.

(** Unlinking a record: the private bases that remain were there before,
    and the base of the record is not among them when it was private. *)
Lemma mapped_apart_unlink (a : nat) (m : privmod_t) (s : state) :
  node_record a (modlist s) = Some m →
  mapped_apart s →
  mapped_apart (unlink_node a s) ∧
  (externally_loaded m = false →
   is_Some (views s !! base m) ∧
   base m ∉ private_bases (unlink_node a s)) ∧
  (∀ b, b ∈ private_bases (unlink_node a s) → b ∈ private_bases s).
Proof.
  intros Hrec [Hnd Hm].
  destruct (unlink_node_frame a s)
    as (_ & _ & _ & _ & _ & _ & _ & _ & Hv & _).
  pose proof (private_bases_sublist _ _ (unlink_node_sublist a s)) as Hsub.
  assert (∀ b, b ∈ private_bases (unlink_node a s) → b ∈ private_bases s)
    as Hin by (intros b Hb; by eapply elem_of_sublist).
  split; [split|split; [|done]].
  - by eapply sublist_NoDup.
  - intros b Hb. rewrite Hv. by apply Hm, Hin.
  - intros Hext.
    destruct (unlink_node_split _ _ _ Hrec) as (l1 & l2 & Hl & _ & Hnew).
    unfold private_bases in Hnd, Hm |- *. rewrite Hnew. rewrite Hl in Hnd, Hm.
    rewrite filter_app, filter_cons, fmap_app in Hnd, Hm.
    cbn [snd] in Hnd, Hm. rewrite decide_True in Hnd, Hm by done.
    rewrite fmap_cons in Hnd, Hm. cbn [snd] in Hnd, Hm.
    apply NoDup_app in Hnd as (Hnd1 & Hdisj & Hnd2).
    apply NoDup_cons in Hnd2 as [Hm2 Hnd2].
    split; [apply Hm; set_solver|].
    rewrite filter_app, fmap_app.
    intros [Hb|Hb]%elem_of_app; [|done].
    destruct (node_prev s !! a); [|by apply elem_of_nil in Hb].
    apply (Hdisj _ Hb). left.
Qed.

Lemma find_mod_registered (f : privmod_t → bool)
    (l : list (nat * privmod_t)) (q : privmod_ptr) :
  find_mod f l = Some q → ∃ a, q = HeapNode a ∧ is_Some (node_record a l).
Proof.
  intros (a & m & -> & Hin & _)%find_mod_Some. exists a. split; [done|].
  destruct (node_record a l) eqn:Hrec; [eauto|].
  apply node_record_None in Hrec. exfalso. apply Hrec.
  apply list_elem_of_fmap. by exists (a, m).
Qed.

Lemma privload_get_import_descriptor_mapped (m : privmod_t) (img : pe_image)
    (s : state) :
  views s !! base m = Some img →
  privload_get_import_descriptor m s
  = Done (if (import_dir img).2 <=? 0 then (true, None)
          else if negb (imports_readable img) then (false, None)
          else (true, Some (descriptors img (import_dir img).1))) s.
Proof.
  intros Himg. unfold privload_get_import_descriptor, bind, image_at.
  rewrite Himg. destruct (import_dir img) as [va sz]. cbn [fst snd].
  destruct (sz <=? 0); [done|]. by destruct (negb _).
Qed.

Lemma unload_descriptors_returns (n : nat) (img : pe_image)
    (imports : list IMAGE_IMPORT_DESCRIPTOR) :
  (∀ a s, mapped_apart s → is_Some (node_record a (modlist s)) →
          (length (modlist s) < n)%nat →
          ∃ r s', privload_unload n (HeapNode a) s = Done r s' ∧
                  mapped_apart s' ∧
                  ∀ b, b ∈ private_bases s' → b ∈ private_bases s) →
  ∀ s, mapped_apart s → (length (modlist s) < n)%nat →
       ∃ r s', unload_descriptors (privload_unload n) img imports s
               = Done r s' ∧ mapped_apart s' ∧
               ∀ b, b ∈ private_bases s' → b ∈ private_bases s.
Proof.
  intros Hrec. induction imports as [|d rest IH]; intros s Hm Hlen;
    cbn [unload_descriptors]; [by exists true, s|].
  destruct (_ =? 0); [by exists true, s|].
  unfold bind at 1. unfold gets.
  destruct (privload_lookup _ s) as [q|] eqn:Hl.
  - apply find_mod_registered in Hl as (a & -> & Hreg).
    destruct (Hrec a s Hm Hreg Hlen) as (r & s1 & Hun & Hm1 & Hsub1).
    pose proof (privload_unload_bounded n (HeapNode a) s Hlen) as Hb.
    rewrite Hun in Hb. cbn in Hb.
    unfold bind. rewrite Hun.
    destruct (IH s1 Hm1 ltac:(lia)) as (r' & s' & Hrun & Hm' & Hsub').
    exists r', s'. split; [done|]. split; [done|]. auto.
  - unfold bind, ret. by apply IH.
Qed.

Lemma privload_unload_returns (fuel : nat) :
  ∀ a s, mapped_apart s → is_Some (node_record a (modlist s)) →
         (length (modlist s) < fuel)%nat →
         ∃ r s', privload_unload fuel (HeapNode a) s = Done r s' ∧
                 mapped_apart s' ∧
                 ∀ b, b ∈ private_bases s' → b ∈ private_bases s.
Proof.
  induction fuel as [|n IH]; intros a s Hm [m Hrec] Hlen; [lia|].
  cbn [privload_unload]. unfold privload_unload_body.
  unfold bind at 1. unfold deref. rewrite Hrec.
  unfold bind at 1. unfold modify at 1.
  set (rc := uint (ref_count m - 1)).
  set (s1 := set_modlist (update_node a (with_ref_count rc)) s).
  assert (private_bases s1 = private_bases s) as Hb1
    by apply private_bases_update_node.
  assert (mapped_apart s1) as Hm1
    by (by apply (mapped_apart_same s s1)).
  destruct (rc =? 0).
  2:{ exists false, s1. split; [done|]. split; [done|]. by rewrite Hb1. }
  unfold bind at 1. unfold modify at 1.
  set (s2 := unlink_node a s1).
  assert (node_record a (modlist s1) = Some (with_ref_count rc m)) as Hrec1.
  { subst s1. cbn [modlist set_modlist].
    by rewrite node_record_update_node, decide_True, Hrec. }
  destruct (mapped_apart_unlink a _ s1 Hrec1 Hm1) as (Hm2 & Hpriv & Hb2').
  fold s2 in Hm2, Hpriv, Hb2'.
  assert (∀ b, b ∈ private_bases s2 → b ∈ private_bases s) as Hb2
    by (intros b Hb; rewrite <- Hb1; by apply Hb2').
  assert (length (modlist s2) < n)%nat as Hlen2.
  { pose proof (length_unlink_node a _ s1 Hrec1) as Hlt. fold s2 in Hlt.
    subst s1. cbn [modlist set_modlist] in Hlt.
    rewrite length_update_node in Hlt. lia. }
  destruct (unlink_node_frame a s1)
    as (_ & _ & _ & _ & _ & _ & _ & _ & Hv2 & _). fold s2 in Hv2.
  cbn [externally_loaded with_ref_count] in Hpriv.
  destruct (externally_loaded m) eqn:Hext; cbn [negb].
  { exists true, s2. done. }
  destruct (Hpriv eq_refl) as [[img Himg] Hfresh].
  cbn [base with_ref_count] in Himg, Hfresh.
  assert (views s2 !! base m = Some img) as Himg2 by (by rewrite Hv2).
  (* the entry routine *)
  assert (∃ r1 s3, privload_call_entry m DLL_PROCESS_DETACH s2 = Done r1 s3 ∧
                   modlist s3 = modlist s2 ∧ views s3 = views s2)
    as (r1 & s3 & Hentry & Hl3 & Hv3).
  { unfold privload_call_entry. rewrite Himg2.
    destruct (_ && _); eauto. }
  assert (private_bases s3 = private_bases s2) as Hb3
    by (unfold private_bases; by rewrite Hl3).
  assert (mapped_apart s3) as Hm3
    by (by apply (mapped_apart_same s2 s3)).
  (* the imports *)
  assert (∃ r2 s4, privload_unload_imports (privload_unload n) m s3
                   = Done r2 s4 ∧ mapped_apart s4 ∧
                   ∀ b, b ∈ private_bases s4 → b ∈ private_bases s3)
    as (r2 & s4 & Himp & Hm4 & Hb4).
  { unfold privload_unload_imports. unfold bind at 1.
    rewrite (privload_get_import_descriptor_mapped m img)
      by (by rewrite Hv3).
    destruct (_ <=? 0); [by exists true, s3|].
    destruct (negb (imports_readable img)); [by exists false, s3|].
    cbn [negb]. unfold bind, image_at. rewrite Hv3, Himg2.
    apply unload_descriptors_returns; [exact IH|exact Hm3|].
    rewrite Hl3. exact Hlen2. }
  unfold bind at 1. unfold bind at 1. rewrite Hentry.
  unfold bind at 1. rewrite Himp.
  eexists true, _. split; [reflexivity|].
  (* the image of the module is unmapped; the others are apart from it *)
  destruct Hm4 as [Hnd4 Hmap4]. split; [split; [exact Hnd4|]|].
  - intros b Hb. cbn. rewrite lookup_delete_ne; [by apply Hmap4|].
    intros <-. apply Hfresh. rewrite <- Hb3. by apply Hb4.
  - intros b Hb. apply Hb2. rewrite <- Hb3. by apply Hb4.
Qed.

(** The loop of [loader_exit] returns. *)
Lemma unload_all_returns (k : nat) :
  ∀ fuel s,
    counted s → mapped_apart s → (length (modlist s) < fuel)%nat →
    total_refs (modlist s) ≤ Z.of_nat k →
    ∃ s', unload_all fuel k s = Done tt s'.
Proof.
  induction k as [|k IH]; intros fuel s Hc Hm Hfuel Hk;
    cbn [unload_all]; unfold bind at 1, gets.
  - destruct (modlist s) as [|[a m] l] eqn:Hl; [by exists s|].
    destruct (total_refs_nonneg s Hc) as [_ Hpos].
    rewrite Hl in Hpos. specialize (Hpos ltac:(done)). lia.
  - destruct (modlist s) as [|[a m] l] eqn:Hl; [by exists s|].
    rewrite <- Hl in Hfuel, Hk.
    destruct (privload_unload_returns fuel a s Hm) as (r & s1 & Hun & Hm1 & _);
      [|done|].
    { rewrite Hl. cbn [node_record]. rewrite decide_True by done. eauto. }
    pose proof (privload_unload_bounded fuel (HeapNode a) s Hfuel) as Hb.
    rewrite Hun in Hb. cbn in Hb.
    destruct (privload_unload_spends fuel (HeapNode a) s r s1 Hun Hc)
      as [Hc1 Hlt].
    unfold bind. rewrite Hun. apply IH; [done|done|lia|lia].
Qed.

End NoFault.

(** ** Stepping through a run *)

Section Steps.
Import Loader.

Lemma bind_step {St A B} (m : run St A) (k : A → run St B) (s s1 : St)
    (a : A) :
  m s = Done a s1 → bind m k s = k a s1.
Proof. intros Hm. unfold bind. by rewrite Hm. Qed.

Lemma deref_head (a : nat) (m : privmod_t) (l : list (nat * privmod_t))
    (s : state) :
  modlist s = (a, m) :: l → deref (HeapNode a) s = Done m s.
Proof.
  intros Hl. unfold deref. rewrite Hl. cbn [node_record].
  by rewrite decide_True.
Qed.

End Steps.

Section Heads.
Import Loader.

Lemma update_node_head (a : nat) (f : privmod_t → privmod_t) (m : privmod_t)
    (l : list (nat * privmod_t)) :
  update_node a f ((a, m) :: l) = (a, f m) :: l.
Proof. simpl. by rewrite decide_True. Qed.

Lemma unlink_node_head (a : nat) (m : privmod_t)
    (l : list (nat * privmod_t)) (s : state) :
  modlist s = (a, m) :: l → modlist (unlink_node a s) = l.
Proof.
  intros Hl. rewrite modlist_unlink_node, Hl. cbn [unlink behind fst].
  rewrite !decide_True by done. by destruct (node_prev s !! a).
Qed.

Lemma unlink_node_views (a : nat) (s : state) :
  views (unlink_node a s) = views s.
Proof. by destruct (unlink_node_frame a s) as (_&_&_&_&_&_&_&_&?&_). Qed.

End Heads.

(** ** Registering the modules of the host *)

Section HostModules.
Import Loader.

Lemma same_but_registry_refl s : same_but_registry s s.
Proof. by repeat split. Qed.

Lemma same_but_registry_trans s1 s2 s3 :
  same_but_registry s1 s2 → same_but_registry s2 s3 →
  same_but_registry s1 s3.
Proof.
  unfold same_but_registry. intros H12 H23.
  destruct H12 as (?&?&?&?&?&?&?&?&?&?&?).
  destruct H23 as (?&?&?&?&?&?&?&?&?&?&?).
  repeat split; congruence.
Qed.

Lemma register_host_module_run (B : host_modules) (b : Z) (nm : string)
    (s : state) :
  dynamo_heap_initialized s = true →
  ∃ s', register_host_module b (allocation_size B b) nm s = Done tt s' ∧
        modlist s' = (next_node s, host_record B b nm) :: modlist s ∧
        next_node s' = S (next_node s) ∧ same_but_registry s s'.
Proof.
  intros Hheap. unfold register_host_module.
  erewrite bind_step; cycle 1.
  { unfold privload_insert. rewrite Hheap. reflexivity. }
  unfold set_externally_loaded.
  cbn [modlist set_modlist set_next_node set_node_prev node_record].
  rewrite decide_True by done.
  eexists. split; [reflexivity|].
  cbn [modlist set_modlist set_next_node set_node_prev].
  rewrite update_node_head. split; [done|]. split; [done|].
  by repeat split.
Qed.

End HostModules.

(** ** Unloading modules of the host *)

Section ExternalOnly.
Import Loader.

Lemma private_bases_nil_external (a : nat) (m : privmod_t) (s : state) :
  private_bases s = [] → node_record a (modlist s) = Some m →
  externally_loaded m = true.
Proof.
  intros Hpb Hrec. apply node_record_Some_elem in Hrec.
  destruct (externally_loaded m) eqn:Hext; [done|].
  assert (base m ∈ private_bases s) as Hin.
  { unfold private_bases. apply list_elem_of_fmap. exists (a, m).
    split; [done|]. by apply list_elem_of_filter. }
  rewrite Hpb in Hin. by apply elem_of_nil in Hin.
Qed.

Lemma privload_unload_external_only (fuel : nat) (p : privmod_ptr)
    (s s' : state) (r : bool) :
  privload_unload fuel p s = Done r s' →
  private_bases s = [] →
  private_bases s' = [] ∧ same_but_registry s s'.
Proof.
  intros Hrun Hpb. destruct fuel as [|n]; [done|].
  cbn [privload_unload] in Hrun. unfold privload_unload_body in Hrun.
  destruct p as [a|i]; [|done].
  apply bind_done in Hrun as (m0 & s0 & Hd & Hrun).
  unfold deref in Hd.
  destruct (node_record a (modlist s)) as [m|] eqn:Hrec; [|done].
  injection Hd as <- <-.
  pose proof (private_bases_nil_external a m s Hpb Hrec) as Hext.
  apply bind_done in Hrun as ([] & s1 & [= <-] & Hrun).
  set (rc := uint (ref_count m - 1)) in *.
  set (s1 := set_modlist (update_node a (with_ref_count rc)) s) in *.
  assert (private_bases s1 = []) as Hpb1
    by (subst s1; by rewrite private_bases_update_node).
  destruct (rc =? 0).
  2:{ injection Hrun as <- <-. split; [done|]. by repeat split. }
  apply bind_done in Hrun as ([] & s2 & [= <-] & Hrun).
  rewrite Hext in Hrun. cbn [negb] in Hrun.
  apply bind_done in Hrun as ([] & s3 & [= <-] & [= <- <-]).
  destruct (unlink_node_frame a s1)
    as (_ & ? & ? & ? & ? & ? & ? & ? & ? & ? & ? & ?).
  split; [|by repeat split].
  destruct (private_bases (unlink_node a s1)) as [|b l] eqn:Hpb2; [done|].
  assert (b ∈ private_bases s1) as Hin; [|rewrite Hpb1 in Hin;
                                          by apply elem_of_nil in Hin].
  eapply elem_of_sublist;
    [|apply private_bases_sublist, unlink_node_sublist].
  rewrite Hpb2. left.
Qed.

Lemma unload_all_external_only (fuel k : nat) :
  ∀ s s', unload_all fuel k s = Done tt s' →
          private_bases s = [] → same_but_registry s s'.
Proof.
  induction k as [|k IH]; intros s s' Hrun Hpb; cbn [unload_all] in Hrun;
    unfold bind at 1, gets in Hrun.
  - destruct (modlist s) as [|[a m] l]; [|done].
    injection Hrun as <-. apply same_but_registry_refl.
  - destruct (modlist s) as [|[a m] l].
    { injection Hrun as <-. apply same_but_registry_refl. }
    apply bind_done in Hrun as (r1 & s1 & Hun & Hrun).
    destruct (privload_unload_external_only _ _ _ _ _ Hun Hpb) as [Hpb1 H1].
    eapply same_but_registry_trans; [exact H1|by eapply IH].
Qed.

End ExternalOnly.

(** ** FLS callbacks *)

Section FlsFacts.
Import Loader.

Lemma fls_match_iff (pc : Z) (l : list Z) :
  existsb (λ cb, negb (cb =? 0) && (cb =? pc)) l = true ↔ pc ≠ 0 ∧ pc ∈ l.
Proof.
  rewrite existsb_exists. split.
  - intros (cb & Hin%list_elem_of_In & Hcb).
    apply andb_true_iff in Hcb as [Hnz%negb_true_iff%Z.eqb_neq ->%Z.eqb_eq].
    done.
  - intros [Hnz Hin]. exists pc. split; [by apply list_elem_of_In|].
    apply andb_true_iff. split; [|apply Z.eqb_refl].
    apply negb_true_iff. by apply Z.eqb_neq.
Qed.

(** A callback of a private library is linked in behind the head node and
    put on the host's areas unless it is there; the real FlsAlloc is called
    in every case. *)
Lemma redirect_FlsAlloc_private (F : Fls.fls_host) (cb : Z) (t : Fls.machine)
    (head : Z) (rest : list Z) :
  in_private_library (ldr (Fls.proc t)) cb = true →
  fls_cb_list (Fls.proc t) = head :: rest →
  ∃ t', Fls.redirect_FlsAlloc F cb t = Done (Fls.FlsAlloc F cb) t' ∧
        fls_cb_list (Fls.proc t') = head :: cb :: rest ∧
        Fls.dr_areas t'
        = (if Fls.is_dynamo_address F (Fls.dr_areas t) cb then Fls.dr_areas t
           else Fls.dr_areas t ++ [(cb, cb + 1)]) ∧
        Fls.fls_allocs t' = Fls.fls_allocs t ++ [cb] ∧
        ldr (Fls.proc t') = ldr (Fls.proc t) ∧
        Fls.xsp t' = Fls.xsp t ∧ Fls.xcx t' = Fls.xcx t ∧
        Fls.stack t' = Fls.stack t ∧ Fls.next_tag t' = Fls.next_tag t ∧
        Fls.cb_calls t' = Fls.cb_calls t.
Proof.
  intros Hin Hl. unfold Fls.redirect_FlsAlloc.
  erewrite bind_step by reflexivity. rewrite Hin.
  destruct (Fls.is_dynamo_address F (Fls.dr_areas t) cb) eqn:Hdyn.
  - erewrite bind_step; cycle 1.
    { erewrite bind_step by reflexivity. rewrite Hl.
      erewrite bind_step by reflexivity.
      erewrite bind_step by reflexivity. cbn [Fls.set_proc Fls.dr_areas].
      rewrite Hdyn. reflexivity. }
    eexists. split; [reflexivity|]. by cbn.
  - erewrite bind_step; cycle 1.
    { erewrite bind_step by reflexivity. rewrite Hl.
      erewrite bind_step by reflexivity.
      erewrite bind_step by reflexivity. cbn [Fls.set_proc Fls.dr_areas].
      rewrite Hdyn. reflexivity. }
    eexists. split; [reflexivity|]. by cbn.
Qed.

End FlsFacts.

(** ** Imports that are not registered *)

Section Unregistered.
Import Loader.

Lemma import_names_cons (img : pe_image)
    (descs : list IMAGE_IMPORT_DESCRIPTOR) (nm1 : string)
    (others : list string) :
  import_names img descs = nm1 :: others →
  ∃ d rest, descs = d :: rest ∧ (OriginalFirstThunk d =? 0) = false ∧
            nm1 = cstr img (Name d) ∧ others = import_names img rest.
Proof.
  destruct descs as [|d rest]; cbn [import_names]; [done|].
  destruct (OriginalFirstThunk d =? 0) eqn:Hoft; [done|].
  intros [= <- <-]. by exists d, rest.
Qed.

(** The walk of [privload_unload_imports] over imports none of which is
    registered unloads nothing. *)
Lemma unload_descriptors_unregistered (unload_rec : privmod_ptr → M bool)
    (img : pe_image) (descs : list IMAGE_IMPORT_DESCRIPTOR) (s : state) :
  (∀ nm, nm ∈ import_names img descs → privload_lookup nm s = None) →
  unload_descriptors unload_rec img descs s = Done true s.
Proof.
  induction descs as [|d rest IH]; intros Hnone; cbn [unload_descriptors];
    [done|].
  cbn [import_names] in Hnone.
  destruct (OriginalFirstThunk d =? 0); [done|].
  rewrite (bind_step _ _ s s None)
    by (unfold gets; by rewrite Hnone by left).
  rewrite (bind_step _ _ s s false) by reflexivity.
  apply IH. intros nm Hnm. apply Hnone. by right.
Qed.

End Unregistered.

(** ** Names that differ in case only *)

Section CaseInsensitive.
Import Loader.

Lemma find_mod_ext (p q : privmod_t → bool) (l : list (nat * privmod_t)) :
  (∀ m, p m = q m) → find_mod p l = find_mod q l.
Proof.
  intros Hpq. induction l as [|[a m] l IH]; cbn [find_mod]; [done|].
  by rewrite Hpq, IH.
Qed.

Lemma privload_lookup_case (nm nm' : string) (s : state) :
  lower nm' = lower nm → privload_lookup nm' s = privload_lookup nm s.
Proof.
  intros Hcase. unfold privload_lookup. apply find_mod_ext.
  intros m. by rewrite !strcasecmp_0, Hcase.
Qed.

End CaseInsensitive.

(** ** Where the records of a load are linked in *)

Section Placement.
Import Loader.

















End Placement.

(** * The claims *)

Import Loader.


(** The reverse order over the import relation is no invariant either.
    u.dll and v.dll import from each other: v.dll is loaded for u.dll and
    linked in behind it, and when v.dll's import of u.dll is bound, u.dll
    is found registered and stays where it is, in front of v.dll. *)
Lemma dependents_first_fails_for_a_cycle :
  observe (load_private_library Early.world_uv 10 "u.dll" Scenario.boot)
  = Returned 2013265920 ∧
  registry Early.uv_loaded
  = [("u.dll"%string, 2013265920, 2); ("v.dll"%string, 2080374784, 1)] ∧
  ¬ dependents_first Early.uv_loaded.
Proof.
  split; [vm_compute; reflexivity|]. split; [vm_compute; reflexivity|].
  intros Hord.
  set (mu := {| base := 2013265920; size := 65536; name := "u.dll";
                ref_count := 2; externally_loaded := false |}).
  set (mv := {| base := 2080374784; size := 65536; name := "v.dll";
                ref_count := 1; externally_loaded := false |}).
  assert (modlist Early.uv_loaded = [(1%nat, mu); (2%nat, mv)]) as Hl
    by (vm_compute; reflexivity).
  assert (imports_of Early.uv_loaded mv = ["u.dll"%string]) as Himp
    by (vm_compute; reflexivity).
  specialize (Hord 1%nat 0%nat (2%nat, mv) (1%nat, mu)).
  rewrite Hl in Hord.
  assert (1 < 0)%nat; [|lia].
  apply Hord; [reflexivity..|].
  exists "u.dll"%string. split; [|reflexivity].
  cbn [snd]. rewrite Himp. apply list_elem_of_here.
Qed.



(** C8: once the image is mapped, [privload_map_and_relocate] compares the
    base the kernel chose with the preferred one.  When they differ and the
    image is not relocatable, the image is unmapped again and NULL is
    returned, without any relocation being tried; when they differ and the
    image is relocatable, [module_rebase] is run over the image with the
    displacement [map - pref], and the outcome of the load is the outcome of
    the rebase.  (An image that landed on its preferred base is returned as
    it is.) *)
Theorem C8_map_and_relocate (W : world) (filename : string) (img : pe_image)
    (s : state) :
  let map := kernel_base W (views s) img in
  let pref := preferred_base img in
  files W filename = Some img →
  map ≠ 0 →
  ∃ r s',
    privload_map_and_relocate W filename s = Done (r, image_size img) s' ∧
    if decide (pref = map) then
      r = map ∧ trace s' = trace s ∧ views s' !! map = Some img
    else if relocatable img then
      trace s' = trace s ++ [EvRebase map (image_size img) (map - pref)] ∧
      if rebase_ok img then r = map ∧ views s' !! map = Some img
      else r = 0 ∧ views s' !! map = None
    else r = 0 ∧ trace s' = trace s ∧ views s' !! map = None.
Proof.
  intros map pref Hfile Hmap. unfold privload_map_and_relocate.
  rewrite Hfile. unfold bind at 1. unfold map_file. fold map.
  apply Z.eqb_neq in Hmap as Hmapb. rewrite Hmapb.
  match goal with |- context [bind _ _ ?st] => set (s1 := st) end.
  assert (views s1 !! map = Some img) as Hv1
    by (subst s1; cbn; apply lookup_insert_eq).
  assert (trace s1 = trace s) as Ht1 by reflexivity.
  assert (get_module_preferred_base s1 map = pref) as Hpref1
    by (unfold get_module_preferred_base; by rewrite Hv1).
  clearbody s1.
  unfold bind at 1. unfold gets at 1. rewrite Hpref1.
  destruct (decide (pref = map)) as [Heq|Hne].
  - rewrite Heq, Z.eqb_refl. cbn [negb]. unfold ret.
    eexists _, _. split; [reflexivity|]. done.
  - apply Z.eqb_neq in Hne as Hneb. rewrite Hneb. cbn [negb].
    unfold bind at 1. unfold gets at 1.
    unfold module_file_relocatable at 1. rewrite Hv1.
    destruct (relocatable img); cbn [negb].
    + unfold bind at 1. unfold module_rebase at 1. rewrite Hv1.
      destruct (rebase_ok img); cbn [negb].
      * unfold ret. eexists _, _. split; [reflexivity|]. cbn.
        by rewrite Ht1.
      * unfold bind, unmap_file, modify, ret.
        eexists _, _. split; [reflexivity|]. cbn.
        rewrite Ht1. by rewrite lookup_delete_eq.
    + unfold bind, unmap_file, modify, ret.
      eexists _, _. split; [reflexivity|]. cbn.
      by rewrite lookup_delete_eq.
Qed.

(** leaf.dll mapped a second time lands 0x100000 above its preferred base
    and is rebased by that much. *)
Lemma C8_map_and_relocate_witness :
  ∃ s', privload_map_and_relocate Scenario.world_leaf "leaf.dll"
          Scenario.leaf_loaded = Done (1343225856, 65536) s' ∧
        trace s' = [EvRebase 1343225856 65536 1048576] ∧
        views s' !! 1343225856 = Some Scenario.leaf_dll.
Proof.
  assert (files Scenario.world_leaf "leaf.dll" = Some Scenario.leaf_dll)
    as Hfile by reflexivity.
  assert (kernel_base Scenario.world_leaf (views Scenario.leaf_loaded)
            Scenario.leaf_dll = 1343225856) as Hmap
    by (vm_compute; reflexivity).
  destruct (C8_map_and_relocate Scenario.world_leaf "leaf.dll"
              Scenario.leaf_dll Scenario.leaf_loaded Hfile)
    as (r & s' & Hrun & Hcase).
  { rewrite Hmap. discriminate. }
  rewrite Hmap in Hcase.
  change (preferred_base Scenario.leaf_dll) with 1342177280 in Hcase.
  change (image_size Scenario.leaf_dll) with 65536 in Hrun, Hcase.
  rewrite decide_False in Hcase by discriminate.
  change (relocatable Scenario.leaf_dll) with true in Hcase.
  change (rebase_ok Scenario.leaf_dll) with true in Hcase.
  cbn iota in Hcase. destruct Hcase as (Htr & -> & Hv).
  exists s'. split; [exact Hrun|]. split; [|exact Hv].
  rewrite Htr. vm_compute. reflexivity.
Defined.

(** C10: a module whose entry address is NULL or equals its base is never
    called, whatever the reason code, and the dispatch counts as a success;
    so the finalisation of a load whose imports were bound succeeds for
    such a module. *)
Theorem C10_entry_absent_is_success (m : privmod_t) (s : state) :
  entry_absent s m →
  (∀ reason, privload_call_entry m reason s = Done true s) ∧
  (∀ W load_rec unload budget a m0 s0,
     deref (HeapNode a) s0 = Done m0 s0 →
     privload_process_imports W load_rec budget (HeapNode a)
       (if externally_loaded m0 then s0
        else set_areas (λ v, v ++ [(base m0, base m0 + size m0, a)]) s0)
     = Done true s →
     deref (HeapNode a) s = Done m s →
     privload_load_finalize W load_rec unload budget (HeapNode a) s0
     = Done true s).
Proof.
  intros Habs. split.
  - intros reason. by apply privload_call_entry_absent.
  - intros W load_rec unload budget a m0 s0 Hd0 Himp Hd.
    by eapply privload_load_finalize_no_entry.
Qed.

(** leaf.dll has entry RVA 0, so its entry address equals its base; every
    reason code is a success without a call. *)
Lemma C10_entry_absent_is_success_witness :
  let leaf := {| base := 1342177280; size := 65536; name := "leaf.dll";
                 ref_count := 1; externally_loaded := false |} in
  privload_call_entry leaf DLL_PROCESS_ATTACH Scenario.leaf_loaded
  = Done true Scenario.leaf_loaded ∧
  privload_call_entry leaf DLL_THREAD_DETACH Scenario.leaf_loaded
  = Done true Scenario.leaf_loaded.
Proof.
  intros leaf.
  assert (entry_absent Scenario.leaf_loaded leaf) as Habs
    by (right; vm_compute; reflexivity).
  destruct (C10_entry_absent_is_success leaf Scenario.leaf_loaded Habs)
    as [Hcall _].
  split; apply Hcall.
Defined.

(** C9: [unload_private_library] returns true only when the decrement
    takes the reference count to zero, and then the module has left the
    registry and, unless it was externally loaded, its image is unmapped.
    When the base is known and the count stays positive the module stays
    registered with the decremented count and the result is false, which is
    also the result for a base that is not registered. *)
Theorem C9_unload_private_library_result (fuel : nat) (modbase : Z)
    (s : state) :
  NoDup (modlist s).*1 →
  match privload_lookup_by_base modbase s with
  | None => unload_private_library fuel modbase s = Done false s
  | Some p =>
      ∃ a m,
        p = HeapNode a ∧ node_record a (modlist s) = Some m ∧
        base m = modbase ∧
        let rc := uint (ref_count m - 1) in
        (rc ≠ 0 →
         unload_private_library (S fuel) modbase s
         = Done false (set_modlist (update_node a (with_ref_count rc)) s)) ∧
        (∀ r s',
           unload_private_library fuel modbase s = Done r s' →
           if r then
             rc = 0 ∧ node_record a (modlist s') = None ∧
             (externally_loaded m = false → views s' !! modbase = None)
           else
             rc ≠ 0 ∧
             node_record a (modlist s') = Some (with_ref_count rc m))
  end.
Proof.
  intros Hnd. unfold unload_private_library, bind, gets.
  destruct (privload_lookup_by_base modbase s) as [p|] eqn:Hl; [|reflexivity].
  apply find_mod_Some in Hl as (a & m & -> & Hin & Hbase).
  apply Z.eqb_eq in Hbase. symmetry in Hbase.
  pose proof (node_record_elem _ _ _ Hnd Hin) as Hrec.
  exists a, m. split; [done|]. split; [done|]. split; [done|].
  cbv zeta. set (rc := uint (ref_count m - 1)). split.
  - intros Hrc. cbn [privload_unload]. unfold privload_unload_body.
    unfold bind, deref, modify. rewrite Hrec. fold rc.
    apply Z.eqb_neq in Hrc. by rewrite Hrc.
  - intros r s' Hrun. destruct fuel as [|n]; [discriminate|].
    cbn [privload_unload] in Hrun. unfold privload_unload_body in Hrun.
    apply bind_done in Hrun as (m' & s1 & Hd & Hrun).
    unfold deref in Hd. rewrite Hrec in Hd. injection Hd as <- <-.
    apply bind_done in Hrun as ([] & s2 & Hmod & Hrun).
    injection Hmod as <-. fold rc in Hrun.
    destruct (rc =? 0) eqn:Hrc.
    + apply Z.eqb_eq in Hrc.
      apply bind_done in Hrun as ([] & s3 & Hmod & Hrun).
      injection Hmod as <-.
      apply bind_done in Hrun as ([] & s4 & Hblock & Hrun).
      injection Hrun as <- <-. split; [done|].
      match type of Hblock with _ ?st = _ => set (s3 := st) in * end.
      assert (node_record a (modlist s3) = None) as Habs.
      { subst s3. apply node_record_unlink_node_same.
        unfold nodes. cbn. by rewrite update_node_keys. }
      destruct (externally_loaded m); cbn [negb] in Hblock.
      * injection Hblock as <-. split; [done|]. discriminate.
      * apply bind_done in Hblock as (r1 & s5 & Hentry & Hblock).
        apply bind_done in Hblock as (r2 & s6 & Himp & Hblock).
        apply bind_done in Hblock as ([] & s7 & Hrem & Hblock).
        injection Hblock as <-. split; [|intros _; cbn; rewrite <- Hbase; by rewrite lookup_delete_eq].
        cbn. injection Hrem as <-. cbn.
        eapply (privload_unload_imports_keeps_absent n m); [exact Himp|].
        eapply (respects_call_entry keeps_absent); [|exact Hentry|exact Habs].
        apply keeps_absent_registry_only.
    + apply Z.eqb_neq in Hrc. injection Hrun as <- <-. split; [done|].
      cbn. rewrite node_record_update_node, decide_True by done.
      by rewrite Hrec.
Qed.

(** leaf.dll, loaded once: the single unload returns true, the module is
    gone from the registry and its image is unmapped. *)
Lemma C9_unload_private_library_result_witness :
  ∃ s', unload_private_library 10 1342177280 Scenario.leaf_loaded
        = Done true s' ∧
        node_record 1 (modlist s') = None ∧ views s' !! 1342177280 = None.
Proof.
  assert (NoDup (modlist Scenario.leaf_loaded).*1) as Hnd.
  { vm_compute. apply NoDup_singleton. }
  pose proof (C9_unload_private_library_result 10 1342177280
                Scenario.leaf_loaded Hnd) as Hres.
  assert (privload_lookup_by_base 1342177280 Scenario.leaf_loaded
          = Some (HeapNode 1)) as Hl by (vm_compute; reflexivity).
  rewrite Hl in Hres. destruct Hres as (a & m & [= <-] & Hrec & _ & _ & Htrue).
  assert (observe (unload_private_library 10 1342177280 Scenario.leaf_loaded)
          = Returned true) as Hobs by (vm_compute; reflexivity).
  destruct (unload_private_library 10 1342177280 Scenario.leaf_loaded)
    as [r s'| |] eqn:Hrun; cbn in Hobs; try discriminate.
  injection Hobs as ->.
  assert (node_record 1 (modlist Scenario.leaf_loaded)
          = Some {| base := 1342177280; size := 65536; name := "leaf.dll";
                    ref_count := 1; externally_loaded := false |}) as Hm
    by (vm_compute; reflexivity).
  rewrite Hm in Hrec. injection Hrec as <-.
  destruct (Htrue true s' eq_refl) as (_ & Habs & Hunmapped).
  exists s'. split; [reflexivity|]. split; [exact Habs|by apply Hunmapped].
Defined.

(** C2 (the code departs from the claim): an import slot with the ordinal
    bit set makes [privload_process_one_import] return true without
    touching anything, so the slot of the address table is indeed left
    alone, but the load goes on and succeeds.  o.dll, whose only import is
    ordinal 7 of b.dll, loads, is registered, and its slot is never
    written. *)
Theorem C2_ordinal_import_is_skipped :
  (∀ W load_rec budget privmod impmod lookup address s,
     TEST (IMAGE_ORDINAL_FLAG W) lookup = true →
     privload_process_one_import W load_rec budget privmod impmod lookup
       address s = Done true s) ∧
  let run := load_private_library Scenario.world_ordinal 10 "o.dll"
               Scenario.boot in
  thunks Scenario.o_dll 12288 = [Z.lor (2 ^ 31) 7] ∧
  observe run = Returned 805306368 ∧
  registry (state_of Scenario.boot run)
  = [("o.dll"%string, 805306368, 1); ("b.dll"%string, 268435456, 1)] ∧
  cells (state_of Scenario.boot run) !! (805306368 + 20480) = None.
Proof.
  split.
  - intros. by apply privload_process_one_import_ordinal.
  - repeat split; vm_compute; reflexivity.
Qed.

(** C3 (the code departs from the claim): when an import cannot be
    resolved, [privload_process_imports] returns false from inside the slot
    loop, past the call that would restore the page.  m.dll imports a name
    b.dll does not export: the call returns false and the page of its
    address table, read-only (2) before, is left PAGE_READWRITE (4).  With
    two libraries that import from each other the module even stays
    registered after the failed load, its page still writable. *)
Theorem C3_failed_import_leaves_page_writable :
  let W := Scenario.world_missing in
  let run := privload_process_imports W (privload_load W 9) 9 (HeapNode 1)
               Scenario.m_inserted in
  let page := PAGE_START (1073741824 + 20480) in
  observe run = Returned false ∧
  page_prot Scenario.m_inserted !! page = Some 2 ∧
  page_prot (state_of Scenario.boot run) !! page = Some PAGE_READWRITE ∧
  let run2 := load_private_library Scenario.world_mutual 10 "x.dll"
                Scenario.boot in
  let page2 := PAGE_START (1207959552 + 20480) in
  observe run2 = Returned 0 ∧
  registry (state_of Scenario.boot run2)
  = [("x.dll"%string, 1207959552, 1); ("y.dll"%string, 1476395008, 1)] ∧
  page_prot (state_of Scenario.boot run2) !! page2 = Some PAGE_READWRITE.
Proof. repeat split; vm_compute; reflexivity. Qed.

(** C4 (the code departs from the claim): a load of a library that is
    already registered returns its base and changes nothing, the reference
    count included.  So after two loads of leaf.dll the count is still 1,
    the first unload removes the module, and the second finds nothing to
    unload. *)
Theorem C4_second_load_takes_no_reference :
  (∀ W fuel filename p m s,
     privload_lookup filename s = Some p → deref p s = Done m s →
     load_private_library W fuel filename s = Done (base m) s) ∧
  let W := Scenario.world_leaf in
  observe (load_private_library W 10 "leaf.dll" Scenario.boot)
  = Returned 1342177280 ∧
  observe (load_private_library W 10 "leaf.dll" Scenario.leaf_loaded)
  = Returned 1342177280 ∧
  registry Scenario.leaf_loaded_twice = [("leaf.dll"%string, 1342177280, 1)] ∧
  observe (unload_private_library 10 1342177280 Scenario.leaf_loaded_twice)
  = Returned true ∧
  resident Scenario.leaf_unloaded_once 1342177280 = false ∧
  observe (unload_private_library 10 1342177280 Scenario.leaf_unloaded_once)
  = Returned false.
Proof.
  split.
  - intros W fuel filename p m s Hl Hd.
    by apply (load_private_library_resident W fuel filename p m s).
  - repeat split; vm_compute; reflexivity.
Qed.

(** C5 (the code departs from the claim): the header word holds the total
    size and [redirect_RtlSizeHeap] returns that word as it is.  For a
    request of 64 bytes on a 64-bit host the pointer handed out is 8 bytes
    into the block, the header holds 72, the reported size is 72 and not
    64, and the free returns true. *)
Theorem C5_size_heap_reports_header_too :
  let H := HeapScenario.host64 in
  let heap := Heap.ProcessHeap H in
  let s := HeapScenario.after_alloc64 in
  let p := 1895825416 in
  Heap.redirect_RtlAllocateHeap H heap 0 64 HeapScenario.empty_heap
  = Done p s ∧
  Heap.blocks s = {[ p - 8 := 72 ]} ∧
  Heap.load_size_t H (p - 8) s = Done 72 s ∧
  Heap.redirect_RtlSizeHeap H heap 0 p s = Done 72 s ∧
  observe (Heap.redirect_RtlFreeHeap H heap 0 p s) = Returned true.
Proof.
  intros H heap s p. subst heap.
  assert (Heap.redirect_RtlAllocateHeap H (Heap.ProcessHeap H) 0 64
            HeapScenario.empty_heap = Done p s) as Hal by (vm_compute; reflexivity).
  assert (8 ≤ p < 2 ^ 64) as Hp by (subst p; lia).
  assert (Heap.is_dynamo_address H p = true) as Hdyn by reflexivity.
  split; [exact Hal|]. split; [vm_compute; reflexivity|].
  split; [|split].
  - apply (redirect_RtlAllocateHeap_header H 0 64 p) in Hal as [_ Hld];
      [exact Hld|subst p; lia].
  - exact (redirect_RtlSizeHeap_after_alloc H 0 0 64 p _ s Hal Hp Hdyn).
  - by rewrite (redirect_RtlFreeHeap_after_alloc H 0 0 64 p _ s Hal Hp Hdyn).
Qed.

(** C6 (the code departs from the claim): NULL is not a host address, so
    free and size of NULL on the process heap are handed to the real ntdll
    and return what it returns (here: success, and the failure value); and
    reallocation of NULL allocates and then reads the size of the old block
    one word below address 0, which faults. *)
Theorem C6_null_pointer_is_not_handled :
  let H := HeapScenario.host64 in
  let heap := Heap.ProcessHeap H in
  let s := HeapScenario.after_alloc64 in
  Heap.is_dynamo_address H 0 = false ∧
  observe (Heap.redirect_RtlFreeHeap H heap 0 0 s) = Returned true ∧
  Heap.native (state_of s (Heap.redirect_RtlFreeHeap H heap 0 0 s))
  = [Heap.NtFreeHeap heap 0 0] ∧
  observe (Heap.redirect_RtlSizeHeap H heap 0 0 s) = Returned (2 ^ 64 - 1) ∧
  Heap.native (state_of s (Heap.redirect_RtlSizeHeap H heap 0 0 s))
  = [Heap.NtSizeHeap heap 0 0] ∧
  observe (Heap.redirect_RtlAllocateHeap H heap 0 16 s) = Returned 1895825488 ∧
  Heap.redirect_RtlReAllocateHeap H heap 0 0 16 s = Crash.
Proof.
  intros H heap s. subst heap.
  assert (Heap.is_dynamo_address H 0 = false) as Hnull by reflexivity.
  split; [exact Hnull|].
  rewrite (redirect_RtlFreeHeap_null H (Heap.ProcessHeap H) 0 s Hnull).
  rewrite (redirect_RtlSizeHeap_null H (Heap.ProcessHeap H) 0 s Hnull).
  split; [vm_compute; reflexivity|]. split; [vm_compute; reflexivity|].
  split; [vm_compute; reflexivity|]. split; [vm_compute; reflexivity|].
  split; vm_compute; reflexivity.
Qed.

(** C7 (the code departs from the claim): the terminator of the file name
    built from a forwarder is stored one character too far, so the
    character that follows "dll" is whatever an earlier forwarder left in
    the static buffer.  fwd.dll imports Sleep, forwarded to KERNELBASE, and
    then EnterCriticalSection, forwarded to NTDLL: the second file name
    comes out as "NTDLL.dllE", no such library is found and the load fails.
    With the two imports in the other order the load succeeds. *)
Theorem C7_forwarder_name_keeps_stale_byte :
  let W := Scenario.world_forward in
  let run := load_private_library W 10 "fwd.dll" Scenario.boot in
  observe run = Returned 0 ∧
  cstring (forwmodpath (state_of Scenario.boot run)) = "NTDLL.dllE"%string ∧
  cstring (<[10%nat := NUL]>
             (snprintf (snprintf (replicate MAXIMUM_PATH NUL) 0 6
                          "NTDLL.RtlEnterCriticalSection") 6 3 "dll"))
  = "NTDLL.dll"%string ∧
  observe (load_private_library W 10 "fwd2.dll" Scenario.boot)
  = Returned 1610612736.
Proof. repeat split; vm_compute; reflexivity. Qed.

(** * Further properties of the heap redirection *)

Section MoreHeap.
Import Heap.

(** When the host heap has room, [redirect_RtlAllocateHeap] on the process
    heap returns the address one word past the start of a new host block of
    [n + sizeof(size_t)] bytes, makes no native call, leaves every other
    block and every byte outside the new block as it was, and the [n] bytes
    handed out are readable. *)
Theorem redirect_RtlAllocateHeap_frame (H : host) (flags n : Z)
    (s : heap_state) :
  let w := sizeof_size_t (X64 H) in
  let mem := heap_place H (blocks s) (n + w) in
  0 ≤ n → n + w < 2 ^ (8 * w) → mem ≠ 0 →
  ∃ s', redirect_RtlAllocateHeap H (ProcessHeap H) flags n s
        = Done (mem + w) s' ∧
        blocks s' = <[mem := n + w]> (blocks s) ∧
        native s' = native s ∧
        (∀ x, x < mem ∨ mem + (n + w) ≤ x → bytes s' !! x = bytes s !! x) ∧
        (∀ i, 0 ≤ i < n → is_Some (bytes s' !! (mem + w + i))).
Proof.
  intros w mem Hn Hsz Hmem.
  destruct (redirect_RtlAllocateHeap_done H flags n s Hn Hsz Hmem)
    as (s' & Hrun & Hbl & Hnat & _ & Hout & Hin).
  exists s'. split_and!; try done.
  intros i Hi. eexists. exact (Hin i Hi).
Qed.

Lemma redirect_RtlAllocateHeap_frame_witness :
  ∃ s', redirect_RtlAllocateHeap HeapScenario.host64 1376256 0 64
          HeapScenario.empty_heap = Done 1895825416 s' ∧
        blocks s' = {[ 1895825408 := 72 ]} ∧
        bytes s' !! 1895825407 = None.
Proof.
  destruct (redirect_RtlAllocateHeap_frame HeapScenario.host64 0 64
              HeapScenario.empty_heap)
    as (s' & Hrun & Hbl & _ & Hout & _); [lia|reflexivity|discriminate|].
  exists s'. split; [exact Hrun|]. split; [exact Hbl|].
  rewrite Hout; [reflexivity|].
  left. vm_compute. reflexivity.
Defined.

(** With [HEAP_ZERO_MEMORY] in the flags, every byte of the block handed
    out reads as zero. *)
Theorem redirect_RtlAllocateHeap_zeroes (H : host) (flags n p : Z)
    (s s' : heap_state) :
  let w := sizeof_size_t (X64 H) in
  TEST HEAP_ZERO_MEMORY flags = true →
  0 ≤ n → n + w < 2 ^ (8 * w) →
  redirect_RtlAllocateHeap H (ProcessHeap H) flags n s = Done p s' →
  p ≠ 0 →
  ∀ i, 0 ≤ i < n → bytes s' !! (p + i) = Some 0.
Proof.
  intros w Hz Hn Hsz Hrun Hp i Hi.
  pose proof (sizeof_size_t_pos (X64 H)) as Hw. fold w in Hw.
  destruct (redirect_RtlAllocateHeap_header _ _ _ _ _ _ Hrun Hp)
    as [Hplace _].
  fold w in Hplace. rewrite wrap_small in Hplace by (fold w; lia).
  destruct (redirect_RtlAllocateHeap_done H flags n s Hn Hsz)
    as (s0 & Hrun0 & _ & _ & _ & _ & Hin).
  { fold w. rewrite Hplace.
    intros Hzero. unfold redirect_RtlAllocateHeap in Hrun.
    rewrite Z.eqb_refl in Hrun. fold w in Hrun.
    rewrite wrap_small in Hrun by (fold w; lia).
    unfold bind, global_heap_alloc in Hrun.
    rewrite Hplace, Hzero in Hrun. cbn in Hrun. injection Hrun as <- _.
    done. }
  fold w in Hrun0, Hin. rewrite Hplace in Hrun0, Hin.
  replace (p - w + w) with p in Hrun0, Hin by lia.
  rewrite Hrun in Hrun0. injection Hrun0 as <-.
  rewrite (Hin i Hi), Hz. done.
Qed.

Lemma redirect_RtlAllocateHeap_zeroes_witness :
  let s' := state_of HeapScenario.empty_heap
              (redirect_RtlAllocateHeap HeapScenario.host64 1376256 8 64
                 HeapScenario.empty_heap) in
  bytes s' !! (1895825416 + 0) = Some 0 ∧
  bytes s' !! (1895825416 + 63) = Some 0.
Proof.
  cbv zeta.
  remember (redirect_RtlAllocateHeap HeapScenario.host64 1376256 8 64
              HeapScenario.empty_heap) as run eqn:Erun.
  remember (state_of HeapScenario.empty_heap run) as s' eqn:Es'.
  assert (run = Done 1895825416 s') as Hrun
    by (rewrite Es', Erun; vm_compute; reflexivity).
  clear Es'. rewrite Erun in Hrun. clear Erun.
  pose proof (redirect_RtlAllocateHeap_zeroes HeapScenario.host64 8 64
                1895825416 HeapScenario.empty_heap s' eq_refl
                ltac:(lia) eq_refl Hrun ltac:(discriminate)) as Hz.
  split; apply Hz; lia.
Defined.

(** Allocation followed by free gives the block back: the host heap has
    the blocks it had before, no native call was made, and no byte outside
    the block has changed. *)
Theorem redirect_RtlFreeHeap_returns_block (H : host) (flags flags' n : Z)
    (s : heap_state) :
  let w := sizeof_size_t (X64 H) in
  let mem := heap_place H (blocks s) (n + w) in
  0 ≤ n → n + w < 2 ^ (8 * w) →
  0 < mem → mem + w < 2 ^ (8 * w) →
  blocks s !! mem = None →
  is_dynamo_address H (mem + w) = true →
  ∃ s1 s2,
    redirect_RtlAllocateHeap H (ProcessHeap H) flags n s = Done (mem + w) s1 ∧
    redirect_RtlFreeHeap H (ProcessHeap H) flags' (mem + w) s1 = Done true s2 ∧
    blocks s2 = blocks s ∧ native s2 = native s ∧
    (∀ x, x < mem ∨ mem + (n + w) ≤ x → bytes s2 !! x = bytes s !! x).
Proof.
  intros w mem Hn Hsz Hmem Htop Hfresh Hdyn.
  pose proof (sizeof_size_t_pos (X64 H)) as Hw. fold w in Hw.
  destruct (redirect_RtlAllocateHeap_done H flags n s Hn Hsz)
    as (s1 & Hrun & Hbl & Hnat & _ & Hout & _); [fold w mem; lia|].
  fold w mem in Hrun, Hbl, Hout.
  exists s1, (set_blocks (delete (mem + w - w)) s1).
  split; [exact Hrun|]. split.
  - apply (redirect_RtlFreeHeap_after_alloc H flags flags' n (mem + w) s s1);
      [exact Hrun|fold w; lia|exact Hdyn].
  - cbn. rewrite Hbl. replace (mem + w - w) with mem by lia.
    split; [by apply delete_insert_id|]. split; [done|]. exact Hout.
Qed.

Lemma redirect_RtlFreeHeap_returns_block_witness :
  ∃ s1 s2,
    redirect_RtlAllocateHeap HeapScenario.host64 1376256 0 64
      HeapScenario.empty_heap = Done 1895825416 s1 ∧
    redirect_RtlFreeHeap HeapScenario.host64 1376256 0 1895825416 s1
    = Done true s2 ∧
    blocks s2 = ∅.
Proof.
  destruct (redirect_RtlFreeHeap_returns_block HeapScenario.host64 0 0 64
              HeapScenario.empty_heap)
    as (s1 & s2 & Hal & Hfr & Hbl & _);
    [lia|reflexivity|reflexivity|reflexivity|reflexivity|reflexivity|].
  exists s1, s2. split; [exact Hal|]. split; [exact Hfr|exact Hbl].
Defined.

(** [redirect_RtlReAllocateHeap] on a block of the redirected allocator:
    it allocates the new block, copies as many bytes as the smaller of the
    new size and the old header word (the old total, header included), and
    frees the old block.  Stated for an old block whose bytes to be copied
    are readable and a new block placed apart from it. *)
Theorem redirect_RtlReAllocateHeap_copies (H : host) (flags ptr m total : Z)
    (s : heap_state) :
  let w := sizeof_size_t (X64 H) in
  let mem := heap_place H (blocks s) (m + w) in
  let k := Z.min total m in
  is_dynamo_address H ptr = true →
  w ≤ ptr < 2 ^ (8 * w) →
  load_size_t H (ptr - w) s = Done total s → 0 ≤ total →
  0 ≤ m → m + w < 2 ^ (8 * w) → 0 < mem →
  (∀ i, 0 ≤ i < k → is_Some (bytes s !! (ptr + i))) →
  mem + (m + w) ≤ ptr - w ∨ ptr + k ≤ mem →
  ∃ s', redirect_RtlReAllocateHeap H (ProcessHeap H) flags ptr m s
        = Done (mem + w) s' ∧
        (∀ i, 0 ≤ i < k → bytes s' !! (mem + w + i) = bytes s !! (ptr + i)) ∧
        blocks s' = delete (ptr - w) (<[mem := m + w]> (blocks s)) ∧
        native s' = native s.
Proof.
  intros w mem k Hdyn Hptr Hhdr Htotal Hm Hsz Hmem Hsrc Hapart.
  pose proof (sizeof_size_t_pos (X64 H)) as Hw. fold w in Hw.
  assert (Z.of_nat (Z.to_nat w) = w) as Hwn by lia.
  assert (0 ≤ k) as Hk by (subst k; lia).
  assert (k ≤ m) as Hkm by (subst k; lia).
  destruct (redirect_RtlAllocateHeap_done H flags m s Hm Hsz)
    as (s1 & Hal & Hbl1 & Hnat1 & _ & Hout1 & Hin1); [fold w mem; lia|].
  fold w mem in Hal, Hbl1, Hout1, Hin1.
  (* the header of the old block is still there after the allocation *)
  assert (load_size_t H (ptr - w) s1 = Done total s1) as Hhdr1.
  { unfold load_size_t in *. fold w in Hhdr |- *.
    eapply load_le_ext; [|exact Hhdr].
    intros i Hi. apply Hout1. lia. }
  destruct (memcpy_disjoint (Z.to_nat k) (mem + w) ptr s1)
    as (s2 & Hcp & Hbl2 & Hnat2 & Hin2 & Hout2).
  { intros i Hi. rewrite Hout1 by lia. apply Hsrc. lia. }
  { intros i Hi. rewrite Hin1 by lia. eauto. }
  { lia. }
  rewrite Z2Nat.id in Hin2, Hout2 by lia.
  assert (load_size_t H (ptr - w) s2 = Done total s2) as Hhdr2.
  { unfold load_size_t in *. fold w in Hhdr1 |- *.
    eapply load_le_ext; [|exact Hhdr1].
    intros i Hi. apply Hout2. lia. }
  exists (set_blocks (delete (ptr - w)) s2).
  unfold redirect_RtlReAllocateHeap.
  rewrite Z.eqb_refl, Hdyn. cbn [andb orb].
  unfold bind at 1. rewrite Hal.
  replace (mem + w =? 0) with false by (symmetry; apply Z.eqb_neq; lia).
  cbn [negb]. unfold bind at 1. unfold bind at 1. fold w.
  rewrite wrap_small by (fold w; lia). rewrite Hhdr1.
  fold k. rewrite Hcp.
  unfold bind at 1. unfold redirect_RtlFreeHeap.
  rewrite Z.eqb_refl, Hdyn. cbn [andb].
  replace (ptr =? 0) with false by (symmetry; apply Z.eqb_neq; lia).
  cbn [negb]. fold w. rewrite wrap_small by (fold w; lia).
  unfold bind at 1. rewrite Hhdr2.
  split; [reflexivity|]. cbn. split; [|split].
  - intros i Hi. rewrite Hin2 by lia. apply Hout1. lia.
  - by rewrite Hbl2, Hbl1.
  - by rewrite Hnat2, Hnat1.
Qed.

Lemma redirect_RtlReAllocateHeap_copies_witness :
  ∃ s', redirect_RtlReAllocateHeap HeapScenario.host64 1376256 0 1895825416 16
          HeapScenario.after_alloc64 = Done 1895825488 s' ∧
        blocks s' = {[ 1895825480 := 24 ]}.
Proof.
  destruct (redirect_RtlAllocateHeap_done HeapScenario.host64 0 64
              HeapScenario.empty_heap)
    as (s0 & Hal & _ & _ & Hhdr & _ & Hin); [lia|reflexivity|discriminate|].
  assert (HeapScenario.after_alloc64 = s0) as Hs0.
  { unfold HeapScenario.after_alloc64. by rewrite Hal. }
  change (heap_place HeapScenario.host64 (blocks HeapScenario.empty_heap)
            (64 + sizeof_size_t (X64 HeapScenario.host64)))
    with 1895825408 in Hhdr, Hin.
  change (sizeof_size_t (X64 HeapScenario.host64)) with 8 in Hhdr, Hin.
  assert (heap_place HeapScenario.host64 (blocks HeapScenario.after_alloc64)
            (16 + 8) = 1895825480) as Hplace by (vm_compute; reflexivity).
  destruct (redirect_RtlReAllocateHeap_copies HeapScenario.host64 0
              1895825416 16 72 HeapScenario.after_alloc64)
    as (s' & Hrun & _ & Hbl & _).
  - reflexivity.
  - change (8 ≤ 1895825416 < 2 ^ 64). lia.
  - rewrite Hs0. exact Hhdr.
  - lia.
  - lia.
  - change (16 + 8 < 2 ^ 64). lia.
  - change (sizeof_size_t (X64 HeapScenario.host64)) with 8.
    rewrite Hplace. lia.
  - intros i Hi. rewrite Hs0.
    replace (1895825416 + i) with (1895825408 + 8 + i) by lia.
    rewrite Hin by lia. eauto.
  - right. change (sizeof_size_t (X64 HeapScenario.host64)) with 8.
    rewrite Hplace. lia.
  - exists s'. split; [exact Hrun|]. rewrite Hbl.
    change (sizeof_size_t (X64 HeapScenario.host64)) with 8.
    rewrite Hplace. vm_compute. reflexivity.
Defined.

End MoreHeap.

(** * Further properties of the loader *)

Section MoreRegistry.

(** [privload_lookup] returns the first record, from the front of the
    list, whose name equals the given one up to letter case, and NULL
    exactly when no record has such a name; [privload_lookup_by_base] does
    the same for the base address.  Neither ever returns a slot of the
    static array. *)
Theorem privload_lookup_first_match (nm : string) (modbase : Z) (s : state) :
  match privload_lookup nm s with
  | Some p =>
      ∃ a m l1 l2, p = HeapNode a ∧ modlist s = l1 ++ (a, m) :: l2 ∧
                   lower nm = lower (name m) ∧
                   ∀ x, x ∈ l1 → lower nm ≠ lower (name x.2)
  | None => ∀ x, x ∈ modlist s → lower nm ≠ lower (name x.2)
  end ∧
  match privload_lookup_by_base modbase s with
  | Some p =>
      ∃ a m l1 l2, p = HeapNode a ∧ modlist s = l1 ++ (a, m) :: l2 ∧
                   base m = modbase ∧ ∀ x, x ∈ l1 → base x.2 ≠ modbase
  | None => ∀ x, x ∈ modlist s → base x.2 ≠ modbase
  end.
Proof.
  split.
  - unfold privload_lookup.
    pose proof (find_mod_first (λ m, strcasecmp nm (name m) =? 0) (modlist s))
      as Hfirst.
    destruct (find_mod _ _) as [p|].
    + destruct Hfirst as (a & m & l1 & l2 & -> & Hl & Hm & Hl1).
      exists a, m, l1, l2. split_and!; try done.
      * rewrite strcasecmp_0 in Hm. by apply bool_decide_eq_true in Hm.
      * intros x Hx. specialize (Hl1 x Hx). cbn beta in Hl1.
        rewrite strcasecmp_0 in Hl1. by apply bool_decide_eq_false in Hl1.
    + intros x Hx. specialize (Hfirst x Hx). cbn beta in Hfirst.
      rewrite strcasecmp_0 in Hfirst. by apply bool_decide_eq_false in Hfirst.
  - unfold privload_lookup_by_base.
    pose proof (find_mod_first (λ m, modbase =? base m) (modlist s))
      as Hfirst.
    destruct (find_mod _ _) as [p|].
    + destruct Hfirst as (a & m & l1 & l2 & -> & Hl & Hm & Hl1).
      exists a, m, l1, l2. split_and!; try done.
      * apply Z.eqb_eq in Hm. done.
      * intros x Hx. specialize (Hl1 x Hx). cbn beta in Hl1.
        apply Z.eqb_neq in Hl1. done.
    + intros x Hx. specialize (Hfirst x Hx). cbn beta in Hfirst.
      apply Z.eqb_neq in Hfirst. done.
Qed.



(** [privload_redirect_imports] redirects exactly the routines of its two
    tables: an import from a module called ntdll.dll (kernel32.dll), in any
    letter case, of a name of the ntdll (kernel32) table, in any letter
    case, is given the address of that entry's replacement; and a result
    other than NULL only comes from such an entry. *)
Theorem privload_redirect_imports_table (W : world) (impmod : privmod_t)
    (nm : string) :
  (∀ n f, (n, f) ∈ redirect_ntdll →
          lower (name impmod) = "ntdll.dll"%string → lower nm = lower n →
          privload_redirect_imports W impmod nm = redirect_addr W f) ∧
  (∀ n f, (n, f) ∈ redirect_kernel32 →
          lower (name impmod) = "kernel32.dll"%string → lower nm = lower n →
          privload_redirect_imports W impmod nm = redirect_addr W f) ∧
  (privload_redirect_imports W impmod nm ≠ 0 →
   (lower (name impmod) = "ntdll.dll"%string ∧
    ∃ n f, (n, f) ∈ redirect_ntdll ∧ lower nm = lower n) ∨
   (lower (name impmod) = "kernel32.dll"%string ∧
    ∃ n f, (n, f) ∈ redirect_kernel32 ∧ lower nm = lower n)).
Proof.
  unfold privload_redirect_imports. rewrite !strcasecmp_0.
  change (lower "ntdll.dll") with "ntdll.dll"%string.
  change (lower "kernel32.dll") with "kernel32.dll"%string.
  split_and!.
  - intros n f Hin Hmod Hnm. rewrite bool_decide_eq_true_2 by done.
    apply (redirect_scan_entry W nm n f); [|done..].
    apply (bool_decide_unpack _). vm_compute. exact I.
  - intros n f Hin Hmod Hnm.
    rewrite bool_decide_eq_false_2 by (rewrite Hmod; discriminate).
    rewrite bool_decide_eq_true_2 by done.
    apply (redirect_scan_entry W nm n f); [|done..].
    apply (bool_decide_unpack _). vm_compute. exact I.
  - destruct (bool_decide_reflect (lower (name impmod) = "ntdll.dll"%string))
      as [Hnt|Hnt].
    { intros Hnz%redirect_scan_nonzero. by left. }
    destruct (bool_decide_reflect
                (lower (name impmod) = "kernel32.dll"%string)) as [Hk|Hk].
    { intros Hnz%redirect_scan_nonzero. by right. }
    done.
Qed.

End MoreRegistry.

Section MoreSearch.

(** [privload_locate_and_load] goes through the client library
    directories in the order in which they were recorded, then the system
    directory and the Windows directory (the last two only when the system
    root is known).  When no candidate file exists it returns NULL and
    changes nothing; and the first candidate that exists is the one that is
    loaded, and when that load succeeds its module is the result. *)
Theorem privload_locate_and_load_order (W : world)
    (load_rec : string → option privmod_ptr → M (option privmod_ptr))
    (nm : string) (dep : privmod_ptr) (s : state) :
  ((∀ c, c ∈ search_candidates s nm → os_file_exists W c = false) →
   privload_locate_and_load W load_rec (λ _, nm) dep s = Done None s) ∧
  (∀ l1 c l2 p s',
     search_candidates s nm = l1 ++ c :: l2 →
     (∀ x, x ∈ l1 → os_file_exists W x = false) →
     os_file_exists W c = true →
     load_rec c (Some dep) s = Done (Some p) s' →
     privload_locate_and_load W load_rec (λ _, nm) dep s = Done (Some p) s').
Proof.
  unfold privload_locate_and_load, search_candidates, bind, gets.
  apply locate_client_dirs_order.
Qed.

(** In the state right after initialisation with system root C:/windows and
    no client library, b.dll is looked for in C:/windows/system32 first. *)
Lemma privload_locate_and_load_order_witness :
  ∃ s', privload_locate_and_load Scenario.world_ab
          (privload_load Scenario.world_ab 9) (λ _, "b.dll"%string)
          (HeapNode 1) Scenario.a_inserted = Done (Some (HeapNode 2)) s'.
Proof.
  remember (privload_load Scenario.world_ab 9 "C:/windows/system32/b.dll"
              (Some (HeapNode 1)) Scenario.a_inserted) as run eqn:Erun.
  remember (state_of Scenario.boot run) as s' eqn:Es'.
  assert (run = Done (Some (HeapNode 2)) s') as Hrun
    by (rewrite Es', Erun; vm_compute; reflexivity).
  clear Es'. rewrite Erun in Hrun. clear Erun. exists s'.
  apply (proj2 (privload_locate_and_load_order Scenario.world_ab
                  (privload_load Scenario.world_ab 9) "b.dll" (HeapNode 1)
                  Scenario.a_inserted)
           [] "C:/windows/system32/b.dll"%string ["C:/windows/b.dll"%string]);
    [reflexivity| |reflexivity|exact Hrun].
  intros x Hx. by apply elem_of_nil in Hx.
Defined.

End MoreSearch.

Section MoreUnload.



(** When [privload_unload] removes a module that is not externally loaded
    (it returns true), nothing of the image is left: no address of
    [base, base + size) is in a private library any more, no page of the
    range is mapped, no cell of the range holds a bound import, and no
    image is mapped at the base. *)
Theorem privload_unload_clears_image (fuel : nat) (a : nat) (m : privmod_t)
    (s s' : state) :
  privload_unload fuel (HeapNode a) s = Done true s' →
  node_record a (modlist s) = Some m →
  externally_loaded m = false →
  views s' !! base m = None ∧
  ∀ pc, base m ≤ pc < base m + size m →
        in_private_library s' pc = false ∧
        page_prot s' !! pc = None ∧ cells s' !! pc = None.
Proof.
  intros Hrun Hrec Hext.
  destruct (privload_unload_removed fuel a m s s' Hrun Hrec Hext)
    as [s6 ->].
  split; [apply lookup_delete_eq|]. intros pc Hpc. split_and!.
  - unfold in_private_library. cbn. by apply vmvector_overlap_removed.
  - cbn. apply map_lookup_filter_None. right. intros v _. cbn. tauto.
  - cbn. apply map_lookup_filter_None. right. intros v _. cbn. tauto.
Qed.

Lemma privload_unload_clears_image_witness :
  let s' := state_of Scenario.boot
              (privload_unload 5 (HeapNode 1) Scenario.leaf_loaded) in
  views s' !! 1342177280 = None ∧
  in_private_library s' 1342177300 = false.
Proof.
  intros s'.
  assert (privload_unload 5 (HeapNode 1) Scenario.leaf_loaded = Done true s')
    as Hrun by (vm_compute; reflexivity).
  destruct (privload_unload_clears_image 5 1
              {| base := 1342177280; size := 65536; name := "leaf.dll";
                 ref_count := 1; externally_loaded := false |}
              Scenario.leaf_loaded s' Hrun)
    as [Hv Hrange]; [vm_compute; reflexivity|reflexivity|].
  split; [exact Hv|].
  destruct (Hrange 1342177300) as [Hin _]; [cbn; lia|exact Hin].
Defined.

End MoreUnload.

Section MoreEntries.

(** [loader_thread_init] and [loader_thread_exit] always return.  They
    call, front to back, the entry routine of every registered module that
    is not externally loaded and has one, with the reason code
    [DLL_THREAD_ATTACH] and [DLL_THREAD_DETACH], ignore what it returns, and
    change nothing else. *)
Theorem loader_thread_entries (s : state) :
  loader_thread_init s
  = Done tt (log_events (entry_events s DLL_THREAD_ATTACH (modlist s)) s) ∧
  loader_thread_exit s
  = Done tt (log_events (entry_events s DLL_THREAD_DETACH (modlist s)) s).
Proof.
  unfold loader_thread_init, loader_thread_exit, bind, gets.
  split; apply call_entries_events.
Qed.

End MoreEntries.

Section MoreEarly.

(** Before the host heap exists, [privload_load] only maps the file and
    fills the next slot of the static array: it links nothing into the
    registry, adds no area, calls no entry routine.  On success the result
    is that slot, which holds the new record with a count of 1, and the
    directory part of the file name has been stored as the search path of
    the same index.  On failure the static array is as it was. *)
Theorem privload_load_before_heap (W : world) (fuel : nat) (filename : string)
    (dependent r : option privmod_ptr) (s s' : state) :
  dynamo_heap_initialized s = false →
  privload_load W (S fuel) filename dependent s = Done r s' →
  modlist s' = modlist s ∧ modlist_areas s' = modlist_areas s ∧
  no_entry_called s s' ∧
  match r with
  | Some p =>
      let i := privmod_static_idx s in
      p = StaticNode i ∧ (i < PRIVMOD_STATIC_NUM)%nat ∧
      privmod_static_idx s' = S i ∧
      (∃ img b,
         files W filename = Some img ∧ views s' !! b = Some img ∧
         privmod_static s'
         = <[i := {| base := b; size := image_size img;
                     name := short_name img; ref_count := 1;
                     externally_loaded := false |}]> (privmod_static s)) ∧
      search_paths s'
      = match last_dirsep filename with
        | Some e => if (e <? MAXIMUM_PATH)%nat
                    then <[i := string_take e filename]> (search_paths s)
                    else search_paths s
        | None => search_paths s
        end
  | None =>
      privmod_static s' = privmod_static s ∧
      privmod_static_idx s' = privmod_static_idx s
  end.
Proof.
  intros Hheap Hrun. cbn [privload_load] in Hrun.
  unfold privload_load_body in Hrun.
  apply bind_done in Hrun as ([map sz] & s1 & Hmap & Hrun).
  apply privload_map_and_relocate_effect in Hmap
    as ((Hl1 & Hn1 & Hst1 & Hidx1 & Hsp1 & Hroot1 & Hfw1 & Har1 & Hh1)
        & Hent1 & Hview1).
  destruct (map =? 0) eqn:Hz.
  { injection Hrun as <- <-. done. }
  apply Z.eqb_neq in Hz. destruct (Hview1 Hz) as (img & Hfile & Hv1 & ->).
  apply bind_done in Hrun as (heap & s2 & [= <- <-] & Hrun).
  rewrite Hh1, Hheap in Hrun. cbn [negb] in Hrun.
  apply bind_done in Hrun as ([] & s2 & Hpaths & Hrun).
  assert (modlist s2 = modlist s ∧ modlist_areas s2 = modlist_areas s ∧
          trace s2 = trace s1 ∧ views s2 = views s1 ∧
          privmod_static s2 = privmod_static s ∧
          privmod_static_idx s2 = privmod_static_idx s ∧
          dynamo_heap_initialized s2 = false ∧
          search_paths s2
          = match last_dirsep filename with
            | Some e => if (e <? MAXIMUM_PATH)%nat
                        then <[privmod_static_idx s
                               := string_take e filename]> (search_paths s)
                        else search_paths s
            | None => search_paths s
            end)
    as (Hl2 & Har2 & Ht2 & Hv2 & Hst2 & Hidx2 & Hh2 & Hsp2).
  { destruct (last_dirsep filename) as [e|];
      [destruct (e <? MAXIMUM_PATH)%nat|];
      injection Hpaths as <-; cbn; rewrite ?Hidx1, ?Hsp1, ?Hh1;
      by repeat split. }
  assert (no_entry_called s s2) as Hent2
    by (intros e b reason; rewrite Ht2; apply Hent1).
  apply bind_done in Hrun as (nm & s3 & [= <- <-] & Hrun).
  apply bind_done in Hrun as (q & s3 & Hins & Hrun).
  unfold privload_insert in Hins. rewrite Hh2 in Hins.
  assert (get_dll_short_name s2 map = short_name img) as Hnm
    by (unfold get_dll_short_name; by rewrite Hv2, Hv1).
  rewrite Hnm in Hins.
  destruct (PRIVMOD_STATIC_NUM <=? privmod_static_idx s2)%nat eqn:Hfull.
  - injection Hins as <- <-. injection Hrun as <- <-.
    split; [done|]. split; [done|]. split; [exact Hent2|done].
  - injection Hins as <- <-. injection Hrun as <- <-.
    apply Nat.leb_gt in Hfull. rewrite Hidx2 in Hfull.
    split; [done|]. split; [done|]. split; [exact Hent2|].
    cbn. rewrite Hidx2. split_and!; try done.
    exists img, map. rewrite Hv2, Hst2. done.
Qed.

Lemma privload_load_before_heap_witness :
  privmod_static_idx Early.client_mapped = 1%nat ∧
  search_paths Early.client_mapped !! 0%nat = Some "C:/clients/bin"%string ∧
  modlist Early.client_mapped = [].
Proof.
  assert (privload_load Early.world_client 1 "C:/clients/bin/client.dll" None
            Early.cold = Done (Some (StaticNode 0)) Early.client_mapped)
    as Hrun by (vm_compute; reflexivity).
  destruct (privload_load_before_heap Early.world_client 0
              "C:/clients/bin/client.dll" None (Some (StaticNode 0))
              Early.cold Early.client_mapped eq_refl Hrun)
    as (Hl & _ & _ & _ & _ & Hidx & _ & Hsp).
  split; [exact Hidx|]. split; [|exact Hl].
  rewrite Hsp. reflexivity.
Defined.

End MoreEarly.

Section MoreExit.



(** Three libraries that were each linked in at the front: s.dll, at the
    back, has a NULL [prev].  [loader_exit] unloads h.dll, and with it its
    import s.dll, which is taken for the head: x.dll goes off the list with
    it and is still mapped when [loader_exit] has returned. *)
Lemma loader_exit_strands_record :
  let run := loader_exit 4 3
               {| ldr := Early.shx_loaded; fls_cb_list := [0] |} in
  let p' := state_of {| ldr := Early.shx_loaded; fls_cb_list := [0] |} run in
  registry Early.shx_loaded
  = [("h.dll"%string, 1744830464, 1); ("x.dll"%string, 939524096, 1);
     ("s.dll"%string, 671088640, 1)] ∧
  nodes Early.shx_loaded = [3; 2; 1]%nat ∧
  node_prev Early.shx_loaded !! 1%nat = None ∧
  observe run = Returned tt ∧
  modlist (ldr p') = [] ∧
  views (ldr p') !! 1744830464 = None ∧
  views (ldr p') !! 671088640 = None ∧
  views (ldr p') !! 939524096 = Some Early.x_dll.
Proof. repeat split; vm_compute; reflexivity. Qed.

End MoreExit.

Section MoreRoundTrip.

(** Loading and unloading a library that imports nothing.  When the file
    can be mapped and its entry routine, if it has one, accepts the
    attach, [load_private_library] returns the base, the new record is at
    the front of the registry with a count of 1 and every address of the
    image is in a private library; [unload_private_library] on that base
    then returns true, and the registry is as it was before the load, the
    image is unmapped and none of its addresses is in a private library. *)
Theorem load_unload_without_imports (W : world) (fuel : nat)
    (filename : string) (img : pe_image) (b sz : Z) (s s0 : state) :
  dynamo_heap_initialized s = true →
  privload_lookup filename s = None →
  files W filename = Some img →
  privload_map_and_relocate W filename s = Done (b, sz) s0 → b ≠ 0 →
  (import_dir img).2 ≤ 0 →
  entry_rva img = 0 ∨ dll_main img DLL_PROCESS_ATTACH = true →
  let new := {| base := b; size := sz; name := short_name img;
                ref_count := 1; externally_loaded := false |} in
  ∃ s1 s2,
    load_private_library W (S fuel) filename s = Done b s1 ∧
    modlist s1 = (next_node s, new) :: modlist s ∧
    (∀ pc, b ≤ pc < b + sz → in_private_library s1 pc = true) ∧
    unload_private_library (S fuel) b s1 = Done true s2 ∧
    modlist s2 = modlist s ∧ views s2 !! b = None ∧
    (∀ pc, b ≤ pc < b + sz → in_private_library s2 pc = false).
Proof.
  intros Hheap Hlook Hfile Hmap Hb Hdir Hentry new.
  destruct (privload_map_and_relocate_effect _ _ _ _ _ _ Hmap)
    as ((Hl0 & Hn0 & _ & _ & _ & _ & _ & Har0 & Hh0) & _ & Hview).
  destruct (Hview Hb) as (img' & Hfile' & Hv0 & Hsz).
  rewrite Hfile in Hfile'. injection Hfile' as <-.
  set (a := next_node s).
  set (si := set_node_prev (delete a)
               (set_modlist (cons (a, new)) (set_next_node (S a) s0))).
  set (sa := set_areas (λ v, v ++ [(b, b + sz, a)]) si).
  assert (modlist sa = (a, new) :: modlist s) as Hla
    by (cbn; by rewrite Hl0).
  assert (privload_get_import_descriptor new sa = Done (true, None) sa) as Hgid.
  { rewrite (privload_get_import_descriptor_mapped new img) by exact Hv0.
    by rewrite (proj2 (Z.leb_le _ _) Hdir). }
  assert (∃ s1, privload_call_entry new DLL_PROCESS_ATTACH sa = Done true s1 ∧
                modlist s1 = modlist sa ∧ modlist_areas s1 = modlist_areas sa ∧ views s1 = views sa)
    as (s1 & Hcall & Hl1 & Har1 & Hv1).
  { unfold privload_call_entry, get_module_entry.
    change (views sa) with (views s0). cbn [base new]. rewrite Hv0.
    destruct Hentry as [Hrva|Hmain].
    - rewrite Hrva, Z.add_0_r, Z.eqb_refl, andb_false_r. by exists sa.
    - destruct (_ && _); [|by exists sa]. rewrite Hmain. eexists. split; [reflexivity|done]. }
  assert (privload_load_finalize W (privload_load W fuel) (privload_unload fuel) fuel (HeapNode a) si = Done true s1) as Hfin.
  { unfold privload_load_finalize.
    rewrite (bind_step _ _ si si new) by (by apply (deref_head a new (modlist s0))).
    cbn [externally_loaded new negb base size].
    rewrite (bind_step _ _ si sa tt) by reflexivity.
    erewrite bind_step; cycle 1.
    { unfold privload_process_imports.
      rewrite (bind_step _ _ sa sa new) by (by eapply deref_head).
      rewrite (bind_step _ _ _ _ _ Hgid). reflexivity. }
    cbn [negb].
    rewrite (bind_step _ _ sa sa new) by (by eapply deref_head).
    rewrite (bind_step _ _ _ _ _ Hcall). reflexivity. }
  assert (privload_load W (S fuel) filename None s = Done (Some (HeapNode a)) s1) as Hload.
  { cbn [privload_load]. unfold privload_load_body.
    rewrite (bind_step _ _ _ _ _ Hmap).
    apply Z.eqb_neq in Hb as Hb'. rewrite Hb'.
    rewrite (bind_step _ _ s0 s0 true) by (unfold gets; by rewrite Hh0, Hheap).
    cbn [negb]. rewrite (bind_step _ _ s0 s0 tt) by reflexivity.
    rewrite (bind_step _ _ s0 s0 (short_name img))
      by (unfold gets, get_dll_short_name; by rewrite Hv0).
    rewrite (bind_step _ _ s0 si (Some (HeapNode a)))
      by (unfold privload_insert; by rewrite Hh0, Hheap, Hn0).
    rewrite (bind_step _ _ _ _ _ Hfin). reflexivity. }
  set (su := unlink_node a
               (set_modlist (update_node a (with_ref_count 0)) s1)).
  assert (views su = views s0) as Hvu
    by (unfold su; rewrite unlink_node_views; cbn; by rewrite Hv1).
  assert (modlist su = modlist s) as Hlu.
  { apply (unlink_node_head a (with_ref_count 0 new)).
    cbn [modlist set_modlist]. by rewrite Hl1, Hla, update_node_head. }
  assert (∃ r s4, privload_call_entry new DLL_PROCESS_DETACH su
                  = Done r s4 ∧ views s4 = views s0) as (r4 & s4 & Hdet & Hv4).
  { unfold privload_call_entry, get_module_entry.
    cbn [base new]. rewrite Hvu, Hv0.
    destruct (_ && _); eexists _, _; (split; [reflexivity|]); cbn;
      by rewrite ?Hvu. }
  assert (privload_unload_imports (privload_unload fuel) new s4
          = Done true s4) as Himp.
  { unfold privload_unload_imports.
    erewrite bind_step; cycle 1.
    { rewrite (privload_get_import_descriptor_mapped new img)
        by (by rewrite Hv4).
      by rewrite (proj2 (Z.leb_le _ _) Hdir). }
    reflexivity. }
  assert (∃ s2, privload_unload (S fuel) (HeapNode a) s1 = Done true s2 ∧
                modlist s2 = modlist s)
    as (s2 & Hun & Hl2).
  { cbn [privload_unload]. unfold privload_unload_body.
    rewrite (bind_step _ _ s1 s1 new)
      by (apply (deref_head a new (modlist s)); by rewrite Hl1).
    cbn [ref_count new]. change (uint (1 - 1)) with 0.
    erewrite bind_step by reflexivity. cbn [Z.eqb].
    erewrite bind_step by reflexivity.
    erewrite bind_step; cycle 1.
    { cbn [externally_loaded new negb]. fold su.
      rewrite (bind_step _ _ _ _ _ Hdet), (bind_step _ _ _ _ _ Himp).
      erewrite bind_step by reflexivity. reflexivity. }
    eexists. split; [reflexivity|].
    cbn [modlist set_views set_page_prot set_cells set_areas].
    by rewrite (privload_call_entry_modlist _ _ _ _ _ Hdet). }
  exists s1, s2. split_and!.
  - unfold load_private_library.
    rewrite (bind_step _ _ s s None) by (unfold gets; by rewrite Hlook).
    rewrite (bind_step _ _ _ _ _ Hload).
    rewrite (bind_step _ _ s1 s1 new)
      by (apply (deref_head a new (modlist s)); by rewrite Hl1).
    reflexivity.
  - by rewrite Hl1.
  - intros pc Hpc. unfold in_private_library, vmvector_overlap.
    rewrite Har1. cbn [modlist_areas sa set_areas].
    rewrite existsb_app. apply orb_true_iff. right. cbn.
    apply orb_true_iff. left. apply andb_true_iff. lia.
  - unfold unload_private_library.
    rewrite (bind_step _ _ s1 s1 (Some (HeapNode a))); [exact Hun|].
    unfold gets, privload_lookup_by_base. rewrite Hl1, Hla.
    cbn [find_mod base new]. by rewrite Z.eqb_refl.
  - exact Hl2.
  - destruct (privload_unload_removed _ _ new _ _ Hun) as [s6 ->];
      [by rewrite Hl1, Hla; cbn [node_record]; rewrite decide_True|done|].
    apply lookup_delete_eq.
  - intros pc Hpc.
    destruct (privload_unload_removed _ _ new _ _ Hun) as [s6 ->];
      [by rewrite Hl1, Hla; cbn [node_record]; rewrite decide_True|done|].
    unfold in_private_library. cbn. by apply vmvector_overlap_removed.
Qed.

Lemma load_unload_without_imports_witness :
  ∃ s1 s2,
    load_private_library Scenario.world_leaf 2 "leaf.dll" Scenario.boot
    = Done 1342177280 s1 ∧
    unload_private_library 2 1342177280 s1 = Done true s2 ∧
    modlist s2 = [].
Proof.
  remember (privload_map_and_relocate Scenario.world_leaf "leaf.dll"
              Scenario.boot) as run eqn:Erun.
  remember (state_of Scenario.boot run) as s0 eqn:Es0.
  assert (run = Done (1342177280, 65536) s0) as Hmap
    by (rewrite Es0, Erun; vm_compute; reflexivity).
  clear Es0. rewrite Erun in Hmap. clear Erun.
  destruct (load_unload_without_imports Scenario.world_leaf 1 "leaf.dll"
              Scenario.leaf_dll 1342177280 65536 Scenario.boot s0)
    as (s1 & s2 & Hload & _ & _ & Hun & Hl2 & _);
    [reflexivity|reflexivity|reflexivity|exact Hmap|discriminate|
     cbn; lia|left; reflexivity|].
  exists s1, s2. split; [exact Hload|]. split; [exact Hun|exact Hl2].
Defined.

End MoreRoundTrip.

Section MoreKernel32.

(** [redirect_GetProcAddress] and the import binder agree on an export
    that is not forwarded: for a module registered under its base, the
    address the binder stores in the slot of an import by name is the
    address [redirect_GetProcAddress] returns for that base and name (the
    replacement routine when the name is redirected, the export
    otherwise).  The query leaves the state as it is. *)
Theorem redirect_GetProcAddress_agrees (W : world)
    (K : Kernel32.kernel32_host)
    (load_rec : string → option privmod_ptr → M (option privmod_ptr))
    (budget : nat) (privmod impmod : privmod_ptr) (lookup address prot : Z)
    (m im : privmod_t) (img : pe_image) (s : state) :
  let nm := cstr img (Z.land lookup (Z.lnot (IMAGE_ORDINAL_FLAG W)) + 2) in
  TEST (IMAGE_ORDINAL_FLAG W) lookup = false →
  deref privmod s = Done m s → views s !! base m = Some img →
  deref impmod s = Done im s →
  privload_lookup_by_base (base im) s = Some impmod →
  (get_proc_address_ex s (base im) nm).1 ≠ 0 →
  page_prot s !! PAGE_START address = Some prot → writable prot = true →
  ∃ v s',
    privload_process_one_import W load_rec budget privmod impmod lookup
      address s = Done true s' ∧
    Kernel32.redirect_GetProcAddress W K (base im) nm s = Done v s ∧
    cells s' !! address = Some v.
Proof.
  intros nm Hname Hm Himg Him Hbase Hfunc Hprot Hw.
  set (func := (get_proc_address_ex s (base im) nm).1) in *.
  set (dst := privload_redirect_imports W im nm).
  exists (if dst =? 0 then func else dst),
         (set_cells (<[address := if dst =? 0 then func else dst]>) s).
  split; [|split].
  - unfold privload_process_one_import. rewrite Hname.
    rewrite (bind_step _ _ _ _ _ Hm).
    rewrite (bind_step _ _ s s img) by (unfold image_at; by rewrite Himg).
    rewrite (bind_step _ _ _ _ _ Him).
    erewrite bind_step by reflexivity.
    fold nm. destruct (get_proc_address_ex s (base im) nm) as [f fw] eqn:Hgp.
    cbn [fst] in func. subst func.
    erewrite bind_step; cycle 1.
    { destruct budget; cbn [forwarder_loop];
        apply Z.eqb_neq in Hfunc; rewrite Hfunc; reflexivity. }
    cbv beta iota. rewrite (bind_step _ _ _ _ _ Him). fold dst.
    erewrite bind_step; [reflexivity|].
    unfold store_ptr. by rewrite Hprot, Hw.
  - unfold Kernel32.redirect_GetProcAddress.
    rewrite (bind_step _ _ s s (Some impmod)) by (unfold gets; by rewrite Hbase).
    rewrite (bind_step _ _ _ _ _ Him). fold dst.
    destruct (dst =? 0); reflexivity.
  - cbn. apply lookup_insert_eq.
Qed.

(** a.dll imports [f] from b.dll: the slot of its address table receives
    what [redirect_GetProcAddress] gives for b.dll and [f]. *)
Lemma redirect_GetProcAddress_agrees_witness :
  ∃ v s',
    privload_process_one_import Scenario.world_ab
      (privload_load Scenario.world_ab 3) 3 (HeapNode 1) (HeapNode 2)
      24576 536891392 Early.ab_binding = Done true s' ∧
    Kernel32.redirect_GetProcAddress Scenario.world_ab Early.no_kernel32
      268435456 "f" Early.ab_binding = Done v Early.ab_binding ∧
    cells s' !! 536891392 = Some v.
Proof.
  set (ma := {| base := 536870912; size := 65536; name := "a.dll";
                ref_count := 1; externally_loaded := false |}).
  set (mb := {| base := 268435456; size := 65536; name := "b.dll";
                ref_count := 1; externally_loaded := false |}).
  destruct (redirect_GetProcAddress_agrees Scenario.world_ab
              Early.no_kernel32 (privload_load Scenario.world_ab 3) 3
              (HeapNode 1) (HeapNode 2) 24576 536891392 4 ma mb
              Scenario.a_dll Early.ab_binding)
    as (v & s' & Hbind & Hquery & Hcell);
    [reflexivity|vm_compute; reflexivity|vm_compute; reflexivity|
     vm_compute; reflexivity|vm_compute; reflexivity|
     vm_compute; discriminate|vm_compute; reflexivity|reflexivity|].
  change (cstr Scenario.a_dll
            (Z.land 24576 (Z.lnot (IMAGE_ORDINAL_FLAG Scenario.world_ab)) + 2))
    with "f"%string in Hquery.
  change (base mb) with 268435456 in Hquery.
  exists v, s'. split; [exact Hbind|]. split; [exact Hquery|exact Hcell].
Defined.

End MoreKernel32.

Section MoreInit.

(** [loader_init], called with the heap initialised and no client library
    loaded early: it returns, with no client library reported; ntdll, the
    host's own library and, when the application has it loaded, user32 are
    registered at the front of the registry, user32 first, each with a
    count of 1 and marked externally loaded; the area vector is new and
    empty, the callback list has its head node, the system root is the
    registry value when the query succeeded; no image has been mapped or
    unmapped and no entry routine called. *)
Theorem loader_init_registers_host_modules (W : world) (B : host_modules)
    (fuel k : nat) (p : process) :
  dynamo_heap_initialized (ldr p) = true →
  privmod_static_idx (ldr p) = 0%nat →
  let n := next_node (ldr p) in
  ∃ p',
    loader_init W B fuel k p = Done [] p' ∧
    modlist (ldr p')
    = (if user32_handle B =? 0 then []
       else [(S (S n), host_record B (user32_handle B) "user32.dll")]) ++
      [(S n, host_record B (dynamorio_dll_start B) (DYNAMORIO_LIBRARY_NAME B));
       (n, host_record B (ntdll_base B) "ntdll.dll")] ++
      modlist (ldr p) ∧
    modlist_areas (ldr p') = [] ∧ fls_cb_list p' = [0] ∧
    systemroot (ldr p')
    = match systemroot_value B with
      | Some v => path_buffer v
      | None => systemroot (ldr p)
      end ∧
    views (ldr p') = views (ldr p) ∧ page_prot (ldr p') = page_prot (ldr p) ∧
    trace (ldr p') = trace (ldr p).
Proof.
  intros Hheap Hidx n.
  set (s := ldr p) in *.
  (* the system root *)
  set (s1 := match systemroot_value B with
             | Some v => set_systemroot (path_buffer v) s
             | None => s
             end).
  assert (privload_init_search_paths B s = Done tt s1) as Hroot.
  { unfold privload_init_search_paths. subst s1.
    by destruct (systemroot_value B). }
  assert (modlist s1 = modlist s ∧ next_node s1 = n ∧
          dynamo_heap_initialized s1 = true ∧ privmod_static_idx s1 = 0%nat ∧
          views s1 = views s ∧ page_prot s1 = page_prot s ∧
          trace s1 = trace s ∧
          systemroot s1 = match systemroot_value B with
                          | Some v => path_buffer v
                          | None => systemroot s
                          end)
    as (Hl1 & Hn1 & Hh1 & Hi1 & Hv1 & Hp1 & Ht1 & Hr1).
  { subst s1. by destruct (systemroot_value B). }
  (* the area vector *)
  set (s2 := set_areas (λ _, []) s1).
  (* ntdll, the host library, user32 *)
  destruct (register_host_module_run B (ntdll_base B) "ntdll.dll" s2)
    as (s3 & Hreg3 & Hl3 & Hn3 & H23); [exact Hh1|].
  destruct H23 as (_ & Hi3 & _ & Hr3 & _ & Ha3 & Hh3 & Hv3 & Hp3 & _ & Ht3).
  destruct (register_host_module_run B (dynamorio_dll_start B)
              (DYNAMORIO_LIBRARY_NAME B) s3)
    as (s4 & Hreg4 & Hl4 & Hn4 & H34);
    [by rewrite Hh3|].
  destruct H34 as (_ & Hi4 & _ & Hr4 & _ & Ha4 & Hh4 & Hv4 & Hp4 & _ & Ht4).
  assert (∃ s5,
            (if negb (user32_handle B =? 0)
             then register_host_module (user32_handle B)
                    (allocation_size B (user32_handle B)) "user32.dll"
             else ret tt) s4 = Done tt s5 ∧
            modlist s5
            = (if user32_handle B =? 0 then []
               else [(S (S n), host_record B (user32_handle B) "user32.dll")])
              ++ modlist s4 ∧
            same_but_registry s4 s5)
    as (s5 & Hreg5 & Hl5 & H45).
  { destruct (user32_handle B =? 0); cbn [negb].
    - exists s4. split; [done|]. split; [done|apply same_but_registry_refl].
    - destruct (register_host_module_run B (user32_handle B) "user32.dll" s4)
        as (s5 & Hreg5 & Hl5 & _ & H45); [by rewrite Hh4, Hh3|].
      exists s5. split; [done|]. split; [|done].
      rewrite Hl5, Hn4, Hn3. cbn [next_node s2 set_areas].
      by rewrite Hn1. }
  destruct H45 as (_ & Hi5 & _ & Hr5 & _ & Ha5 & _ & Hv5 & Hp5 & _ & Ht5).
  exists {| ldr := s5; fls_cb_list := [0] |}. split.
  { unfold loader_init.
    erewrite bind_step by reflexivity.
    unfold in_ldr. cbn [ldr set_fls fls_cb_list]. fold s.
    rewrite (bind_step _ _ _ _ _ Hroot).
    rewrite (bind_step _ _ s1 s2 tt) by reflexivity.
    rewrite (bind_step _ _ _ _ _ Hreg3), (bind_step _ _ _ _ _ Hreg4),
      (bind_step _ _ _ _ _ Hreg5).
    destruct k; cbn [finalize_client_libs]; unfold bind, gets;
      rewrite Hi5, Hi4, Hi3; cbn [privmod_static_idx s2 set_areas];
      by rewrite Hi1. }
  cbn [ldr fls_cb_list]. split_and!; try done.
  - rewrite Hl5, Hl4, Hl3, Hn3. cbn [modlist next_node s2 set_areas].
    by rewrite Hl1, Hn1.
  - by rewrite Ha5, Ha4, Ha3.
  - by rewrite Hr5, Hr4, Hr3.
  - by rewrite Hv5, Hv4, Hv3.
  - by rewrite Hp5, Hp4, Hp3.
  - by rewrite Ht5, Ht4, Ht3.
Qed.

Lemma loader_init_registers_host_modules_witness :
  ∃ p', loader_init Scenario.world_ab Early.host_boot 3 0 Early.fresh_process
        = Done [] p' ∧
        (λ x : nat * privmod_t, name x.2) <$> modlist (ldr p')
        = ["user32.dll"; "dynamorio.dll"; "ntdll.dll"]%string ∧
        modlist_areas (ldr p') = [].
Proof.
  destruct (loader_init_registers_host_modules Scenario.world_ab
              Early.host_boot 3 0 Early.fresh_process eq_refl eq_refl)
    as (p' & Hrun & Hl & Ha & _).
  exists p'. split; [exact Hrun|]. split; [|exact Ha].
  rewrite Hl. reflexivity.
Defined.

End MoreInit.

Section MoreExitHost.

(** A registry that holds only externally loaded modules, the modules of
    the host among them, is emptied by [loader_exit] without any other
    effect on the loader state than the deletion of the area vector: no
    image is unmapped, no page protection or bound import changes and no
    entry routine is called. *)
Theorem loader_exit_spares_host_modules (fuel k : nat) (p : process) :
  private_bases (ldr p) = [] → counted (ldr p) →
  (length (modlist (ldr p)) < fuel)%nat →
  total_refs (modlist (ldr p)) ≤ Z.of_nat k →
  ∃ p', loader_exit fuel k p = Done tt p' ∧
        modlist (ldr p') = [] ∧
        views (ldr p') = views (ldr p) ∧
        page_prot (ldr p') = page_prot (ldr p) ∧
        cells (ldr p') = cells (ldr p) ∧
        trace (ldr p') = trace (ldr p).
Proof.
  intros Hpb Hc Hfuel Hk.
  destruct (unload_all_returns k fuel (ldr p) Hc) as [s1 Hrun];
    [|done|done|].
  { split; rewrite Hpb; [apply NoDup_nil_2|].
    intros b Hb. by apply elem_of_nil in Hb. }
  pose proof (unload_all_empties _ _ _ _ Hrun) as Hempty.
  destruct (unload_all_external_only _ _ _ _ Hrun Hpb)
    as (_ & _ & _ & _ & _ & _ & _ & Hv & Hp & Hcl & Ht).
  exists {| ldr := set_areas (λ _, []) s1; fls_cb_list := [] |}.
  split.
  { unfold loader_exit, bind, in_ldr, modify. by rewrite Hrun. }
  done.
Qed.

(** After [loader_init], [loader_exit] removes the three records of the
    host and leaves its images alone. *)
Lemma loader_exit_spares_host_modules_witness :
  ∃ p', loader_exit 4 3 Early.initialised = Done tt p' ∧
        modlist (ldr p') = [] ∧
        views (ldr p') = views (ldr Early.initialised).
Proof.
  assert (modlist (ldr Early.initialised)
          = [(3%nat, host_record Early.host_boot 1983905792 "user32.dll");
             (2%nat, host_record Early.host_boot 1895825408 "dynamorio.dll");
             (1%nat, host_record Early.host_boot 2004877312 "ntdll.dll")])
    as Hl by (vm_compute; reflexivity).
  destruct (loader_exit_spares_host_modules 4 3 Early.initialised)
    as (p' & Hrun & Hempty & Hv & _).
  - unfold private_bases. rewrite Hl. reflexivity.
  - split.
    + unfold nodes. rewrite Hl. apply (bool_decide_unpack _). reflexivity.
    + rewrite Hl. intros x Hx.
      apply elem_of_cons in Hx as [->|Hx]; [cbn; lia|].
      apply elem_of_cons in Hx as [->|Hx]; [cbn; lia|].
      apply list_elem_of_singleton in Hx as ->. cbn. lia.
  - rewrite Hl. cbn. lia.
  - rewrite Hl. cbn. lia.
  - exists p'. split; [exact Hrun|]. split; [exact Hempty|exact Hv].
Defined.

End MoreExitHost.

Section MoreFls.

(** A callback of a private library that was registered with the redirected
    FlsAlloc is run natively when the application reaches its address: the
    real FlsAlloc gave the index, [private_lib_handle_cb] at the callback's
    address answers true, calls the callback once with the argument of the
    stdcall frame (the register on x64), pops the frame and continues at
    the return address.  Callbacks registered before stay registered. *)
Theorem FlsAlloc_then_handle_cb (W : world) (F : Fls.fls_host)
    (cb retaddr : Z) (t : Fls.machine) :
  in_private_library (ldr (Fls.proc t)) cb = true →
  fls_cb_list (Fls.proc t) ≠ [] →
  cb ≠ 0 →
  Fls.stack t !! Fls.xsp t = Some retaddr →
  ∃ t1 t2,
    Fls.redirect_FlsAlloc F cb t = Done (Fls.FlsAlloc F cb) t1 ∧
    (∀ pc, pc ∈ fls_cb_list (Fls.proc t) → pc ∈ fls_cb_list (Fls.proc t1)) ∧
    Fls.private_lib_handle_cb W cb t1 = Done true t2 ∧
    Fls.cb_calls t2
    = Fls.cb_calls t
      ++ [(cb, if x64 W then Fls.xcx t
               else default 0 (Fls.stack t
                                 !! ((Fls.xsp t + 4) mod 2 ^ 32)))] ∧
    Fls.next_tag t2 = retaddr ∧
    Fls.xsp t2 = (Fls.xsp t + 8) mod 2 ^ (if x64 W then 64 else 32) ∧
    fls_cb_list (Fls.proc t2) = fls_cb_list (Fls.proc t1).
Proof.
  intros Hin Hne Hcb Htop.
  destruct (fls_cb_list (Fls.proc t)) as [|head rest] eqn:Hl; [done|].
  destruct (redirect_FlsAlloc_private F cb t head rest Hin Hl)
    as (t1 & Hrun & Hl1 & _ & _ & _ & Hsp & Hcx & Hst & _ & Hcalls).
  assert (existsb (λ c, negb (c =? 0) && (c =? cb)) (fls_cb_list (Fls.proc t1))
          = true) as Hmatch.
  { apply fls_match_iff. split; [done|]. rewrite Hl1. right. left. }
  exists t1. eexists. split; [exact Hrun|]. split.
  { intros pc Hpc. rewrite Hl1.
    apply elem_of_cons in Hpc as [->|Hpc]; [left|by do 2 right]. }
  unfold Fls.private_lib_handle_cb, Fls.safe_read.
  rewrite Hmatch, Hsp, Hst, Htop, Hcx, Hcalls.
  split; [reflexivity|]. unfold Fls.advance, Fls.XSP_SZ. cbn.
  destruct (x64 W); by rewrite ?Z.add_0_r.
Qed.

(** leaf.dll registers a callback at 0x50000100; a thread reaching it with
    the return address 0x401000 and the argument 7 on its stack. *)
Lemma FlsAlloc_then_handle_cb_witness :
  ∃ t1 t2,
    Fls.redirect_FlsAlloc Early.fls_host32 1342177536 Early.thread_at_callback
    = Done 1 t1 ∧
    Fls.private_lib_handle_cb Scenario.world_leaf 1342177536 t1
    = Done true t2 ∧
    Fls.cb_calls t2 = [(1342177536, 7)] ∧
    Fls.next_tag t2 = 4198400 ∧ Fls.xsp t2 = 1244008.
Proof.
  destruct (FlsAlloc_then_handle_cb Scenario.world_leaf Early.fls_host32
              1342177536 4198400 Early.thread_at_callback)
    as (t1 & t2 & Hrun & _ & Hcb & Hcalls & Htag & Hsp & _).
  - vm_compute. reflexivity.
  - discriminate.
  - lia.
  - vm_compute. reflexivity.
  - exists t1, t2. split; [exact Hrun|]. split; [exact Hcb|].
    split; [exact Hcalls|]. split; [exact Htag|exact Hsp].
Defined.

(** [private_lib_handle_cb] always returns.  It answers true exactly when
    [pc] is not NULL, is the callback of a node of the list and the top of
    the stack can be read; the head node, whose callback is NULL, is never
    taken for a match.  When it answers false nothing has changed, and in
    no case does it change the list or the loader's state. *)
Theorem private_lib_handle_cb_redirects_iff (W : world) (pc : Z)
    (t : Fls.machine) :
  ∃ r t', Fls.private_lib_handle_cb W pc t = Done r t' ∧
          (r = true ↔ pc ≠ 0 ∧ pc ∈ fls_cb_list (Fls.proc t) ∧
                      is_Some (Fls.stack t !! Fls.xsp t)) ∧
          (r = false → t' = t) ∧
          Fls.proc t' = Fls.proc t ∧ Fls.stack t' = Fls.stack t.
Proof.
  unfold Fls.private_lib_handle_cb, Fls.safe_read.
  destruct (existsb _ (fls_cb_list (Fls.proc t))) eqn:Hmatch.
  - apply fls_match_iff in Hmatch as [Hnz Hin].
    destruct (Fls.stack t !! Fls.xsp t) as [retaddr|] eqn:Htop.
    + eexists _, _. split; [reflexivity|]. split_and!; try done.
    + eexists _, _. split; [reflexivity|]. split_and!; try done.
      split; [done|]. intros (_ & _ & [? ?]). done.
  - eexists _, _. split; [reflexivity|]. split_and!; try done.
    split; [done|]. intros (Hnz & Hin & _).
    assert (existsb (λ cb, negb (cb =? 0) && (cb =? pc))
              (fls_cb_list (Fls.proc t)) = true) as Hyes
      by (by apply fls_match_iff).
    congruence.
Qed.

End MoreFls.

Section MoreFailedLoad.

(** A library whose first import cannot be found fails to load and is
    taken back out.  When none of its imports is registered and no
    candidate file for the first one exists, [load_private_library]
    returns NULL, the registry is as it was before the call, the image is
    unmapped and none of its addresses is in a private library.  The entry
    routine, if the image has one, has been called once, for
    DLL_PROCESS_DETACH, although it was never called for
    DLL_PROCESS_ATTACH. *)
Theorem load_private_library_missing_import (W : world) (fuel : nat)
    (filename : string) (img : pe_image) (b sz : Z) (nm1 : string)
    (others : list string) (s s0 : state) :
  dynamo_heap_initialized s = true →
  privload_lookup filename s = None →
  files W filename = Some img →
  privload_map_and_relocate W filename s = Done (b, sz) s0 → b ≠ 0 →
  0 < (import_dir img).2 → imports_readable img = true →
  import_names img (descriptors img (import_dir img).1) = nm1 :: others →
  (∀ nm, nm ∈ nm1 :: others → privload_lookup nm s = None) →
  strcasecmp nm1 (short_name img) ≠ 0 →
  (∀ c, c ∈ search_candidates s nm1 → os_file_exists W c = false) →
  let entry := b + entry_rva img in
  ∃ s',
    load_private_library W (S (S fuel)) filename s = Done 0 s' ∧
    modlist s' = modlist s ∧
    views s' !! b = None ∧
    (∀ pc, b ≤ pc < b + sz → in_private_library s' pc = false) ∧
    trace s' = trace s0 ++
               (if negb (entry =? 0) && negb (entry =? b)
                then [EvEntry entry b DLL_PROCESS_DETACH] else []).
Proof.
  intros Hheap Hlook Hfile Hmap Hb Hdir Hread Hnames Hunreg Hself Hmissing
    entry.
  destruct (privload_map_and_relocate_effect _ _ _ _ _ _ Hmap)
    as ((Hl0 & Hn0 & _ & Hidx0 & Hsp0 & Hroot0 & _ & Har0 & Hh0) & _ & Hview).
  destruct (Hview Hb) as (img' & Hfile' & Hv0 & Hsz).
  rewrite Hfile in Hfile'. injection Hfile' as <-.
  destruct (import_names_cons _ _ _ _ Hnames)
    as (d & rest & Hdescs & Hoft & -> & ->).
  set (nm1 := cstr img (Name d)) in *.
  set (new := {| base := b; size := sz; name := short_name img;
                 ref_count := 1; externally_loaded := false |}).
  set (a := next_node s).
  set (si := set_node_prev (delete a)
               (set_modlist (cons (a, new)) (set_next_node (S a) s0))).
  set (sa := set_areas (λ v, v ++ [(b, b + sz, a)]) si).
  assert (modlist sa = (a, new) :: modlist s) as Hla
    by (cbn; by rewrite Hl0).
  assert (privload_get_import_descriptor new sa
          = Done (true, Some (descriptors img (import_dir img).1)) sa) as Hgid.
  { rewrite (privload_get_import_descriptor_mapped new img) by exact Hv0.
    rewrite (proj2 (Z.leb_gt _ _) Hdir), Hread. reflexivity. }
  assert (privload_lookup nm1 sa = None) as Hmiss.
  { unfold privload_lookup. rewrite Hla. cbn [find_mod name new].
    apply Z.eqb_neq in Hself. rewrite Hself. apply Hunreg. left. }
  assert (privload_process_imports W (privload_load W (S fuel)) (S fuel)
            (HeapNode a) sa = Done false sa) as Himports.
  { unfold privload_process_imports.
    rewrite (bind_step _ _ sa sa new) by (by eapply deref_head).
    rewrite (bind_step _ _ _ _ _ Hgid). cbn [negb].
    rewrite (bind_step _ _ sa sa img)
      by (unfold image_at; change (views sa) with (views s0);
          cbn [base new]; by rewrite Hv0).
    rewrite Hdescs. cbn [bind_descriptors]. rewrite Hoft. fold nm1.
    rewrite (bind_step _ _ sa sa None) by (unfold gets; by rewrite Hmiss).
    erewrite bind_step; cycle 1.
    { unfold privload_locate_and_load.
      erewrite bind_step by reflexivity.
      apply locate_client_dirs_order. intros c Hc. apply Hmissing.
      unfold search_candidates.
      change (privmod_static_idx sa) with (privmod_static_idx s0) in Hc.
      change (search_paths sa) with (search_paths s0) in Hc.
      change (systemroot sa) with (systemroot s0) in Hc.
      by rewrite Hidx0, Hsp0, Hroot0 in Hc. }
    reflexivity. }
  set (su := unlink_node a
               (set_modlist (update_node a (with_ref_count 0)) sa)).
  assert (modlist su = modlist s) as Hlu.
  { apply (unlink_node_head a (with_ref_count 0 new)).
    cbn [modlist set_modlist]. by rewrite Hla, update_node_head. }
  assert (views su = views s0) as Hvu
    by (unfold su; by rewrite unlink_node_views).
  set (s4 := if negb (entry =? 0) && negb (entry =? b)
             then log_event (EvEntry entry b DLL_PROCESS_DETACH) su else su).
  assert (∃ r, privload_call_entry new DLL_PROCESS_DETACH su = Done r s4)
    as [r Hdet].
  { unfold privload_call_entry, get_module_entry.
    cbn [base new]. rewrite Hvu, Hv0.
    fold entry. unfold s4. destruct (_ && _); by eexists. }
  assert (modlist s4 = modlist s ∧ views s4 = views s0 ∧
          trace s4 = trace s0 ++
                     (if negb (entry =? 0) && negb (entry =? b)
                      then [EvEntry entry b DLL_PROCESS_DETACH] else []))
    as (Hl4 & Hv4 & Ht4).
  { assert (trace su = trace s0) as Htu.
    { unfold su.
      by destruct (unlink_node_frame a
                     (set_modlist (update_node a (with_ref_count 0)) sa))
        as (_&_&_&_&_&_&_&_&_&_&_&->). }
    unfold s4. destruct (_ && _); cbn [log_event modlist views trace];
      rewrite ?app_nil_r; by rewrite ?Hlu, ?Hvu, ?Htu. }
  assert (privload_unload_imports (privload_unload fuel) new s4
          = Done true s4) as Himp.
  { unfold privload_unload_imports.
    erewrite bind_step; cycle 1.
    { rewrite (privload_get_import_descriptor_mapped new img)
        by (by rewrite Hv4).
      rewrite (proj2 (Z.leb_gt _ _) Hdir), Hread. reflexivity. }
    cbn [negb].
    rewrite (bind_step _ _ s4 s4 img)
      by (unfold image_at; cbn [base new]; by rewrite Hv4, Hv0).
    apply unload_descriptors_unregistered.
    intros nm Hnm. unfold privload_lookup. rewrite Hl4.
    apply Hunreg. by rewrite <- Hnames. }
  set (s' := set_views (delete b)
               (set_page_prot (filter (λ kv, ¬ (b ≤ kv.1 < b + sz)))
                  (set_cells (filter (λ kv, ¬ (b ≤ kv.1 < b + sz)))
                     (set_areas
                        (filter (λ e, ¬ (e.1.1 < b + sz ∧ b < e.1.2)))
                        s4)))).
  assert (privload_unload (S fuel) (HeapNode a) sa = Done true s') as Hun.
  { cbn [privload_unload]. unfold privload_unload_body.
    rewrite (bind_step _ _ sa sa new) by (by eapply deref_head).
    cbn [ref_count new]. change (uint (1 - 1)) with 0.
    erewrite bind_step by reflexivity. cbn [Z.eqb].
    erewrite bind_step by reflexivity.
    erewrite bind_step; cycle 1.
    { cbn [externally_loaded new negb]. fold su.
      rewrite (bind_step _ _ _ _ _ Hdet), (bind_step _ _ _ _ _ Himp).
      erewrite bind_step by reflexivity. reflexivity. }
    reflexivity. }
  assert (privload_load W (S (S fuel)) filename None s = Done None s')
    as Hload.
  { cbn [privload_load]. unfold privload_load_body.
    rewrite (bind_step _ _ _ _ _ Hmap).
    apply Z.eqb_neq in Hb as Hb'. rewrite Hb'.
    rewrite (bind_step _ _ s0 s0 true) by (unfold gets; by rewrite Hh0, Hheap).
    cbn [negb]. rewrite (bind_step _ _ s0 s0 tt) by reflexivity.
    rewrite (bind_step _ _ s0 s0 (short_name img))
      by (unfold gets, get_dll_short_name; by rewrite Hv0).
    rewrite (bind_step _ _ s0 si (Some (HeapNode a)))
      by (unfold privload_insert; by rewrite Hh0, Hheap, Hn0).
    erewrite bind_step; cycle 1.
    { unfold privload_load_finalize.
      rewrite (bind_step _ _ si si new)
        by (by apply (deref_head a new (modlist s0))).
      cbn [externally_loaded new negb base size].
      rewrite (bind_step _ _ si sa tt) by reflexivity.
      rewrite (bind_step _ _ _ _ _ Himports). cbn [negb].
      rewrite (bind_step _ _ _ _ _ Hun). reflexivity. }
    reflexivity. }
  exists s'. split_and!.
  - unfold load_private_library.
    rewrite (bind_step _ _ s s None) by (unfold gets; by rewrite Hlook).
    rewrite (bind_step _ _ _ _ _ Hload). reflexivity.
  - exact Hl4.
  - apply lookup_delete_eq.
  - intros pc Hpc. unfold in_private_library. cbn.
    by apply vmvector_overlap_removed.
  - exact Ht4.
Qed.

(** client.dll, whose entry routine is at 0x70001000, imports from a
    b.dll that is in no directory. *)
Lemma load_private_library_missing_import_witness :
  ∃ s', load_private_library Early.world_client_alone 2 "client.dll"
          Scenario.boot = Done 0 s' ∧
        modlist s' = [] ∧
        trace s' = [EvEntry 1879052288 1879048192 DLL_PROCESS_DETACH].
Proof.
  remember (privload_map_and_relocate Early.world_client_alone "client.dll"
              Scenario.boot) as run eqn:Erun.
  remember (state_of Scenario.boot run) as s0 eqn:Es0.
  assert (run = Done (1879048192, 65536) s0) as Hmap
    by (rewrite Es0, Erun; vm_compute; reflexivity).
  assert (trace s0 = []) as Ht0 by (rewrite Es0, Erun; vm_compute; reflexivity).
  clear Es0. rewrite Erun in Hmap. clear Erun.
  destruct (load_private_library_missing_import Early.world_client_alone 0
              "client.dll" Early.client_dll 1879048192 65536 "b.dll" []
              Scenario.boot s0)
    as (s' & Hload & Hl & _ & _ & Ht);
    [reflexivity|reflexivity|reflexivity|exact Hmap|discriminate|
     reflexivity|reflexivity|reflexivity| |discriminate| |].
  - intros nm Hnm. reflexivity.
  - intros c Hc. cbn in Hc.
    apply elem_of_cons in Hc as [->|Hc]; [reflexivity|].
    apply list_elem_of_singleton in Hc as ->. reflexivity.
  - exists s'. split; [exact Hload|]. split; [exact Hl|].
    rewrite Ht, Ht0. reflexivity.
Defined.

End MoreFailedLoad.

Section MoreHandles.

(** A library that is registered is never looked for in the real
    kernel32.  [redirect_GetModuleHandleA] answers with the base of its
    record for the name in any letter case, and
    [redirect_GetProcAddress] on that handle answers with the replacement
    routine when the name is redirected for this library and with the
    export of the private copy otherwise.  Neither changes the state. *)
Theorem redirect_GetModuleHandleA_private (W : world)
    (K : Kernel32.kernel32_host) (nm nm' sym : string) (p : privmod_ptr)
    (m : privmod_t) (s : state) :
  privload_lookup nm s = Some p → deref p s = Done m s →
  privload_lookup_by_base (base m) s = Some p →
  lower nm' = lower nm →
  Kernel32.redirect_GetModuleHandleA K nm' s = Done (base m) s ∧
  Kernel32.redirect_GetProcAddress W K (base m) sym s
  = Done (if privload_redirect_imports W m sym =? 0
          then (get_proc_address_ex s (base m) sym).1
          else privload_redirect_imports W m sym) s.
Proof.
  intros Hlook Hm Hbase Hcase. split.
  - unfold Kernel32.redirect_GetModuleHandleA.
    rewrite (bind_step _ _ s s (Some p))
      by (unfold gets; by rewrite (privload_lookup_case nm nm'), Hlook).
    by rewrite (bind_step _ _ _ _ _ Hm).
  - unfold Kernel32.redirect_GetProcAddress.
    rewrite (bind_step _ _ s s (Some p)) by (unfold gets; by rewrite Hbase).
    rewrite (bind_step _ _ _ _ _ Hm).
    destruct (privload_redirect_imports W m sym =? 0); reflexivity.
Qed.

(** With a.dll and b.dll loaded, the handle of B.DLL is the base of the
    private b.dll, and [f] is found at its export. *)
Lemma redirect_GetModuleHandleA_private_witness :
  Kernel32.redirect_GetModuleHandleA Early.no_kernel32 "B.DLL"
    Scenario.ab_loaded = Done 268435456 Scenario.ab_loaded ∧
  Kernel32.redirect_GetProcAddress Scenario.world_ab Early.no_kernel32
    268435456 "f" Scenario.ab_loaded = Done 268439552 Scenario.ab_loaded.
Proof.
  assert (modlist Scenario.ab_loaded
          = [(1%nat, {| base := 536870912; size := 65536; name := "a.dll";
                        ref_count := 1; externally_loaded := false |});
             (2%nat, {| base := 268435456; size := 65536; name := "b.dll";
                        ref_count := 1; externally_loaded := false |})])
    as Hl by (vm_compute; reflexivity).
  destruct (redirect_GetModuleHandleA_private Scenario.world_ab
              Early.no_kernel32 "b.dll" "B.DLL" "f" (HeapNode 2)
              {| base := 268435456; size := 65536; name := "b.dll";
                 ref_count := 1; externally_loaded := false |}
              Scenario.ab_loaded) as [Hh Hp].
  - unfold privload_lookup. rewrite Hl. reflexivity.
  - unfold deref. rewrite Hl. reflexivity.
  - unfold privload_lookup_by_base. rewrite Hl. reflexivity.
  - reflexivity.
  - cbn [base] in Hh, Hp. split; [exact Hh|]. rewrite Hp.
    change (privload_redirect_imports _ _ _ =? 0) with true. cbv iota.
    unfold get_proc_address_ex.
    assert (views Scenario.ab_loaded !! 268435456 = Some Scenario.b_dll)
      as -> by (vm_compute; reflexivity).
    reflexivity.
Defined.

End MoreHandles.
